(** * Life expectancy / GDP analytics pipeline: a shallow embedding

    The development follows [life_exp_gdp_analysis.py]: feature engineering
    ([engineer_features]), the outcome regression with its residual ranking
    ([fit_outcome_regression]), the segmentation ([cluster_populations]) and
    the what-if simulator ([simulate_life_expectancy_change]).

    Conventions of the embedding.
    - A finite float64 is a real number, and the value of an operation is
      its exact value: rounding to the nearest float64 is not modelled, so
      what is proved of a value holds of the program's value up to that
      rounding.  The two ends of the range are modelled where the program
      can reach them, in the product of the simulator ([float_mul]): a
      product too large is an infinity, a product too small is zero.  A
      [float64] adds the two infinities and NaN to the finite numbers.
    - An int64 is an integer of [Z]; the subtraction of the pipeline wraps
      around as numpy's does ([int64_wrap]).
    - A [DataFrame] is a record of columns.  The four columns that
      [load_data] produces are always there; a column that a later stage
      adds is an [option]: [None] while the table does not have it.
    - Python objects live in a heap and are named by references, so that
      [df.copy()] and [df["c"] = ...] keep their meaning: the first
      allocates, the second updates the object in place.
    - Exceptions are values of [exn]; a raising call leaves the heap as it
      was at the raise.
    - What numpy and scikit-learn compute by algorithms of their own (the
      Mersenne Twister, the least-squares solver, the R2 score, k-means,
      the default unstable sort) is the interface [Libraries].
    - Plotting and the saving of figures are left out. *)

From Stdlib Require Import Reals Lra Lia ZArith QArith Qround.
From Stdlib Require Import FunctionalExtensionality.
From stdpp Require Import base list strings sorting gmap.

(** * Part I: the program *)

(** ** Numbers, exceptions and results *)

(** A float64 value: a finite number, an infinity or NaN. *)
Inductive float64 : Type :=
  | Finite (r : R)
  | PosInf
  | NegInf
  | NaN.

#[global] Instance R_eq_dec : EqDecision R := Req_dec_T.
#[global] Instance Rle_decision : RelDecision Rle := Rle_dec.
#[global] Instance Rlt_decision : RelDecision Rlt := Rlt_dec.

(** [np.log] of a finite number: the logarithm above zero, minus infinity
    at zero and NaN below (numpy warns in the last two cases and goes
    on).  Above zero the value is the exact logarithm; numpy's is its
    rounding to a float64, so that two levels close to each other can
    have the same logarithm there. *)
Definition np_log (x : R) : float64 :=
  if decide (0 < x)%R then Finite (ln x)
  else if decide (x = 0%R) then NegInf
  else NaN.

(** *** The range of float64 *)

(** The least magnitude that rounds to an infinity, half a step above the
    largest float64, and the largest magnitude that rounds to zero, half
    the least positive float64. *)
Definition float64_overflow : R := IZR (2 ^ 1024 - 2 ^ 970).
Definition float64_underflow : R := (/ IZR (2 ^ 1075))%R.

(** The least positive normal float64. *)
Definition float64_min_normal : R := (/ IZR (2 ^ 1022))%R.

(** The float64 that an exact result becomes, its rounding inside the
    range aside. *)
Definition float64_round (x : R) : float64 :=
  if decide (float64_overflow <= x)%R then PosInf
  else if decide (x <= - float64_overflow)%R then NegInf
  else if decide (Rabs x <= float64_underflow)%R then Finite 0
  else Finite x.

(** [x * y] on two finite float64 values. *)
Definition float_mul (x y : R) : float64 := float64_round (x * y).

(** [np.log] of a float64. *)
Definition np_log_float (x : float64) : float64 :=
  match x with
  | Finite r => np_log r
  | PosInf => PosInf
  | NegInf | NaN => NaN
  end.

(** The exceptions that the pipeline can raise.  [ReferenceError] stands
    for a reference that names no object; no Python program reaches it. *)
Inductive exn : Type :=
  | KeyError
  | ValueError
  | IndexError
  | ReferenceError.


Definition result (A : Type) : Type := (exn + A)%type.

Definition raise {A} (e : exn) : result A := inl e.

#[global] Instance result_ret : MRet result := fun _ a => inr a.
#[global] Instance result_bind : MBind result := fun _ _ k m =>
  match m with
  | inl e => inl e
  | inr a => k a
  end.

(** [l[i]] for a Python list or a numpy array. *)
Definition item {A} (l : list A) (i : nat) : result A :=
  match l !! i with
  | Some a => mret a
  | None => raise IndexError
  end.

Fixpoint traverse {A B} (f : A -> result B) (l : list A) : result (list B) :=
  match l with
  | [] => mret []
  | a :: l' => b ← f a; bs ← traverse f l'; mret (b :: bs)
  end.

(** Positional selection of rows ([.iloc], [_safe_indexing]). *)
Definition iloc {A} (l : list A) (idx : list nat) : result (list A) :=
  traverse (item l) idx.

Definition to_float (z : Z) : float64 := Finite (IZR z).

Definition Rsum (l : list R) : R := foldr Rplus 0%R l.

Definition mean (l : list R) : R := (Rsum l / INR (length l))%R.

(** ** The linear model *)

(** A fitted [LinearRegression] on the features [gdp_log], [year_index]. *)
Record LinearRegression : Type := {
  coef_gdp_log : R;
  coef_year_index : R;
  intercept_ : R
}.

(** The input validation of scikit-learn ([check_array]): at least one
    sample, and no NaN and no infinity among the features. *)
Definition check_finite (row : float64 * float64) : result (R * R) :=
  match row with
  | (Finite a, Finite b) => mret (a, b)
  | _ => raise ValueError
  end.

Definition check_array (X : list (float64 * float64)) : result (list (R * R)) :=
  match X with
  | [] => raise ValueError
  | _ => traverse check_finite X
  end.

Definition decision_function (model : LinearRegression) (row : R * R) : R :=
  (row.1 * coef_gdp_log model + row.2 * coef_year_index model
   + intercept_ model)%R.

Definition predict (model : LinearRegression) (X : list (float64 * float64))
  : result (list R) :=
  X ← check_array X;
  mret (map (decision_function model) X).

(** ** Scenario simulator *)

Definition simulate_life_expectancy_change
    (gdp_current : R) (year_index : Z) (delta_gdp_pct : R)
    (model : LinearRegression) : result (R * R * R) :=
  let gdp_new := float_mul gdp_current (1 + delta_gdp_pct / 100) in
  let X_curr := [(np_log gdp_current, to_float year_index)] in
  let X_new := [(np_log_float gdp_new, to_float year_index)] in
  y_curr ← predict model X_curr ≫= (fun a => item a 0);
  y_new ← predict model X_new ≫= (fun a => item a 0);
  mret (y_curr, y_new, (y_new - y_curr)%R).

(** ** Tables, the heap and the state monad *)

Record DataFrame : Type := {
  Country : list string;
  Year : list Z;
  life_expectancy : list R;
  gdp : list R;
  gdp_log : option (list float64);
  year_index : option (list Z);
  risk_tier : option (list Z);
  pred : option (list R);
  residual : option (list R);
  cluster : option (list nat);
  cluster_label : option (list (option string))
}.

(** [df["c"] = v] for each of the derived columns. *)
Definition set_gdp_log (v : list float64) (d : DataFrame) : DataFrame :=
  {| Country := Country d; Year := Year d;
     life_expectancy := life_expectancy d; gdp := gdp d;
     gdp_log := Some v; year_index := year_index d;
     risk_tier := risk_tier d; pred := pred d; residual := residual d;
     cluster := cluster d; cluster_label := cluster_label d |}.

Definition set_year_index (v : list Z) (d : DataFrame) : DataFrame :=
  {| Country := Country d; Year := Year d;
     life_expectancy := life_expectancy d; gdp := gdp d;
     gdp_log := gdp_log d; year_index := Some v;
     risk_tier := risk_tier d; pred := pred d; residual := residual d;
     cluster := cluster d; cluster_label := cluster_label d |}.

Definition set_risk_tier (v : list Z) (d : DataFrame) : DataFrame :=
  {| Country := Country d; Year := Year d;
     life_expectancy := life_expectancy d; gdp := gdp d;
     gdp_log := gdp_log d; year_index := year_index d;
     risk_tier := Some v; pred := pred d; residual := residual d;
     cluster := cluster d; cluster_label := cluster_label d |}.

Definition set_pred (v : list R) (d : DataFrame) : DataFrame :=
  {| Country := Country d; Year := Year d;
     life_expectancy := life_expectancy d; gdp := gdp d;
     gdp_log := gdp_log d; year_index := year_index d;
     risk_tier := risk_tier d; pred := Some v; residual := residual d;
     cluster := cluster d; cluster_label := cluster_label d |}.

Definition set_residual (v : list R) (d : DataFrame) : DataFrame :=
  {| Country := Country d; Year := Year d;
     life_expectancy := life_expectancy d; gdp := gdp d;
     gdp_log := gdp_log d; year_index := year_index d;
     risk_tier := risk_tier d; pred := pred d; residual := Some v;
     cluster := cluster d; cluster_label := cluster_label d |}.

Definition set_cluster (v : list nat) (d : DataFrame) : DataFrame :=
  {| Country := Country d; Year := Year d;
     life_expectancy := life_expectancy d; gdp := gdp d;
     gdp_log := gdp_log d; year_index := year_index d;
     risk_tier := risk_tier d; pred := pred d; residual := residual d;
     cluster := Some v; cluster_label := cluster_label d |}.

Definition set_cluster_label (v : list (option string)) (d : DataFrame)
  : DataFrame :=
  {| Country := Country d; Year := Year d;
     life_expectancy := life_expectancy d; gdp := gdp d;
     gdp_log := gdp_log d; year_index := year_index d;
     risk_tier := risk_tier d; pred := pred d; residual := residual d;
     cluster := cluster d; cluster_label := Some v |}.

(** A column that [load_data] always provides, seen as one that may be
    missing. *)
Definition loaded {A} (col : DataFrame -> A) : DataFrame -> option A :=
  fun d => Some (col d).

(** The state of numpy's global generator (a Mersenne Twister). *)
Record mt19937 : Type := { mt_key : list Z; mt_pos : nat }.

(** What [print] writes. *)
Inductive printed : Type :=
  | Text (s : string)
  | Score (name : string) (v : float64)
  | Table (rows : list (string * R)).

Definition ref : Type := nat.

Record world : Type := {
  heap : list DataFrame;
  np_random : mt19937;
  stdout : list printed
}.

Definition with_heap (h : list DataFrame) (w : world) : world :=
  {| heap := h; np_random := np_random w; stdout := stdout w |}.

Definition with_np_random (g : mt19937) (w : world) : world :=
  {| heap := heap w; np_random := g; stdout := stdout w |}.

Definition with_stdout (o : list printed) (w : world) : world :=
  {| heap := heap w; np_random := np_random w; stdout := o |}.

Definition M (A : Type) : Type := world -> result A * world.

#[global] Instance M_ret : MRet M := fun _ a w => (inr a, w).
#[global] Instance M_bind : MBind M := fun _ _ k m w =>
  match m w with
  | (inr a, w') => k a w'
  | (inl e, w') => (inl e, w')
  end.

Definition lift {A} (r : result A) : M A := fun w => (r, w).

(** [df.copy()]: a new object with the same columns. *)
Definition DataFrame_copy (df : ref) : M ref := fun w =>
  match heap w !! df with
  | Some d => (inr (length (heap w)), with_heap (heap w ++ [d]) w)
  | None => (inl ReferenceError, w)
  end.

(** [df["c"]], a [KeyError] when the table has no such column. *)
Definition getitem {A} (df : ref) (col : DataFrame -> option A) : M A :=
  fun w =>
  match heap w !! df with
  | Some d =>
      match col d with
      | Some v => (inr v, w)
      | None => (inl KeyError, w)
      end
  | None => (inl ReferenceError, w)
  end.

(** [df["c"] = v]: the object that [df] names is updated in place. *)
Definition setitem (df : ref) (assign : DataFrame -> DataFrame) : M unit :=
  fun w =>
  match heap w !! df with
  | Some d => (inr (), with_heap (<[df := assign d]> (heap w)) w)
  | None => (inl ReferenceError, w)
  end.

Definition print (p : printed) : M unit := fun w =>
  (inr (), with_stdout (stdout w ++ [p]) w).

(** ** Feature engineering *)

Definition np_sort (l : list R) : list R := merge_sort Rle l.

(** [Series.quantile] at [k/q] with linear interpolation: the virtual
    index is [(n-1)*k/q]; the value lies between the two sorted entries
    around it.  It is the exact interpolation; pandas' is its rounding
    to a float64, which lies between the same two entries. *)
Definition Series_quantile (x : list R) (k q : nat) : R :=
  let s := np_sort x in
  let n := length s in
  let i := ((n - 1) * k / q)%nat in
  let gamma := (INR (((n - 1) * k) mod q) / INR q)%R in
  let lo := nth i s 0%R in
  let hi := nth (Nat.min (i + 1) (n - 1)) s 0%R in
  (lo + (hi - lo) * gamma)%R.

(** [bins.searchsorted(v, side="left")]: how many edges lie strictly
    below [v]. *)
Fixpoint searchsorted_left (bins : list R) (v : R) : nat :=
  match bins with
  | [] => 0
  | b :: bins' =>
      if decide (b < v)%R then S (searchsorted_left bins' v) else 0
  end.

(** pandas' [_bins_to_cuts] with [right=True], [include_lowest=True] and
    [duplicates="raise"]: intervals are closed on the right, the lowest
    edge belongs to the first interval, and a value outside all intervals
    gets no label. *)
Definition bin_id (bins : list R) (v : R) : nat :=
  if decide (head bins = Some v) then 1 else searchsorted_left bins v.

Definition bins_to_cuts (x : list R) (bins : list R) (labels : list Z)
  : result (list (option Z)) :=
  if decide (NoDup bins \/ length bins = 2) then
    if decide (length labels = length bins - 1) then
      mret (map (fun v =>
                   let id := bin_id bins v in
                   if decide (id = 0 \/ id = length bins) then None
                   else labels !! (id - 1)) x)
    else raise ValueError
  else raise ValueError.

(** [pd.qcut(x, q, labels=labels)].  The quantiles of an empty column are
    all NaN, which pandas reports as duplicate edges. *)
Definition qcut (x : list R) (q : nat) (labels : list Z)
  : result (list (option Z)) :=
  match x with
  | [] => raise ValueError
  | _ =>
      let bins := map (fun k => Series_quantile x k q) (seq 0 (q + 1)) in
      bins_to_cuts x bins labels
  end.

(** [.astype(int)] on the categorical: a missing label cannot become an
    integer. *)
Definition astype_int (c : list (option Z)) : result (list Z) :=
  traverse (fun o => match o with
                     | Some z => mret z
                     | None => raise ValueError
                     end) c.

(** [Series.min()], NaN ([None]) on an empty column. *)
Definition Series_min (l : list Z) : option Z :=
  match l with
  | [] => None
  | y :: l' => Some (foldl Z.min y l')
  end.

(** The int64 that an integer result becomes: numpy wraps around, without
    a warning. *)
Definition int64_wrap (z : Z) : Z := ((z + 2 ^ 63) mod 2 ^ 64 - 2 ^ 63)%Z.

(** [df["Year"] - df["Year"].min()] on an int64 column; the minimum is
    missing only when the column is empty, and so is the difference
    then. *)
Definition sub_scalar (l : list Z) (m : option Z) : list Z :=
  match m with
  | Some m => map (fun y => int64_wrap (y - m)) l
  | None => []
  end.

Definition engineer_features (df : ref) : M ref :=
  df ← DataFrame_copy df;
  gdp_col ← getitem df (loaded gdp);
  setitem df (set_gdp_log (map np_log gdp_col));;
  year ← getitem df (loaded Year);
  setitem df (set_year_index (sub_scalar year (Series_min year)));;
  outcome ← getitem df (loaded life_expectancy);
  tiers ← lift (qcut outcome 4 [1; 2; 3; 4]%Z ≫= astype_int);
  setitem df (set_risk_tier tiers);;
  mret df.

(** ** The numerical libraries *)

(** The algorithms of numpy and scikit-learn that the pipeline calls and
    that are not part of it. *)
Class Libraries : Type := {
  (** [np.random.RandomState(seed)] *)
  RandomState_seed : Z -> mt19937;
  (** [rng.permutation(n)], with the state of the generator afterwards *)
  RandomState_permutation : mt19937 -> nat -> list nat * mt19937;
  (** the least-squares solution for validated samples and targets *)
  LinearRegression_lstsq : list (R * R) -> list R -> LinearRegression;
  (** [r2_score(y_true, y_pred)] *)
  r2_score : list R -> list R -> float64;
  (** [KMeans(n_clusters, random_state, n_init).fit_predict(X)] *)
  KMeans_fit_predict : nat -> Z -> nat -> list (R * R) -> list nat;
  (** [values.argsort(kind="quicksort")] *)
  np_argsort : list R -> list nat
}.

(** What numpy promises of [argsort]: the positions of the input, in an
    order that makes the values ascend.  The default kind is not stable,
    so nothing is promised about the order of equal values. *)
Definition argsort_contract `{Libraries} : Prop :=
  forall l : list R,
    np_argsort l ≡ₚ seq 0 (length l) /\
    StronglySorted Rle (omap (fun i => l !! i) (np_argsort l)).

(** ** Grouping and sorting of a Series *)

(** The values of the rows whose key is [k]. *)
Definition group_values {K} `{EqDecision K} (k : K) (keys : list K)
    (vals : list R) : list R :=
  (filter (fun kv => kv.1 = k) (zip keys vals)).*2.

(** [df.groupby(key)[col].mean()]: one row per key, keys ascending. *)
Definition groupby_mean {K} `{EqDecision K} (le : relation K)
    `{!RelDecision le} (keys : list K) (vals : list R) : list (K * R) :=
  map (fun k => (k, mean (group_values k keys vals)))
      (merge_sort le (remove_dups keys)).

(** [Series.sort_values()]: ascending, by the default sorting kind. *)
Definition sort_values `{Libraries} {K} (s : list (K * R)) : list (K * R) :=
  omap (fun i => s !! i) (np_argsort s.*2).

(** The order of Python strings. *)
Definition str_le (a b : string) : Prop := String.leb a b = true.

#[global] Instance str_le_dec : RelDecision str_le.
Proof. intros a b. unfold str_le. apply _. Defined.

(** [dict(pairs)]: a later pair overrides an earlier one with its key. *)
Definition dict {K V} `{Countable K} (pairs : list (K * V)) : gmap K V :=
  list_to_map (reverse pairs).

(** ** Outcome regression and gap ranking *)

Definition check_random_state `{Libraries} (random_state : option Z)
  : M mt19937 :=
  match random_state with
  | Some seed => mret (RandomState_seed seed)
  | None => fun w => (inr (np_random w), w)
  end.

(** [rng.permutation(n)] on the generator that [random_state] selects: a
    generator of its own for a seed, numpy's global one otherwise, which
    the call advances. *)
Definition shuffled_indices `{Libraries} (random_state : option Z) (n : nat)
  : M (list nat) :=
  rng ← check_random_state random_state;
  let '(permutation, rng') := RandomState_permutation rng n in
  match random_state with
  | Some _ => mret permutation
  | None => fun w => (inr permutation, with_np_random rng' w)
  end.

Definition train_test_split `{Libraries} {A B} (X : list A) (y : list B)
    (test_size : Q) (random_state : option Z)
  : M (list A * list A * list B * list B) :=
  if decide (length X = length y) then
    let n_samples := length X in
    let n_test :=
      Z.to_nat (Qceiling (test_size * inject_Z (Z.of_nat n_samples))) in
    let n_train := n_samples - n_test in
    if decide (n_train = 0) then lift (raise ValueError)
    else
      permutation ← shuffled_indices random_state n_samples;
      let ind_test := take n_test permutation in
      let ind_train := take n_train (drop n_test permutation) in
      X_train ← lift (iloc X ind_train);
      X_test ← lift (iloc X ind_test);
      y_train ← lift (iloc y ind_train);
      y_test ← lift (iloc y ind_test);
      mret (X_train, X_test, y_train, y_test)
  else lift (raise ValueError).

Definition LinearRegression_fit `{Libraries} (X : list (float64 * float64))
    (y : list R) : result LinearRegression :=
  X ← check_array X;
  mret (LinearRegression_lstsq X y).

Definition score `{Libraries} (model : LinearRegression)
    (X : list (float64 * float64)) (y : list R) : result float64 :=
  y_pred ← predict model X;
  mret (r2_score y y_pred).

Definition fit_outcome_regression `{Libraries} (df : ref)
  : M LinearRegression :=
  gl ← getitem df gdp_log;
  yi ← getitem df year_index;
  let X := zip gl (map to_float yi) in
  y ← getitem df (loaded life_expectancy);
  split ← train_test_split X y 0.2%Q (Some 42%Z);
  let '(X_train, X_test, y_train, y_test) := split in
  model ← lift (LinearRegression_fit X_train y_train);
  print (Text "--- Outcome Regression Diagnostics ---");;
  r2_train ← lift (score model X_train y_train);
  print (Score "R2 (train)" r2_train);;
  r2_test ← lift (score model X_test y_test);
  print (Score "R2 (test)" r2_test);;
  (* Residuals *)
  p ← lift (predict model X);
  setitem df (set_pred p);;
  outcome ← getitem df (loaded life_expectancy);
  p ← getitem df pred;
  setitem df (set_residual (zip_with Rminus outcome p));;
  country ← getitem df (loaded Country);
  r ← getitem df residual;
  let underperformers :=
    take 10 (sort_values (groupby_mean str_le country r)) in
  print (Text "Underperforming Countries:");;
  print (Table underperformers);;
  mret model.

(** ** Segmentation *)

(** [StandardScaler] takes NaN for a missing value: it refuses an empty
    table and infinities only, leaves NaN out of the statistics and keeps
    it in the output. *)
Definition check_no_infinity (row : float64 * float64)
  : result (float64 * float64) :=
  match row with
  | (PosInf, _) | (NegInf, _) | (_, PosInf) | (_, NegInf) => raise ValueError
  | _ => mret row
  end.

Definition present (col : list float64) : list R :=
  omap (fun x => match x with Finite r => Some r | _ => None end) col.

(** One column of [StandardScaler().fit_transform]: centred, and divided by
    the population standard deviation unless that is zero. *)
Definition standardize (col : list float64) : list float64 :=
  let mu := mean (present col) in
  let var := mean (map (fun v => ((v - mu) ^ 2)%R) (present col)) in
  let scale := if decide (var = 0%R) then 1%R else sqrt var in
  map (fun x => match x with
                | Finite v => Finite ((v - mu) / scale)
                | _ => x
                end) col.

Definition StandardScaler_fit_transform (X : list (float64 * float64))
  : result (list (float64 * float64)) :=
  match X with
  | [] => raise ValueError
  | _ =>
      X ← traverse check_no_infinity X;
      mret (zip (standardize X.*1) (standardize X.*2))
  end.

(** [KMeans(...).fit_predict(X)]; scikit-learn validates the input and
    refuses fewer samples than clusters. *)
Definition KMeans `{Libraries} (n_clusters : nat) (random_state : Z)
    (n_init : nat) (X : list (float64 * float64)) : result (list nat) :=
  X ← check_array X;
  if decide (length X < n_clusters) then raise ValueError
  else mret (KMeans_fit_predict n_clusters random_state n_init X).

Definition risk_labels : list string :=
  ["High Risk"; "Elevated Risk"; "Moderate Risk"; "Low Risk"].

Definition cluster_populations `{Libraries} (df : ref) : M ref :=
  df ← DataFrame_copy df;
  outcome ← getitem df (loaded life_expectancy);
  gl ← getitem df gdp_log;
  scaled ← lift (StandardScaler_fit_transform (zip (map Finite outcome) gl));
  c ← lift (KMeans 4 42%Z 10 scaled);
  setitem df (set_cluster c);;
  (* Label clusters based on average life expectancy *)
  c ← getitem df cluster;
  outcome ← getitem df (loaded life_expectancy);
  let profile := sort_values (groupby_mean Nat.le c outcome) in
  let label_map := dict (zip profile.*1 risk_labels) in
  c ← getitem df cluster;
  setitem df (set_cluster_label (map (fun k => label_map !! k) c));;
  mret df.

(** ** The value of a regression run *)

(** [train_test_split] with a seed: the generator is the call's own, so
    the split is a function of the arguments. *)
Definition seeded_split `{Libraries} {A B} (X : list A) (y : list B)
    (test_size : Q) (seed : Z) : result (list A * list A * list B * list B) :=
  if decide (length X = length y) then
    let n_samples := length X in
    let n_test :=
      Z.to_nat (Qceiling (test_size * inject_Z (Z.of_nat n_samples))) in
    let n_train := n_samples - n_test in
    if decide (n_train = 0) then raise ValueError
    else
      let permutation :=
        (RandomState_permutation (RandomState_seed seed) n_samples).1 in
      let ind_test := take n_test permutation in
      let ind_train := take n_train (drop n_test permutation) in
      X_train ← iloc X ind_train;
      X_test ← iloc X ind_test;
      y_train ← iloc y ind_train;
      y_test ← iloc y ind_test;
      mret (X_train, X_test, y_train, y_test)
  else raise ValueError.

(** What [fit_outcome_regression] returns or raises on a table, as a
    function of the table. *)
Definition regression_value `{Libraries} (d : DataFrame)
  : result LinearRegression :=
  match gdp_log d with
  | None => raise KeyError
  | Some gl =>
      match year_index d with
      | None => raise KeyError
      | Some yi =>
          let X := zip gl (map to_float yi) in
          split ← seeded_split X (life_expectancy d) 0.2%Q 42%Z;
          let '(X_train, X_test, y_train, y_test) := split in
          model ← LinearRegression_fit X_train y_train;
          _ ← score model X_train y_train;
          _ ← score model X_test y_test;
          _ ← predict model X;
          mret model
      end
  end.

(** A Series in ascending order of its values. *)
Definition by_value {K} : relation (K * R) := fun a b => (a.2 <= b.2)%R.

(** ** Polynomials and inputs used in the examples *)



Definition new_world : world :=
  {| heap := []; np_random := {| mt_key := []; mt_pos := 0 |}; stdout := [] |}.

(** A table as [load_data] returns it. *)
Definition raw_table (country : list string) (year : list Z)
    (outcome economic : list R) : DataFrame :=
  {| Country := country; Year := year;
     life_expectancy := outcome; gdp := economic;
     gdp_log := None; year_index := None; risk_tier := None;
     pred := None; residual := None; cluster := None;
     cluster_label := None |}.

(** Four rows, one of them with a zero and one with a negative economic
    level. *)
Definition four_rows : DataFrame :=
  raw_table ["Chile"; "Chile"; "Zimbabwe"; "Zimbabwe"]
            [2000; 2001; 2000; 2001]%Z
            [60; 70; 80; 90]%R
            [0; -5; 100; 200]%R.

(** Six rows with five distinct outcomes, two of them equal to the first
    quartile edge. *)
Definition six_rows : DataFrame :=
  raw_table ["Chile"; "Chile"; "Chile"; "Zimbabwe"; "Zimbabwe"; "Zimbabwe"]
            [2000; 2001; 2002; 2000; 2001; 2002]%Z
            [60; 70; 70; 75; 80; 85]%R
            [100; 200; 300; 400; 500; 600]%R.

(** What the Feature Engineer makes of them. *)
Definition four_rows_engineered : DataFrame :=
  set_risk_tier [1; 2; 3; 4]%Z
    (set_year_index [0; 1; 0; 1]%Z
       (set_gdp_log [NegInf; NaN; Finite (ln 100); Finite (ln 200)]
          four_rows)).

Definition six_rows_engineered : DataFrame :=
  set_risk_tier [1; 1; 1; 3; 4; 4]%Z
    (set_year_index [0; 1; 2; 0; 1; 2]%Z
       (set_gdp_log (map (fun g => Finite (ln g))
                         [100; 200; 300; 400; 500; 600]%R)
          six_rows)).

(** An instance of [Libraries] with the simplest algorithms of the right
    types: the identity for the shuffle, the constant model at the mean of
    the targets for least squares, round-robin for k-means, and a stable
    merge sort for [argsort].  It serves to run the pipeline on the tables
    above; the properties below hold for every instance. *)
Definition plain_argsort (l : list R) : list nat :=
  (merge_sort (fun a b : R * nat => (a.1 <= b.1)%R)
              (zip l (seq 0 (length l)))).*2.

Definition plain_libraries : Libraries := {|
  RandomState_seed := fun seed => {| mt_key := [seed]; mt_pos := 0 |};
  RandomState_permutation := fun rng n =>
    (seq 0 n, {| mt_key := mt_key rng; mt_pos := mt_pos rng + n |});
  LinearRegression_lstsq := fun X y =>
    {| coef_gdp_log := 0; coef_year_index := 0; intercept_ := mean y |};
  r2_score := fun y_true y_pred => Finite 0;
  KMeans_fit_predict := fun n_clusters random_state n_init X =>
    map (fun i => i mod n_clusters) (seq 0 (length X));
  np_argsort := plain_argsort
|}.

(** The model that [plain_libraries] fits on [six_rows_engineered]: the
    first two rows are held out. *)
Definition six_rows_model : LinearRegression :=
  {| coef_gdp_log := 0; coef_year_index := 0;
     intercept_ := mean [70; 75; 80; 85]%R |}.

Definition six_rows_world : world :=
  with_heap [six_rows_engineered] new_world.

(** Another world that holds the same table: under another reference,
    with another state of the global generator and other output. *)
Definition six_rows_other_world : world :=
  {| heap := [four_rows; six_rows_engineered];
     np_random := {| mt_key := [7%Z]; mt_pos := 3 |};
     stdout := [Text "earlier output"] |}.

(** ** Descriptive summary *)

(** Subtraction of float64 values. *)
Definition float_sub (a b : float64) : float64 :=
  match a, b with
  | NaN, _ | _, NaN => NaN
  | Finite x, Finite y => Finite (x - y)
  | PosInf, PosInf | NegInf, NegInf => NaN
  | PosInf, _ | _, NegInf => PosInf
  | NegInf, _ | _, PosInf => NegInf
  end.

(** [Series.max()], [Series.min()] and [Series.mean()] of a float column,
    NaN on an empty one. *)
Definition Series_max_float (x : list R) : float64 :=
  match x with
  | [] => NaN
  | v :: x' => Finite (foldl Rmax v x')
  end.

Definition Series_min_float (x : list R) : float64 :=
  match x with
  | [] => NaN
  | v :: x' => Finite (foldl Rmin v x')
  end.

Definition Series_mean (x : list R) : float64 :=
  match x with
  | [] => NaN
  | _ => Finite (mean x)
  end.

(** [Series.std()]: the sample standard deviation, NaN below two rows. *)
Definition Series_std (x : list R) : float64 :=
  match x with
  | [] | [_] => NaN
  | _ =>
      Finite (sqrt (Rsum (map (fun v => ((v - mean x) ^ 2)%R) x)
                    / INR (length x - 1)))
  end.

Definition Series_quantile_float (x : list R) (k q : nat) : float64 :=
  match x with
  | [] => NaN
  | _ => Finite (Series_quantile x k q)
  end.

(** [Series.describe()] of a float column. *)
Definition Series_describe (x : list R) : list (string * float64) :=
  [("count", Finite (INR (length x)));
   ("mean", Series_mean x);
   ("std", Series_std x);
   ("min", Series_min_float x);
   ("25%", Series_quantile_float x 1 4);
   ("50%", Series_quantile_float x 2 4);
   ("75%", Series_quantile_float x 3 4);
   ("max", Series_max_float x)].

(** The cells of [df[[a, b]].describe()] as [print] writes them: row by
    row, each cell under the name of its column and its statistic. *)
Definition describe_cells (a : string) (x : list R) (b : string) (y : list R)
  : list printed :=
  flat_map (fun '((stat, u), (_, v)) =>
              [Score (a +:+ " " +:+ stat) u; Score (b +:+ " " +:+ stat) v])
           (zip (Series_describe x) (Series_describe y)).

Definition print_all (ps : list printed) : M unit := fun w =>
  (inr (), with_stdout (stdout w ++ ps) w).

Definition describe_population (df : ref) : M unit :=
  print (Text "--- Population Summary ---");;
  outcome ← getitem df (loaded life_expectancy);
  economic ← getitem df (loaded gdp);
  print_all (describe_cells "life_expectancy" outcome "gdp" economic);;
  outcome ← getitem df (loaded life_expectancy);
  let gap := float_sub (Series_max_float outcome) (Series_min_float outcome) in
  print (Score "Life expectancy gap" gap).

(** ** The driver *)

(** What numpy promises of [permutation]: the numbers below [n], each
    once. *)
Definition permutation_contract `{Libraries} : Prop :=
  forall rng n, (RandomState_permutation rng n).1 ≡ₚ seq 0 n.

(** [main] from the table that [load_data] has read, without the
    figures. *)
Definition main `{Libraries} (df : ref) : M unit :=
  df ← engineer_features df;
  describe_population df;;
  model ← fit_outcome_regression df;
  df_clusters ← cluster_populations df;
  (* Example scenario *)
  economic ← getitem df_clusters (loaded gdp);
  gdp0 ← lift (item economic 0);
  yi ← getitem df_clusters year_index;
  yi0 ← lift (item yi 0);
  scenario ← lift (simulate_life_expectancy_change gdp0 yi0 10 model);
  let '(y_curr, y_new, dy) := scenario in
  print (Text "--- Scenario Simulation (10% GDP Increase) ---");;
  print (Score "Baseline" (Finite y_curr));;
  print (Score "After Intervention" (Finite y_new));;
  print (Score "Change in Life Expectancy" (Finite dy)).


(** A table of one row. *)
Definition one_row : DataFrame :=
  raw_table ["Chile"] [2000]%Z [70]%R [100]%R.

(** ** Tables as pandas keeps them *)

(** The columns of a pandas table have one length, the number of its
    rows. *)
Definition column_of_length {A} (n : nat) (col : option (list A)) : Prop :=
  match col with
  | Some c => length c = n
  | None => True
  end.

Definition aligned (d : DataFrame) : Prop :=
  let n := length (Country d) in
  length (Year d) = n /\ length (life_expectancy d) = n /\
  length (gdp d) = n /\
  column_of_length n (gdp_log d) /\ column_of_length n (year_index d) /\
  column_of_length n (risk_tier d) /\ column_of_length n (pred d) /\
  column_of_length n (residual d) /\ column_of_length n (cluster d) /\
  column_of_length n (cluster_label d).

Definition is_finite (x : float64) : Prop :=
  match x with
  | Finite _ => True
  | _ => False
  end.

(** What scikit-learn promises of [fit_predict]: one cluster index per
    sample, each below the number of clusters. *)
Definition kmeans_contract `{Libraries} : Prop :=
  forall n_clusters random_state n_init X,
    0 < n_clusters <= length X ->
    let c := KMeans_fit_predict n_clusters random_state n_init X in
    length c = length X /\ Forall (fun k => k < n_clusters) c.

(** The validated features [x] of row [i] of a table. *)
Definition features_at (d : DataFrame) (i : nat) (x : R * R) : Prop :=
  exists gl yi t,
    gdp_log d = Some gl /\ year_index d = Some yi /\
    gl !! i = Some (Finite x.1) /\ yi !! i = Some t /\ x.2 = IZR t.

(** ** The global trend *)

(** The points of the third figure of [plot_descriptive_figures]:
    [df.groupby("Year")["life_expectancy"].mean().reset_index()]. *)
Definition trend (d : DataFrame) : list (Z * R) :=
  groupby_mean Z.le (Year d) (life_expectancy d).

(** ** numpy's quicksort *)

(** [values.argsort(kind="quicksort")] as numpy's scalar loop computes
    it ([npy_aquicksort], npysort/quicksort.cpp): an introsort on the
    array [tosort] of positions.  A segment of more than 17 positions is
    partitioned around the median of its first, middle and last key; a
    shorter one is sorted by insertion; a segment taken from the stack
    after [2 * floor(log2 n)] partitions is sorted by heapsort.  [less i
    j] compares the keys at the positions [i] and [j]; [pl], [pr], [pi],
    [pj] and [pm] are indices into [tosort].  The loops run on fuel, of
    which the length of the array is enough. *)
Section Aquicksort.
Variable less : nat -> nat -> bool.

Definition SMALL_QUICKSORT : nat := 16.

Definition INTP_SWAP (tosort : list nat) (i j : nat) : list nat :=
  <[j := nth i tosort 0]> (<[i := nth j tosort 0]> tosort).

(** [do ++pi; while (less(v[*pi], vp))] *)
Fixpoint scan_up (fuel : nat) (tosort : list nat) (vp pi : nat) : nat :=
  match fuel with
  | 0 => S pi
  | S fuel =>
      if less (nth (S pi) tosort 0) vp then scan_up fuel tosort vp (S pi)
      else S pi
  end.

(** [do --pj; while (less(vp, v[*pj]))] *)
Fixpoint scan_down (fuel : nat) (tosort : list nat) (vp pj : nat) : nat :=
  match fuel with
  | 0 => pj - 1
  | S fuel =>
      if less vp (nth (pj - 1) tosort 0) then scan_down fuel tosort vp (pj - 1)
      else pj - 1
  end.

(** The partition loop: the two scans, and a swap until they meet. *)
Fixpoint partition_loop (fuel : nat) (tosort : list nat) (vp pi pj : nat)
  : list nat * nat :=
  match fuel with
  | 0 => (tosort, pi)
  | S fuel =>
      let pi := scan_up (length tosort) tosort vp pi in
      let pj := scan_down (length tosort) tosort vp pj in
      if decide (pj <= pi) then (tosort, pi)
      else partition_loop fuel (INTP_SWAP tosort pi pj) vp pi pj
  end.

(** The inner loop of the insertion sort: the positions above [pl] whose
    key is greater than that of [vi] move up by one. *)
Fixpoint insert_down (fuel : nat) (tosort : list nat) (pl vi pj : nat)
  : list nat :=
  match fuel with
  | 0 => <[pj := vi]> tosort
  | S fuel =>
      if bool_decide (pl < pj) && less vi (nth (pj - 1) tosort 0)
      then insert_down fuel (<[pj := nth (pj - 1) tosort 0]> tosort)
                       pl vi (pj - 1)
      else <[pj := vi]> tosort
  end.

Definition insertion_sort (tosort : list nat) (pl pr : nat) : list nat :=
  foldl (fun a pi => insert_down (length a) a pl (nth pi a 0) pi)
        tosort (seq (pl + 1) (pr - pl)).

(** [aheapsort_] on the [n] positions from [pl] on; the heap is indexed
    from 1, so its entry [k] is [tosort[pl + k - 1]]. *)
Fixpoint sift_down (fuel : nat) (tosort : list nat) (pl n tmp i j : nat)
  : list nat :=
  match fuel with
  | 0 => <[pl + i - 1 := tmp]> tosort
  | S fuel =>
      if decide (j <= n) then
        let j :=
          if bool_decide (j < n)
             && less (nth (pl + j - 1) tosort 0) (nth (pl + j) tosort 0)
          then j + 1 else j in
        if less tmp (nth (pl + j - 1) tosort 0) then
          sift_down fuel (<[pl + i - 1 := nth (pl + j - 1) tosort 0]> tosort)
                    pl n tmp j (j + j)
        else <[pl + i - 1 := tmp]> tosort
      else <[pl + i - 1 := tmp]> tosort
  end.

Definition aheapsort (tosort : list nat) (pl n : nat) : list nat :=
  let heap :=
    foldl (fun a l => sift_down n a pl n (nth (pl + l - 1) a 0) l (2 * l))
          tosort (reverse (seq 1 (n / 2))) in
  foldl (fun a n' =>
           let tmp := nth (pl + n' - 1) a 0 in
           let a := <[pl + n' - 1 := nth pl a 0]> a in
           sift_down n a pl (n' - 1) tmp 1 2)
        heap (reverse (seq 2 (n - 1))).

(** The loop on the segment from [pl] to [pr]: it goes on with the
    smaller part and leaves the larger one on the stack, from where it
    is taken afterwards, with the depth that was left then. *)
Fixpoint aquicksort_loop (fuel : nat) (tosort : list nat) (pl pr : nat)
    (cdepth : Z) : list nat :=
  match fuel with
  | 0 => tosort
  | S fuel =>
      if decide (SMALL_QUICKSORT < pr - pl) then
        let pm := pl + (pr - pl) / 2 in
        let tosort :=
          if less (nth pm tosort 0) (nth pl tosort 0)
          then INTP_SWAP tosort pm pl else tosort in
        let tosort :=
          if less (nth pr tosort 0) (nth pm tosort 0)
          then INTP_SWAP tosort pr pm else tosort in
        let tosort :=
          if less (nth pm tosort 0) (nth pl tosort 0)
          then INTP_SWAP tosort pm pl else tosort in
        let vp := nth pm tosort 0 in
        let tosort := INTP_SWAP tosort pm (pr - 1) in
        let '(tosort, pi) :=
          partition_loop (length tosort) tosort vp pl (pr - 1) in
        let tosort := INTP_SWAP tosort pi (pr - 1) in
        let cdepth := (cdepth - 1)%Z in
        let from_stack tosort pl pr :=
          if decide (cdepth < 0)%Z then aheapsort tosort pl (pr - pl + 1)
          else aquicksort_loop fuel tosort pl pr cdepth in
        if decide (pi - pl < pr - pi) then
          from_stack (aquicksort_loop fuel tosort pl (pi - 1) cdepth)
                     (pi + 1) pr
        else
          from_stack (aquicksort_loop fuel tosort (pi + 1) pr cdepth)
                     pl (pi - 1)
      else insertion_sort tosort pl pr
  end.

Definition aquicksort (num : nat) : list nat :=
  aquicksort_loop num (seq 0 num) 0 (num - 1)
                  (2 * Z.of_nat (Nat.log2 num)).

End Aquicksort.

(** The comparison of two float64 keys that are not NaN. *)
Definition DOUBLE_LT (v : list R) (i j : nat) : bool :=
  match v !! i, v !! j with
  | Some x, Some y => bool_decide (x < y)%R
  | _, _ => false
  end.

Definition numpy_argsort (v : list R) : list nat :=
  aquicksort (DOUBLE_LT v) (length v).

(** The libraries of the examples, with this quicksort for [argsort]. *)
Definition numpy_libraries : Libraries := {|
  RandomState_seed := @RandomState_seed plain_libraries;
  RandomState_permutation := @RandomState_permutation plain_libraries;
  LinearRegression_lstsq := @LinearRegression_lstsq plain_libraries;
  r2_score := @r2_score plain_libraries;
  KMeans_fit_predict := @KMeans_fit_predict plain_libraries;
  np_argsort := numpy_argsort
|}.

(** Eighteen entities with the same four observations each: outcomes 60,
    70, 80 and 90 at the economic level 100 in the year 2000.  The rows
    come by outcome, and by entity within an outcome. *)
Definition tied_names : list string :=
  ["A"; "B"; "C"; "D"; "E"; "F"; "G"; "H"; "I";
   "J"; "K"; "L"; "M"; "N"; "O"; "P"; "Q"; "R"].

Definition tied_rows : DataFrame :=
  raw_table (tied_names ++ tied_names ++ tied_names ++ tied_names)
            (replicate 72 2000%Z)
            (replicate 18 60 ++ replicate 18 70
             ++ replicate 18 80 ++ replicate 18 90)%R
            (replicate 72 100%R).

(** What the Feature Engineer makes of them. *)
Definition tied_rows_engineered : DataFrame :=
  set_risk_tier (replicate 18 1 ++ replicate 18 2
                 ++ replicate 18 3 ++ replicate 18 4)%Z
    (set_year_index (replicate 72 0%Z)
       (set_gdp_log (replicate 72 (Finite (ln 100))) tied_rows)).

Definition tied_rows_world : world :=
  with_heap [tied_rows; tied_rows_engineered] new_world.
(** * Part II: properties *)

(** ** Real-number facts used for the numeric examples *)

Module Numeric.
Local Open Scope R_scope.














End Numeric.


(** ** Running the state monad *)

Section Monad.
Context {A B : Type}.

Lemma bind_ok (m : M A) (k : A -> M B) w a w' :
  m w = (inr a, w') -> (m ≫= k) w = k a w'.
Proof. intros E. unfold mbind, M_bind. by rewrite E. Qed.

Lemma bind_raise (m : M A) (k : A -> M B) w e w' :
  m w = (inl e, w') -> (m ≫= k) w = (inl e, w').
Proof. intros E. unfold mbind, M_bind. by rewrite E. Qed.

End Monad.

Lemma snoc_lookup_last {T} (h : list T) (d : T) :
  (h ++ [d]) !! length h = Some d.
Proof. by rewrite lookup_app_r, Nat.sub_diag by lia. Qed.

Lemma snoc_insert_last {T} (h : list T) (d d' : T) :
  <[length h := d']> (h ++ [d]) = h ++ [d'].
Proof.
  rewrite insert_app_r_alt by lia. by rewrite Nat.sub_diag.
Qed.

Lemma DataFrame_copy_run w df d :
  heap w !! df = Some d ->
  DataFrame_copy df w = (inr (length (heap w)), with_heap (heap w ++ [d]) w).
Proof. intros E. unfold DataFrame_copy. by rewrite E. Qed.

Lemma getitem_run {T} w df d (col : DataFrame -> option T) v :
  heap w !! df = Some d -> col d = Some v -> getitem df col w = (inr v, w).
Proof. intros E Ev. unfold getitem. by rewrite E, Ev. Qed.

Lemma getitem_missing {T} w df d (col : DataFrame -> option T) :
  heap w !! df = Some d -> col d = None -> getitem df col w = (inl KeyError, w).
Proof. intros E Ev. unfold getitem. by rewrite E, Ev. Qed.

Lemma setitem_run w df d assign :
  heap w !! df = Some d ->
  setitem df assign w = (inr (), with_heap (<[df := assign d]> (heap w)) w).
Proof. intros E. unfold setitem. by rewrite E. Qed.

(** The object allocated last, read and updated. *)
Lemma getitem_last {T} w h d (col : DataFrame -> option T) v :
  heap w = h ++ [d] -> col d = Some v ->
  getitem (length h) col w = (inr v, w).
Proof.
  intros E Ev. apply getitem_run with d; [|done].
  rewrite E. apply snoc_lookup_last.
Qed.

Lemma setitem_last w h d assign :
  heap w = h ++ [d] ->
  setitem (length h) assign w = (inr (), with_heap (h ++ [assign d]) w).
Proof.
  intros E. erewrite setitem_run by (rewrite E; apply snoc_lookup_last).
  by rewrite E, snoc_insert_last.
Qed.

(** ** The range of float64 *)

Section Float64.
Local Open Scope R_scope.

Lemma float64_underflow_pos : 0 < float64_underflow.
Proof. apply Rinv_0_lt_compat, (IZR_lt 0). reflexivity. Qed.

(** The least normal number is [2^53] times the largest magnitude that
    rounds to zero. *)
Lemma float64_min_normal_underflow :
  float64_min_normal = 9007199254740992 * float64_underflow.
Proof.
  unfold float64_min_normal, float64_underflow.
  assert (IZR (2 ^ 1075) = IZR (2 ^ 1022) * 9007199254740992) as ->.
  { rewrite <- mult_IZR. f_equal. }
  assert (0 < IZR (2 ^ 1022)) by (apply (IZR_lt 0); reflexivity).
  field. lra.
Qed.

Lemma float64_overflow_large : 1000000 < float64_overflow.
Proof. apply IZR_lt. reflexivity. Qed.

Lemma float64_min_normal_small : float64_min_normal < 1.
Proof.
  unfold float64_min_normal. rewrite <- Rinv_1.
  apply Rinv_lt_contravar; [|apply (IZR_lt 1); reflexivity].
  rewrite Rmult_1_l. apply (IZR_lt 0). reflexivity.
Qed.

Lemma float64_round_in_range x :
  float64_underflow < x < float64_overflow -> float64_round x = Finite x.
Proof.
  intros [Hlo Hhi]. pose proof float64_underflow_pos.
  unfold float64_round.
  rewrite decide_False by lra. rewrite decide_False by lra.
  rewrite decide_False; [done|]. rewrite Rabs_right by lra. lra.
Qed.

Lemma float64_round_overflow x :
  float64_overflow <= x -> float64_round x = PosInf.
Proof. intros Hx. unfold float64_round. by rewrite decide_True. Qed.

(** The logarithm of a product that is not a positive float64 is not
    finite. *)
Lemma np_log_float_out_of_range x :
  x <= float64_underflow \/ float64_overflow <= x ->
  ~ is_finite (np_log_float (float64_round x)).
Proof.
  pose proof float64_underflow_pos. pose proof float64_overflow_large.
  pose proof float64_min_normal_underflow. pose proof float64_min_normal_small.
  intros [Hx | Hx]; [|rewrite float64_round_overflow by done; cbn; tauto].
  unfold float64_round. rewrite decide_False by lra.
  case_decide; [cbn; tauto|]. case_decide as Hsmall; cbn.
  - unfold np_log. rewrite decide_False by lra. rewrite decide_True by done.
    cbn; tauto.
  - unfold np_log. rewrite decide_False; [case_decide; cbn; tauto|].
    intros Hpos. apply Hsmall. rewrite Rabs_right; lra.
Qed.

End Float64.

(** The four facts about the range that linear arithmetic needs. *)
Ltac float64_range :=
  pose proof float64_underflow_pos; pose proof float64_overflow_large;
  pose proof float64_min_normal_underflow;
  pose proof float64_min_normal_small.

(** ** The scenario simulator *)

Section Simulator.
Local Open Scope R_scope.

Lemma np_log_pos x : 0 < x -> np_log x = Finite (ln x).
Proof. intros Hx. unfold np_log. by rewrite decide_True. Qed.

Lemma np_log_zero : np_log 0 = NegInf.
Proof.
  unfold np_log. rewrite decide_False by lra. by rewrite decide_True.
Qed.

Lemma np_log_neg x : x < 0 -> np_log x = NaN.
Proof.
  intros Hx. unfold np_log. by rewrite !decide_False by lra.
Qed.

Lemma np_log_nonpos x : x <= 0 -> np_log x = NegInf \/ np_log x = NaN.
Proof.
  intros [Hx | ->]; [right; by apply np_log_neg | left; apply np_log_zero].
Qed.

Lemma predict_one_finite model x t :
  predict model [(Finite x, to_float t)] ≫= (fun a => item a 0)
  = inr (intercept_ model + coef_gdp_log model * x
         + coef_year_index model * IZR t).
Proof.
  cbn. f_equal. unfold decision_function. cbn. ring.
Qed.

Lemma predict_one_not_finite model v t :
  v = NegInf \/ v = NaN ->
  predict model [(v, to_float t)] ≫= (fun a => item a 0) = raise ValueError.
Proof. by intros [-> | ->]. Qed.

Lemma predict_one_refused model v t :
  ~ is_finite v ->
  predict model [(v, to_float t)] ≫= (fun a => item a 0) = raise ValueError.
Proof. by destruct v. Qed.

Lemma simulate_ok g t pct model :
  0 < g -> float64_underflow < g * (1 + pct / 100) < float64_overflow ->
  simulate_life_expectancy_change g t pct model
  = inr (intercept_ model + coef_gdp_log model * ln g
           + coef_year_index model * IZR t,
         intercept_ model + coef_gdp_log model * ln (g * (1 + pct / 100))
           + coef_year_index model * IZR t,
         (intercept_ model + coef_gdp_log model * ln (g * (1 + pct / 100))
           + coef_year_index model * IZR t)
         - (intercept_ model + coef_gdp_log model * ln g
           + coef_year_index model * IZR t)).
Proof.
  intros Hg Hnew. pose proof float64_underflow_pos.
  unfold simulate_life_expectancy_change, float_mul.
  rewrite float64_round_in_range by done. cbn [np_log_float].
  rewrite !np_log_pos by lra.
  by rewrite !predict_one_finite.
Qed.

Lemma simulate_raises g t pct model :
  0 < g ->
  g * (1 + pct / 100) <= float64_underflow \/
  float64_overflow <= g * (1 + pct / 100) ->
  simulate_life_expectancy_change g t pct model = raise ValueError.
Proof.
  intros Hg Hnew. unfold simulate_life_expectancy_change, float_mul.
  rewrite (np_log_pos g) by assumption.
  rewrite predict_one_finite.
  by rewrite (predict_one_refused _ _ _ (np_log_float_out_of_range _ Hnew)).
Qed.








End Simulator.

(** ** Sorting of real numbers *)

#[global] Instance Rle_total : Total Rle.
Proof. intros x y. destruct (Rle_lt_dec x y); [by left | right; lra]. Qed.

#[global] Instance Rle_trans_inst : Transitive Rle.
Proof. intros x y z. apply Rle_trans. Qed.

#[global] Instance Rle_antisym_inst : AntiSymm (=) Rle.
Proof. intros x y. apply Rle_antisym. Qed.

Lemma np_sort_perm l : np_sort l ≡ₚ l.
Proof. apply merge_sort_Permutation. Qed.

Lemma np_sort_sorted l : StronglySorted Rle (np_sort l).
Proof. apply (StronglySorted_merge_sort Rle). Qed.

Lemma np_sort_length l : length (np_sort l) = length l.
Proof. by rewrite np_sort_perm. Qed.

(** Sorting leaves an ascending list as it is. *)
Lemma np_sort_of_sorted l : StronglySorted Rle l -> np_sort l = l.
Proof.
  intros Hl. apply (StronglySorted_unique Rle); [apply np_sort_sorted | done |].
  apply np_sort_perm.
Qed.

Lemma StronglySorted_nth (s : list R) i j :
  StronglySorted Rle s -> i <= j < length s ->
  (nth i s 0 <= nth j s 0)%R.
Proof.
  intros Hs. revert i j. induction Hs as [|a s Hs IH Ha]; intros i j Hij.
  - cbn in Hij. lia.
  - destruct i as [|i], j as [|j]; cbn in *; try lia.
    + lra.
    + rewrite Forall_forall in Ha. apply Ha.
      apply list_elem_of_In, nth_In. lia.
    + apply IH. lia.
Qed.

Lemma np_sort_elem_of l u : u ∈ np_sort l <-> u ∈ l.
Proof. by rewrite np_sort_perm. Qed.

(** The first entry of the sorted column is its minimum, the last one its
    maximum. *)
Lemma np_sort_first x v :
  v ∈ x -> (forall u, u ∈ x -> (v <= u)%R) -> nth 0 (np_sort x) 0%R = v.
Proof.
  intros Hv Hmin.
  assert (0 < length (np_sort x)) as Hn.
  { rewrite np_sort_length. destruct x; [by apply elem_of_nil in Hv | cbn; lia]. }
  apply Rle_antisym.
  - apply np_sort_elem_of in Hv.
    apply list_elem_of_In, (In_nth _ _ 0%R) in Hv as (j & Hj & <-).
    apply StronglySorted_nth; [apply np_sort_sorted | lia].
  - apply Hmin, np_sort_elem_of.
    by apply list_elem_of_In, nth_In.
Qed.

Lemma np_sort_last x v :
  v ∈ x -> (forall u, u ∈ x -> (u <= v)%R) ->
  nth (length x - 1) (np_sort x) 0%R = v.
Proof.
  intros Hv Hmax.
  assert (0 < length (np_sort x)) as Hn.
  { rewrite np_sort_length. destruct x; [by apply elem_of_nil in Hv | cbn; lia]. }
  rewrite np_sort_length in Hn.
  apply Rle_antisym.
  - apply Hmax, np_sort_elem_of.
    apply list_elem_of_In, nth_In. rewrite np_sort_length. lia.
  - apply np_sort_elem_of in Hv.
    apply list_elem_of_In, (In_nth _ _ 0%R) in Hv as (j & Hj & <-).
    rewrite np_sort_length in Hj.
    apply StronglySorted_nth; [apply np_sort_sorted |].
    rewrite np_sort_length. lia.
Qed.

(** ** Feature engineering *)

Lemma traverse_inr {A B} (f : A -> result B) l l' :
  traverse f l = inr l' <-> Forall2 (fun a b => f a = inr b) l l'.
Proof.
  revert l'. induction l as [|a l IH]; intros l'; cbn.
  - split; [intros [= <-]; constructor | by intros ->%Forall2_nil_inv_l].
  - destruct (f a) as [e | b] eqn:Ea; cbn.
    + split; [done |].
      intros (b & l2 & Hb & _ & _)%Forall2_cons_inv_l. cbv beta in Hb.
      by rewrite Ea in Hb.
    + destruct (traverse f l) as [e | bs] eqn:El; cbn.
      * split; [done |].
        intros (b' & l2 & Hb & Hl & ->)%Forall2_cons_inv_l.
        apply IH in Hl. done.
      * split.
        -- intros [= <-]. constructor; [done | by apply IH].
        -- intros (b' & l2 & Hb & Hl & ->)%Forall2_cons_inv_l.
           apply IH in Hl. cbv beta in Hb. rewrite Ea in Hb.
           injection Hb as <-. by injection Hl as <-.
Qed.

Section Quartiles.

Lemma searchsorted_left_le_length bins v :
  searchsorted_left bins v <= length bins.
Proof.
  induction bins as [|b bins IH]; cbn; [lia|]. case_decide; lia.
Qed.

Lemma searchsorted_left_mono bins u v :
  (u <= v)%R -> searchsorted_left bins u <= searchsorted_left bins v.
Proof.
  intros Huv. induction bins as [|b bins IH]; cbn; [lia|].
  repeat case_decide; try lia. exfalso; lra.
Qed.

Lemma bin_id_le_length bins v : bins <> [] -> bin_id bins v <= length bins.
Proof.
  intros Hne. unfold bin_id. case_decide.
  - destruct bins; [done | cbn; lia].
  - apply searchsorted_left_le_length.
Qed.

(** Where both values fall into an interval, the interval of the smaller
    value is not after that of the larger one. *)
Lemma bin_id_mono bins u v :
  (u <= v)%R -> 1 <= bin_id bins u -> 1 <= bin_id bins v ->
  bin_id bins u <= bin_id bins v.
Proof.
  intros Huv Hu Hv. unfold bin_id in *.
  destruct bins as [|b bins].
  { rewrite decide_False in Hu by done. cbn in Hu. lia. }
  cbn [head] in *.
  destruct (decide (Some b = Some u)) as [Eu | Nu]; [done|].
  destruct (decide (Some b = Some v)) as [[= <-] | Nv].
  - cbn in Hu. case_decide; [exfalso; lra | lia].
  - by apply searchsorted_left_mono.
Qed.

(** A label is found for the intervals 1 to 4, and it is the number of
    the interval. *)
Lemma tier_of_bin_id id t :
  id <= 5 ->
  match (if decide (id = 0 \/ id = 5) then None
         else [1; 2; 3; 4]%Z !! (id - 1)) with
  | Some z => mret z
  | None => raise ValueError
  end = inr t ->
  1 <= id <= 4 /\ t = Z.of_nat id.
Proof.
  intros Hid.
  do 6 (destruct id as [|id]; [cbn; intros [= <-] || done; split; lia|]).
  lia.
Qed.

Lemma qcut_inv x tiers :
  qcut x 4 [1; 2; 3; 4]%Z ≫= astype_int = inr tiers ->
  let edges := map (fun k => Series_quantile x k 4) (seq 0 5) in
  x <> [] /\ NoDup edges /\
  Forall2 (fun v t => 1 <= bin_id edges v <= 4 /\
                      t = Z.of_nat (bin_id edges v)) x tiers.
Proof.
  intros Hq edges. unfold qcut in Hq.
  destruct x as [|v0 x]; [done|]. split; [done|].
  set (xs := v0 :: x) in *. change (seq 0 (4 + 1)) with (seq 0 5) in Hq.
  fold edges in Hq. unfold bins_to_cuts in Hq.
  assert (length edges = 5) as Hlen by done.
  rewrite Hlen in Hq.
  destruct (decide (NoDup edges \/ 5 = 2)) as [[Hnd | ?] | ?]; [|lia|done].
  split; [done|]. cbn [length Nat.sub] in Hq.
  rewrite decide_True in Hq by done.
  cbn [mbind result_bind mret result_ret] in Hq.
  unfold astype_int in Hq. apply traverse_inr in Hq.
  apply Forall2_fmap_l in Hq.
  eapply Forall2_impl; [exact Hq|]. intros v t Ht. cbv beta in Ht.
  apply tier_of_bin_id in Ht; [done|].
  rewrite <- Hlen. apply bin_id_le_length. by destruct edges.
Qed.

Lemma Series_quantile_first x q :
  Series_quantile x 0 q = nth 0 (np_sort x) 0%R.
Proof.
  unfold Series_quantile. rewrite Nat.mul_0_r.
  destruct q as [|q].
  - cbn [Nat.div Nat.modulo INR]. unfold Rdiv. ring.
  - rewrite Nat.Div0.div_0_l, Nat.Div0.mod_0_l. cbn [INR]. unfold Rdiv. ring.
Qed.

Lemma Series_quantile_last x :
  Series_quantile x 4 4 = nth (length x - 1) (np_sort x) 0%R.
Proof.
  unfold Series_quantile. rewrite np_sort_length.
  rewrite Nat.div_mul, Nat.Div0.mod_mul by lia.
  cbn [INR]. unfold Rdiv. ring.
Qed.

Lemma Series_quantile_le_last x k :
  x <> [] -> k <= 4 ->
  (Series_quantile x k 4 <= nth (length x - 1) (np_sort x) 0)%R.
Proof.
  intros Hx Hk. unfold Series_quantile. rewrite np_sort_length.
  assert (0 < length x) as Hn by (destruct x; [done | cbn; lia]).
  set (n := length x) in *. set (i := (n - 1) * k / 4).
  assert (i <= n - 1) as Hi.
  { unfold i. apply Nat.Div0.div_le_upper_bound. nia. }
  set (gamma := (INR (((n - 1) * k) mod 4) / INR 4)%R).
  assert (0 <= gamma <= 1)%R as Hg.
  { unfold gamma.
    pose proof (Nat.mod_upper_bound ((n - 1) * k) 4 ltac:(lia)) as Hm.
    pose proof (pos_INR (((n - 1) * k) mod 4)) as H0.
    apply le_INR in Hm. change (INR 4) with (1 + 1 + 1 + 1)%R in *.
    rewrite S_INR in Hm. unfold Rdiv. split; lra. }
  assert (nth i (np_sort x) 0 <= nth (n - 1) (np_sort x) 0)%R as Hlo.
  { apply StronglySorted_nth; [apply np_sort_sorted|].
    rewrite np_sort_length. fold n. lia. }
  assert (nth (Nat.min (i + 1) (n - 1)) (np_sort x) 0
          <= nth (n - 1) (np_sort x) 0)%R as Hhi.
  { apply StronglySorted_nth; [apply np_sort_sorted|].
    rewrite np_sort_length. fold n. lia. }
  nra.
Qed.

(** The interval of the least value of the column is the first one, that
    of its greatest value the last one. *)
Lemma bin_id_of_min x v :
  v ∈ x -> (forall u, u ∈ x -> (v <= u)%R) ->
  bin_id (map (fun k => Series_quantile x k 4) (seq 0 5)) v = 1.
Proof.
  intros Hv Hmin. unfold bin_id. cbn [seq map head].
  rewrite Series_quantile_first, (np_sort_first x v) by done.
  by rewrite decide_True.
Qed.

Lemma bin_id_of_max x v :
  NoDup (map (fun k => Series_quantile x k 4) (seq 0 5)) ->
  v ∈ x -> (forall u, u ∈ x -> (u <= v)%R) ->
  bin_id (map (fun k => Series_quantile x k 4) (seq 0 5)) v = 4.
Proof.
  intros Hnd Hv Hmax. cbn [seq map] in *.
  assert (x <> []) as Hx by (intros ->; by apply elem_of_nil in Hv).
  pose proof (Series_quantile_le_last x 0 Hx ltac:(lia)) as H0.
  pose proof (Series_quantile_le_last x 1 Hx ltac:(lia)) as H1.
  pose proof (Series_quantile_le_last x 2 Hx ltac:(lia)) as H2.
  pose proof (Series_quantile_le_last x 3 Hx ltac:(lia)) as H3.
  rewrite (np_sort_last x v) in H0, H1, H2, H3 by done.
  pose proof (Series_quantile_last x) as H4.
  rewrite (np_sort_last x v) in H4 by done.
  rewrite H4 in Hnd.
  assert (forall e, e ∈ [Series_quantile x 0 4; Series_quantile x 1 4;
                         Series_quantile x 2 4; Series_quantile x 3 4] ->
                    e <> v) as Hne.
  { intros e He ->. apply NoDup_ListNoDup in Hnd.
    apply (NoDup_remove_2 [_; _; _; _] [] v) in Hnd.
    apply Hnd. rewrite app_nil_r. by apply list_elem_of_In. }
  pose proof (Hne (Series_quantile x 0 4) ltac:(set_solver)) as N0.
  pose proof (Hne (Series_quantile x 1 4) ltac:(set_solver)) as N1.
  pose proof (Hne (Series_quantile x 2 4) ltac:(set_solver)) as N2.
  pose proof (Hne (Series_quantile x 3 4) ltac:(set_solver)) as N3.
  unfold bin_id. cbn [head].
  rewrite decide_False by (intros [=]; done).
  cbn [searchsorted_left]. rewrite H4.
  rewrite !decide_True by lra. by rewrite decide_False by lra.
Qed.

Lemma searchsorted_left_full bins v :
  searchsorted_left bins v = length bins -> Forall (fun b => (b < v)%R) bins.
Proof.
  induction bins as [|b bins IH]; cbn; [constructor|].
  case_decide; [|done]. intros [= Hlen]. constructor; auto.
Qed.

Lemma np_sort_between x v :
  v ∈ x ->
  (nth 0 (np_sort x) 0 <= v <= nth (length x - 1) (np_sort x) 0)%R.
Proof.
  intros Hv. apply np_sort_elem_of in Hv.
  apply list_elem_of_In, (In_nth _ _ 0%R) in Hv as (j & Hj & <-).
  rewrite np_sort_length in Hj.
  split; (apply StronglySorted_nth; [apply np_sort_sorted|]);
    rewrite np_sort_length; lia.
Qed.

(** With distinct edges every value of the column falls into one of the
    four intervals. *)
Lemma bin_id_bounds x v :
  v ∈ x ->
  1 <= bin_id (map (fun k => Series_quantile x k 4) (seq 0 5)) v <= 4.
Proof.
  intros Hv. destruct (np_sort_between x v Hv) as [Hlo Hhi].
  rewrite <- Series_quantile_first with (q := 4) in Hlo.
  rewrite <- Series_quantile_last in Hhi.
  unfold bin_id. cbn [seq map head]. case_decide as Hhead; [lia|].
  assert (Series_quantile x 0 4 < v)%R as Hlt.
  { destruct Hlo as [|Heq]; [done|]. by rewrite Heq in Hhead. }
  split.
  - cbn [searchsorted_left]. rewrite decide_True by done. lia.
  - match goal with |- searchsorted_left ?bins v <= 4 => set (edges := bins) end.
    pose proof (searchsorted_left_le_length edges v) as Hle.
    destruct (decide (searchsorted_left edges v = length edges)) as [Hfull|];
      [|cbn in *; lia].
    apply searchsorted_left_full in Hfull.
    rewrite Forall_forall in Hfull.
    specialize (Hfull (Series_quantile x 4 4)).
    assert (Series_quantile x 4 4 < v)%R; [|lra].
    apply Hfull. unfold edges. rewrite !elem_of_cons. tauto.
Qed.

Lemma tier_of_bin_id_ok id :
  1 <= id <= 4 ->
  match (if decide (id = 0 \/ id = 5) then None
         else [1; 2; 3; 4]%Z !! (id - 1)) with
  | Some z => mret z
  | None => raise ValueError
  end = inr (Z.of_nat id).
Proof.
  intros Hid. do 5 (destruct id as [|id]; [done || lia|]). lia.
Qed.

(** The quartile cut returns exactly on a non-empty column with distinct
    edges. *)
Lemma qcut_returns_iff x :
  (exists tiers, qcut x 4 [1; 2; 3; 4]%Z ≫= astype_int = inr tiers) <->
  x <> [] /\ NoDup (map (fun k => Series_quantile x k 4) (seq 0 5)).
Proof.
  split.
  - intros (tiers & Hq). apply qcut_inv in Hq as (Hx & Hnd & _). done.
  - intros (Hx & Hnd).
    set (edges := map (fun k => Series_quantile x k 4) (seq 0 5)) in *.
    exists (map (fun v => Z.of_nat (bin_id edges v)) x).
    unfold qcut. destruct x as [|v0 x']; [done|].
    set (xs := v0 :: x') in *. change (seq 0 (4 + 1)) with (seq 0 5).
    fold edges. unfold bins_to_cuts.
    rewrite decide_True by (by left).
    rewrite decide_True by done.
    cbn [mbind result_bind mret result_ret].
    unfold astype_int. apply traverse_inr.
    apply Forall2_fmap, Forall_Forall2_diag, Forall_forall.
    intros v Hv. change (length edges) with 5.
    apply tier_of_bin_id_ok. by apply bin_id_bounds.
Qed.

End Quartiles.

Section Features.

(** The table after the first two assignments of [engineer_features]. *)
Local Abbreviation logged d :=
  (set_year_index (sub_scalar (Year d) (Series_min (Year d)))
     (set_gdp_log (map np_log (gdp d)) d)).

Lemma engineer_features_run w df d :
  heap w !! df = Some d ->
  engineer_features df w =
    match qcut (life_expectancy d) 4 [1; 2; 3; 4]%Z ≫= astype_int with
    | inr tiers =>
        (inr (length (heap w)),
         with_heap (heap w ++ [set_risk_tier tiers (logged d)]) w)
    | inl e => (inl e, with_heap (heap w ++ [logged d]) w)
    end.
Proof.
  intros E. unfold engineer_features.
  erewrite bind_ok by (by apply DataFrame_copy_run).
  erewrite bind_ok by (by eapply getitem_last).
  erewrite bind_ok by (by eapply setitem_last).
  erewrite bind_ok by (by eapply getitem_last).
  erewrite bind_ok by (by eapply setitem_last).
  erewrite bind_ok by (by eapply getitem_last).
  cbn [Year life_expectancy gdp set_gdp_log set_year_index].
  destruct (qcut (life_expectancy d) 4 [1; 2; 3; 4]%Z ≫= astype_int)
    as [e | tiers] eqn:Eq.
  - by erewrite bind_raise by done.
  - erewrite bind_ok by done.
    by erewrite bind_ok by (by eapply setitem_last).
Qed.

Lemma engineer_features_dangling w df :
  heap w !! df = None -> engineer_features df w = (inl ReferenceError, w).
Proof.
  intros E. unfold engineer_features.
  apply bind_raise. unfold DataFrame_copy. by rewrite E.
Qed.

Lemma engineer_features_ok w df d df' w' :
  heap w !! df = Some d ->
  engineer_features df w = (inr df', w') ->
  exists tiers,
    qcut (life_expectancy d) 4 [1; 2; 3; 4]%Z ≫= astype_int = inr tiers /\
    df' = length (heap w) /\
    w' = with_heap (heap w ++ [set_risk_tier tiers (logged d)]) w.
Proof.
  intros E Hrun. rewrite (engineer_features_run _ _ _ E) in Hrun.
  destruct (qcut (life_expectancy d) 4 [1; 2; 3; 4]%Z ≫= astype_int)
    as [e | tiers]; [done|].
  injection Hrun as <- <-. by exists tiers.
Qed.


(** C4, as corrected.  When the Feature Engineer returns, every row has a
    tier from 1 to 4; a row with a smaller or equal outcome never has a
    higher tier, so the outcomes of a lower tier all lie strictly below
    those of a higher tier; the rows with the least outcome are in tier 1
    and those with the greatest in tier 4. *)
Theorem engineer_features_tiers w df d df' w' :
  heap w !! df = Some d ->
  engineer_features df w = (inr df', w') ->
  exists d' tiers,
    heap w' !! df' = Some d' /\ risk_tier d' = Some tiers /\
    length tiers = length (life_expectancy d) /\
    (forall i t, tiers !! i = Some t -> (1 <= t <= 4)%Z) /\
    (forall i j u v s t,
       life_expectancy d !! i = Some u -> life_expectancy d !! j = Some v ->
       tiers !! i = Some s -> tiers !! j = Some t ->
       ((u <= v)%R -> (s <= t)%Z) /\ ((s < t)%Z -> (u < v)%R)) /\
    (forall i u s,
       life_expectancy d !! i = Some u -> tiers !! i = Some s ->
       ((forall v, v ∈ life_expectancy d -> (u <= v)%R) -> s = 1%Z) /\
       ((forall v, v ∈ life_expectancy d -> (v <= u)%R) -> s = 4%Z)).
Proof.
  intros E Hrun.
  destruct (engineer_features_ok _ _ _ _ _ E Hrun) as (tiers & Hq & -> & ->).
  apply qcut_inv in Hq as (Hne & Hnd & Hall). cbv zeta in Hall.
  set (edges := map (fun k => Series_quantile (life_expectancy d) k 4)
                    (seq 0 5)) in *.
  eexists _, tiers. split; [apply snoc_lookup_last|].
  split; [reflexivity|].
  split; [symmetry; by eapply Forall2_length|].
  assert (forall i u s, life_expectancy d !! i = Some u ->
            tiers !! i = Some s ->
            1 <= bin_id edges u <= 4 /\ s = Z.of_nat (bin_id edges u)) as Hrow.
  { intros i u s Hu Hs.
    by destruct (Forall2_lookup_lr _ _ _ _ _ _ Hall Hu Hs). }
  split; [|split].
  - intros i t Ht.
    destruct (lookup_lt_is_Some_2 (life_expectancy d) i) as [u Hu].
    { rewrite (Forall2_length _ _ _ Hall). by eapply lookup_lt_Some. }
    destruct (Hrow _ _ _ Hu Ht) as [? ->]. lia.
  - intros i j u v s t Hu Hv Hs Ht.
    destruct (Hrow _ _ _ Hu Hs) as [Bu ->].
    destruct (Hrow _ _ _ Hv Ht) as [Bv ->].
    assert (forall a b, (a <= b)%R -> 1 <= bin_id edges a ->
              1 <= bin_id edges b ->
              (Z.of_nat (bin_id edges a) <= Z.of_nat (bin_id edges b))%Z)
      as Hmono.
    { intros a b Hab Ha Hb. apply inj_le. by apply bin_id_mono. }
    split; [intros Huv; apply Hmono; lia || done|].
    intros Hst. destruct (Rlt_le_dec u v) as [|Hvu]; [done|].
    specialize (Hmono v u Hvu ltac:(lia) ltac:(lia)). lia.
  - intros i u s Hu Hs. destruct (Hrow _ _ _ Hu Hs) as [_ ->].
    apply list_elem_of_lookup_2 in Hu. split; intros Hext.
    + unfold edges. by rewrite bin_id_of_min.
    + unfold edges. by rewrite bin_id_of_max.
Qed.

(** C9.  Running the Feature Engineer on its own output succeeds and gives
    a table equal to that output, so [gdp_log], [year_index] and
    [risk_tier] are those of the first run. *)
Theorem engineer_features_idempotent w df df1 w1 :
  engineer_features df w = (inr df1, w1) ->
  exists df2 w2 d1 d2,
    engineer_features df1 w1 = (inr df2, w2) /\
    heap w1 !! df1 = Some d1 /\ heap w2 !! df2 = Some d2 /\
    gdp_log d2 = gdp_log d1 /\ year_index d2 = year_index d1 /\
    risk_tier d2 = risk_tier d1 /\ d2 = d1 /\
    is_Some (gdp_log d1) /\ is_Some (year_index d1) /\
    is_Some (risk_tier d1).
Proof.
  intros Hrun.
  destruct (heap w !! df) as [d|] eqn:E;
    [|by rewrite engineer_features_dangling in Hrun].
  destruct (engineer_features_ok _ _ _ _ _ E Hrun) as (tiers & Hq & -> & ->).
  set (d1 := set_risk_tier tiers (logged d)).
  assert (heap (with_heap (heap w ++ [d1]) w) !! length (heap w) = Some d1)
    as E1 by apply snoc_lookup_last.
  eexists _, _, d1, d1. rewrite (engineer_features_run _ _ _ E1).
  change (life_expectancy d1) with (life_expectancy d). rewrite Hq.
  split; [reflexivity|]. split; [done|].
  split; [apply snoc_lookup_last|]. by repeat split.
Qed.

End Features.

(** ** The Feature Engineer on two tables *)

Ltac sorted_reals := repeat constructor; lra.

(** A quartile edge of a column whose sorted form [E] states. *)
Ltac eval_quantile E :=
  unfold Series_quantile; rewrite E;
  cbn [length Nat.sub Nat.mul Nat.add Nat.div Nat.modulo Nat.divmod Nat.min
       nth INR fst snd];
  lra.

Ltac distinct_reals :=
  repeat (apply NoDup_cons; split;
          [rewrite ?elem_of_cons, elem_of_nil; intuition lra|]);
  apply NoDup_nil_2.

(** Resolve every comparison of two real numbers that [lra] decides. *)
Ltac decide_reals :=
  repeat match goal with
  | |- context [decide (Some ?a = Some ?b)] =>
      first [ rewrite (decide_True (P := Some a = Some b)) by (f_equal; lra)
            | rewrite (decide_False (P := Some a = Some b))
                by (intros [=]; lra) ]
  | |- context [decide (?a < ?b)%R] =>
      first [ rewrite (decide_True (P := (a < b)%R)) by lra
            | rewrite (decide_False (P := (a < b)%R)) by lra ]
  | |- context [decide (?a = ?b :> R)] =>
      first [ rewrite (decide_True (P := a = b)) by lra
            | rewrite (decide_False (P := a = b)) by lra ]
  end.

Section FourRows.
Local Open Scope R_scope.

Lemma four_rows_sorted : np_sort [60; 70; 80; 90] = [60; 70; 80; 90].
Proof. apply np_sort_of_sorted. sorted_reals. Qed.

Lemma four_rows_edges :
  map (fun k => Series_quantile [60; 70; 80; 90] k 4) (seq 0 5)
  = [60; 67.5; 75; 82.5; 90].
Proof.
  cbn [seq map].
  do 5 (apply (f_equal2 cons); [eval_quantile four_rows_sorted|]). done.
Qed.

Lemma four_rows_qcut :
  qcut (life_expectancy four_rows) 4 [1; 2; 3; 4]%Z ≫= astype_int
  = inr [1; 2; 3; 4]%Z.
Proof.
  change (life_expectancy four_rows) with [60; 70; 80; 90].
  unfold qcut. change (seq 0 (4 + 1)) with (seq 0 5).
  rewrite four_rows_edges. unfold bins_to_cuts.
  rewrite decide_True by (left; distinct_reals).
  cbn [map]. unfold bin_id. cbn [head searchsorted_left].
  decide_reals. reflexivity.
Qed.

Lemma four_rows_run :
  engineer_features 0%nat (with_heap [four_rows] new_world)
  = (inr 1%nat, with_heap [four_rows; four_rows_engineered] new_world).
Proof.
  rewrite (engineer_features_run _ _ four_rows) by done.
  rewrite four_rows_qcut.
  assert (map np_log (gdp four_rows)
          = [NegInf; NaN; Finite (ln 100); Finite (ln 200)]) as ->.
  { cbn [gdp four_rows raw_table map].
    by rewrite np_log_zero, (np_log_neg (-5)), !np_log_pos by lra. }
  reflexivity.
Qed.



(** A second run on the four rows. *)
Lemma engineer_features_idempotent_witness :
  exists df2 w2 d1 d2,
    engineer_features 1%nat
      (with_heap [four_rows; four_rows_engineered] new_world)
    = (inr df2, w2) /\
    heap (with_heap [four_rows; four_rows_engineered] new_world) !! 1%nat
    = Some d1 /\
    heap w2 !! df2 = Some d2 /\
    gdp_log d2 = gdp_log d1 /\ year_index d2 = year_index d1 /\
    risk_tier d2 = risk_tier d1 /\ d2 = d1 /\
    is_Some (gdp_log d1) /\ is_Some (year_index d1) /\
    is_Some (risk_tier d1).
Proof.
  apply (engineer_features_idempotent (with_heap [four_rows] new_world)
           0%nat 1%nat _ four_rows_run).
Defined.

End FourRows.

Section SixRows.
Local Open Scope R_scope.

Lemma six_rows_sorted :
  np_sort [60; 70; 70; 75; 80; 85] = [60; 70; 70; 75; 80; 85].
Proof. apply np_sort_of_sorted. sorted_reals. Qed.

Lemma six_rows_edges :
  map (fun k => Series_quantile [60; 70; 70; 75; 80; 85] k 4) (seq 0 5)
  = [60; 70; 72.5; 78.75; 85].
Proof.
  cbn [seq map].
  do 5 (apply (f_equal2 cons); [eval_quantile six_rows_sorted|]). done.
Qed.

Lemma six_rows_qcut :
  qcut (life_expectancy six_rows) 4 [1; 2; 3; 4]%Z ≫= astype_int
  = inr [1; 1; 1; 3; 4; 4]%Z.
Proof.
  change (life_expectancy six_rows) with [60; 70; 70; 75; 80; 85].
  unfold qcut. change (seq 0 (4 + 1)) with (seq 0 5).
  rewrite six_rows_edges. unfold bins_to_cuts.
  rewrite decide_True by (left; distinct_reals).
  cbn [map]. unfold bin_id. cbn [head searchsorted_left].
  decide_reals. reflexivity.
Qed.

Lemma six_rows_run :
  engineer_features 0%nat (with_heap [six_rows] new_world)
  = (inr 1%nat, with_heap [six_rows; six_rows_engineered] new_world).
Proof.
  rewrite (engineer_features_run _ _ six_rows) by done.
  rewrite six_rows_qcut.
  assert (map np_log (gdp six_rows)
          = map (fun g => Finite (ln g)) [100; 200; 300; 400; 500; 600])
    as ->.
  { cbn [gdp six_rows raw_table map]. by rewrite !np_log_pos by lra. }
  reflexivity.
Qed.

(** C4 as stated fails: the outcomes 60, 70, 70, 75, 80, 85 have five
    distinct values, the Feature Engineer returns, and no row is in
    tier 2. *)
Lemma engineer_features_skips_a_tier :
  NoDup [60; 70; 75; 80; 85] /\
  [60; 70; 75; 80; 85] ⊆ life_expectancy six_rows /\
  exists d',
    engineer_features 0%nat (with_heap [six_rows] new_world)
    = (inr 1%nat, with_heap [six_rows; d'] new_world) /\
    risk_tier d' = Some [1; 1; 1; 3; 4; 4]%Z /\
    2%Z ∉ [1; 1; 1; 3; 4; 4]%Z.
Proof.
  split; [distinct_reals|]. split.
  - cbn [life_expectancy six_rows raw_table]. intros v.
    rewrite !elem_of_cons. tauto.
  - exists six_rows_engineered. split; [apply six_rows_run|].
    split; [done|]. rewrite !elem_of_cons, elem_of_nil. lia.
Qed.

(** The tiers of the six rows. *)
Lemma engineer_features_tiers_witness :
  exists d' tiers,
    heap (with_heap [six_rows; six_rows_engineered] new_world) !! 1%nat
    = Some d' /\
    risk_tier d' = Some tiers /\
    length tiers = length (life_expectancy six_rows) /\
    (forall i t, tiers !! i = Some t -> (1 <= t <= 4)%Z) /\
    (forall i j u v s t,
       life_expectancy six_rows !! i = Some u ->
       life_expectancy six_rows !! j = Some v ->
       tiers !! i = Some s -> tiers !! j = Some t ->
       (u <= v -> (s <= t)%Z) /\ ((s < t)%Z -> u < v)) /\
    (forall i u s,
       life_expectancy six_rows !! i = Some u -> tiers !! i = Some s ->
       ((forall v, v ∈ life_expectancy six_rows -> u <= v) -> s = 1%Z) /\
       ((forall v, v ∈ life_expectancy six_rows -> v <= u) -> s = 4%Z)).
Proof.
  apply (engineer_features_tiers (with_heap [six_rows] new_world) 0%nat
           six_rows 1%nat _ eq_refl six_rows_run).
Defined.

End SixRows.

(** ** The outcome regression *)

Section Regression.
Context `{Libraries}.

Lemma print_run p w : print p w = (inr (), with_stdout (stdout w ++ [p]) w).
Proof. done. Qed.

(** With a seed, [train_test_split] neither reads nor writes the world. *)
Lemma train_test_split_seeded {A B} (X : list A) (y : list B) ts seed w :
  train_test_split X y ts (Some seed) w = (seeded_split X y ts seed, w).
Proof.
  unfold train_test_split, seeded_split.
  case_decide; [|done]. case_decide; [done|].
  unfold shuffled_indices, check_random_state.
  unfold mbind, M_bind, mret, M_ret, lift, result_bind, result_ret.
  destruct (RandomState_permutation _ _) as [permutation rng'].
  cbn [fst].
  repeat match goal with
  | |- context [iloc ?l ?i] => destruct (iloc l i); [done|]
  end.
  done.
Qed.

Lemma predict_inv model X p :
  predict model X = inr p ->
  exists Xv, check_array X = inr Xv /\ p = map (decision_function model) Xv.
Proof.
  unfold predict. destruct (check_array X) as [e | Xv]; [done|].
  intros [= <-]. by exists Xv.
Qed.

(** One step of a run: the first half of a bind returns. *)
Ltac run_step :=
  erewrite bind_ok by
    first [ by eapply getitem_run
          | by eapply setitem_run
          | apply print_run
          | rewrite train_test_split_seeded;
            match goal with
            | Heq : seeded_split _ _ _ _ = _ |- _ => by rewrite Heq
            end
          | done ];
  cbv beta iota.

Ltac run_raise :=
  erewrite bind_raise by
    first [ by eapply getitem_missing
          | rewrite train_test_split_seeded;
            match goal with
            | Heq : seeded_split _ _ _ _ = _ |- _ => by rewrite Heq
            end
          | done ].

(** Settle [regression_value d] from the equations in the context. *)
Ltac value_is v :=
  match goal with
  | |- context [regression_value ?d] =>
      assert (regression_value d = v) as ->
        by (unfold regression_value;
            repeat (match goal with
                    | Heq : _ = _ |- _ => progress rewrite Heq
                    end; cbv zeta; cbn [mbind result_bind]);
            done)
  end.

Lemma fit_outcome_regression_run w df d :
  heap w !! df = Some d ->
  match regression_value d with
  | inl e => (fit_outcome_regression df w).1 = inl e
  | inr model =>
      exists gl yi Xv r2_train r2_test,
        gdp_log d = Some gl /\ year_index d = Some yi /\
        check_array (zip gl (map to_float yi)) = inr Xv /\
        let p := map (decision_function model) Xv in
        let r := zip_with Rminus (life_expectancy d) p in
        fit_outcome_regression df w =
          (inr model,
           {| heap := <[df := set_residual r (set_pred p d)]> (heap w);
              np_random := np_random w;
              stdout :=
                stdout w ++
                [Text "--- Outcome Regression Diagnostics ---";
                 Score "R2 (train)" r2_train;
                 Score "R2 (test)" r2_test;
                 Text "Underperforming Countries:";
                 Table (take 10 (sort_values
                                   (groupby_mean str_le (Country d) r)))] |})
  end.
Proof.
  intros E. unfold fit_outcome_regression.
  destruct (gdp_log d) as [gl|] eqn:Egl;
    [|value_is (@inl exn LinearRegression KeyError); by run_raise].
  run_step.
  destruct (year_index d) as [yi|] eqn:Eyi;
    [|value_is (@inl exn LinearRegression KeyError); by run_raise].
  do 2 run_step. cbv zeta.
  destruct (seeded_split (zip gl (map to_float yi)) (life_expectancy d)
              0.2%Q 42%Z)
    as [e | [[[X_train X_test] y_train] y_test]] eqn:Es;
    [value_is (@inl exn LinearRegression e); by run_raise|].
  run_step.
  destruct (LinearRegression_fit X_train y_train) as [e | model] eqn:Ef;
    [value_is (@inl exn LinearRegression e); by run_raise|].
  do 2 run_step.
  destruct (score model X_train y_train) as [e | r2_train] eqn:Etr;
    [value_is (@inl exn LinearRegression e); by run_raise|].
  do 2 run_step.
  destruct (score model X_test y_test) as [e | r2_test] eqn:Ete;
    [value_is (@inl exn LinearRegression e); by run_raise|].
  do 2 run_step.
  destruct (predict model (zip gl (map to_float yi))) as [e | p] eqn:Ep;
    [value_is (@inl exn LinearRegression e); by run_raise|].
  value_is (@inr exn LinearRegression model).
  destruct (predict_inv _ _ _ Ep) as (Xv & EXv & ->).
  exists gl, yi, Xv, r2_train, r2_test. do 3 (split; [done|]). cbv zeta.
  pose proof (lookup_lt_Some _ _ _ E) as Hlt.
  run_step. run_step.
  erewrite bind_ok
    by (eapply getitem_run; [cbn; by apply list_lookup_insert_eq | done]).
  erewrite bind_ok
    by (eapply getitem_run; [cbn; by apply list_lookup_insert_eq | done]).
  erewrite bind_ok
    by (eapply setitem_run; cbn; by apply list_lookup_insert_eq).
  cbn [heap with_heap with_stdout]. rewrite list_insert_insert_eq.
  erewrite bind_ok
    by (eapply getitem_run; [cbn; by apply list_lookup_insert_eq | done]).
  erewrite bind_ok
    by (eapply getitem_run; [cbn; by apply list_lookup_insert_eq | done]).
  cbv zeta. do 2 run_step.
  unfold mret, M_ret, with_stdout, with_heap. cbn [heap np_random stdout].
  by rewrite <- !app_assoc.
Qed.

Lemma fit_outcome_regression_ok w df d model w' :
  heap w !! df = Some d ->
  fit_outcome_regression df w = (inr model, w') ->
  regression_value d = inr model /\
  exists gl yi Xv r2_train r2_test,
    gdp_log d = Some gl /\ year_index d = Some yi /\
    check_array (zip gl (map to_float yi)) = inr Xv /\
    let p := map (decision_function model) Xv in
    let r := zip_with Rminus (life_expectancy d) p in
    w' = {| heap := <[df := set_residual r (set_pred p d)]> (heap w);
            np_random := np_random w;
            stdout :=
              stdout w ++
              [Text "--- Outcome Regression Diagnostics ---";
               Score "R2 (train)" r2_train;
               Score "R2 (test)" r2_test;
               Text "Underperforming Countries:";
               Table (take 10 (sort_values
                                 (groupby_mean str_le (Country d) r)))] |}.
Proof.
  intros E Hrun. pose proof (fit_outcome_regression_run w df d E) as Hfwd.
  destruct (regression_value d) as [e | model'].
  - by rewrite Hrun in Hfwd.
  - destruct Hfwd as (gl & yi & Xv & r2_train & r2_test & Egl & Eyi & EXv & Hfwd).
    cbv zeta in Hfwd. rewrite Hrun in Hfwd. injection Hfwd as -> ->.
    split; [done|]. by exists gl, yi, Xv, r2_train, r2_test.
Qed.

Lemma fit_outcome_regression_value w df d :
  heap w !! df = Some d ->
  (fit_outcome_regression df w).1 = regression_value d.
Proof.
  intros E. pose proof (fit_outcome_regression_run w df d E) as Hfwd.
  destruct (regression_value d) as [e | model]; [done|].
  destruct Hfwd as (gl & yi & Xv & r2_train & r2_test & _ & _ & _ & Hfwd).
  cbv zeta in Hfwd. by rewrite Hfwd.
Qed.

(** A run that returns has assigned [pred] and [residual] on the table
    that it was given. *)
Lemma fit_outcome_regression_assigns_in_place w df d model w' :
  heap w !! df = Some d ->
  fit_outcome_regression df w = (inr model, w') ->
  exists p r, heap w' = <[df := set_residual r (set_pred p d)]> (heap w).
Proof.
  intros E Hrun.
  destruct (fit_outcome_regression_ok _ _ _ _ _ E Hrun)
    as (_ & gl & yi & Xv & r2_train & r2_test & _ & _ & _ & ->).
  by eexists _, _.
Qed.

(** The validated rows are the rows themselves. *)
Lemma check_array_lookup X Xv i v :
  check_array X = inr Xv -> Xv !! i = Some v ->
  X !! i = Some (Finite v.1, Finite v.2).
Proof.
  unfold check_array. intros HX Hv.
  assert (traverse check_finite X = inr Xv) as Ht by (by destruct X).
  apply traverse_inr in Ht.
  destruct (Forall2_lookup_r _ _ _ _ _ Ht Hv) as (row & Hrow & Hfin).
  rewrite Hrow. f_equal. destruct v as [a b].
  destruct row as [[] []]; cbn in Hfin; try done. by injection Hfin as -> ->.
Qed.

End Regression.

(** ** Grouping, sorting and the head of a Series *)

Lemma omap_lookup_seq_from {A} (pre s : list A) :
  omap (fun i => (pre ++ s) !! i) (seq (length pre) (length s)) = s.
Proof.
  revert pre. induction s as [|a s IH]; intros pre; [done|].
  cbn [length seq omap list_omap]. rewrite list_lookup_middle by done.
  f_equal. specialize (IH (pre ++ [a])).
  rewrite <- app_assoc, length_app, Nat.add_1_r in IH. exact IH.
Qed.

Lemma omap_lookup_seq {A} (s : list A) :
  omap (fun i => s !! i) (seq 0 (length s)) = s.
Proof. apply (omap_lookup_seq_from [] s). Qed.

Lemma StronglySorted_by_value {K} (l : list (K * R)) :
  StronglySorted Rle l.*2 -> StronglySorted by_value l.
Proof.
  induction l as [|a l IH]; [constructor|].
  cbn. intros [Ha Hl]%StronglySorted_cons.
  constructor; [by apply IH|].
  by rewrite Forall_fmap in Ha.
Qed.

Section Ranking.
Context `{Libraries} (Hsort : argsort_contract).

Lemma sort_values_perm {K} (s : list (K * R)) : sort_values s ≡ₚ s.
Proof.
  unfold sort_values. destruct (Hsort s.*2) as [Hperm _].
  rewrite Hperm, length_fmap. by rewrite omap_lookup_seq.
Qed.

Lemma sort_values_sorted {K} (s : list (K * R)) :
  StronglySorted by_value (sort_values s).
Proof.
  apply StronglySorted_by_value. unfold sort_values.
  destruct (Hsort s.*2) as [_ Hsorted].
  rewrite list_fmap_omap.
  erewrite list_omap_ext; [exact Hsorted|].
  apply Forall2_same_length_lookup_2; [done|].
  intros i a b Ha Hb. rewrite Ha in Hb. injection Hb as <-.
  by rewrite list_lookup_fmap.
Qed.

Lemma sort_values_elem_of {K} (s : list (K * R)) a :
  a ∈ sort_values s <-> a ∈ s.
Proof. by rewrite sort_values_perm. Qed.

End Ranking.

Section Groups.
Context {K : Type} `{EqDecision K} (le : relation K) `{!RelDecision le}.

Lemma groupby_mean_keys keys vals :
  (groupby_mean le keys vals).*1 = merge_sort le (remove_dups keys).
Proof.
  unfold groupby_mean. rewrite <- list_fmap_compose.
  rewrite <- (list_fmap_id (merge_sort le (remove_dups keys))) at 2.
  by apply list_fmap_ext.
Qed.

Lemma groupby_mean_NoDup keys vals : NoDup (groupby_mean le keys vals).*1.
Proof.
  rewrite groupby_mean_keys, merge_sort_Permutation.
  apply NoDup_remove_dups.
Qed.

Lemma groupby_mean_length keys vals :
  length (groupby_mean le keys vals) = length (remove_dups keys).
Proof.
  rewrite <- (length_fmap fst), groupby_mean_keys.
  by rewrite merge_sort_Permutation.
Qed.

Lemma groupby_mean_elem_of keys vals k m :
  (k, m) ∈ groupby_mean le keys vals <->
  k ∈ keys /\ m = mean (group_values k keys vals).
Proof.
  unfold groupby_mean. rewrite list_elem_of_fmap. split.
  - intros (k' & [= -> ->] & Hk).
    rewrite merge_sort_Permutation, elem_of_remove_dups in Hk. done.
  - intros [Hk ->]. exists k. split; [done|].
    by rewrite merge_sort_Permutation, elem_of_remove_dups.
Qed.

End Groups.

(** The head of a ranking has [n] rows, or one per key when the keys are
    fewer. *)
Lemma ranking_length `{Libraries} (Hsort : argsort_contract) {K}
    `{EqDecision K} (le : relation K) `{!RelDecision le}
    (keys : list K) (vals : list R) n :
  length (take n (sort_values (groupby_mean le keys vals)))
  = Nat.min n (length (remove_dups keys)).
Proof.
  by rewrite length_take, (sort_values_perm Hsort), groupby_mean_length.
Qed.

(** ** The run of the regression *)

Section GapRanking.
Context `{Libraries}.

(** C8.  The outcome regression is a function of the three columns it
    reads and of its seed: on tables that agree on [gdp_log],
    [year_index] and [life_expectancy], the train/test split is the same
    for every seed, and two runs (the seed is 42) return the same model or
    raise the same exception, whatever the rest of the heap, the state of
    numpy's global generator and the output so far; the global generator
    is left as it was.  In particular a second run on the table that the
    first run has left returns the same model. *)
Theorem fit_outcome_regression_deterministic w1 w2 df1 df2 d1 d2 :
  heap w1 !! df1 = Some d1 -> heap w2 !! df2 = Some d2 ->
  gdp_log d1 = gdp_log d2 -> year_index d1 = year_index d2 ->
  life_expectancy d1 = life_expectancy d2 ->
  (forall seed gl yi,
     gdp_log d1 = Some gl -> year_index d1 = Some yi ->
     (train_test_split (zip gl (map to_float yi)) (life_expectancy d1)
        0.2%Q (Some seed) w1).1
     = (train_test_split (zip gl (map to_float yi)) (life_expectancy d2)
          0.2%Q (Some seed) w2).1) /\
  (fit_outcome_regression df1 w1).1 = (fit_outcome_regression df2 w2).1 /\
  (forall model w1',
     fit_outcome_regression df1 w1 = (inr model, w1') ->
     np_random w1' = np_random w1 /\
     (fit_outcome_regression df1 w1').1 = inr model).
Proof.
  intros E1 E2 Hgl Hyi Hy. split; [|split].
  - intros seed gl yi _ _. rewrite !train_test_split_seeded. cbn.
    by rewrite Hy.
  - rewrite (fit_outcome_regression_value _ _ _ E1).
    rewrite (fit_outcome_regression_value _ _ _ E2).
    unfold regression_value. by rewrite Hgl, Hyi, Hy.
  - intros model w1' Hrun.
    destruct (fit_outcome_regression_ok _ _ _ _ _ E1 Hrun)
      as (Hval & gl & yi & Xv & r2_train & r2_test & Egl & Eyi & EXv & ->).
    split; [done|].
    erewrite fit_outcome_regression_value
      by (cbn; apply list_lookup_insert_eq; by eapply lookup_lt_Some).
    rewrite <- Hval. unfold regression_value. cbn. by rewrite Egl, Eyi.
Qed.

End GapRanking.

(** ** Segmentation *)

Lemma StronglySorted_lookup_le {A} (R : relation A) `{!Reflexive R}
    (l : list A) i j a b :
  StronglySorted R l -> i <= j -> l !! i = Some a -> l !! j = Some b ->
  R a b.
Proof.
  intros Hl. revert i j. induction Hl as [|x l Hl IH Hx]; intros i j Hij Ha Hb.
  - done.
  - destruct i as [|i], j as [|j]; cbn in *; try lia.
    + injection Ha as <-. injection Hb as <-. done.
    + injection Ha as <-. rewrite Forall_forall in Hx.
      apply Hx. by eapply list_elem_of_lookup_2.
    + apply (IH i j); [lia | done | done].
Qed.

#[global] Instance by_value_refl {K} : Reflexive (@by_value K).
Proof. intros a. unfold by_value. lra. Qed.

Lemma dict_lookup {K V} `{Countable K} (pairs : list (K * V)) k v :
  NoDup pairs.*1 -> dict pairs !! k = Some v <-> (k, v) ∈ pairs.
Proof.
  intros Hnd. unfold dict. rewrite <- elem_of_list_to_map.
  - by rewrite elem_of_reverse.
  - by rewrite fmap_reverse, reverse_Permutation.
Qed.

Lemma zip_fst_elem_of {A B} (l : list A) (k : list B) a :
  a ∈ (zip l k).*1 -> a ∈ l.
Proof.
  revert k. induction l as [|x l IH]; intros [|y k]; cbn; try done.
  - by intros ?%elem_of_nil.
  - rewrite !elem_of_cons. intros [-> | Hin]; [by left | right; eauto].
Qed.

Lemma zip_fst_NoDup {A B} (l : list A) (k : list B) :
  NoDup l -> NoDup (zip l k).*1.
Proof.
  intros Hl. revert k. induction Hl as [|x l Hx Hl IH]; intros [|y k]; cbn;
    try apply NoDup_nil_2.
  apply NoDup_cons. split; [|apply IH].
  intros Hin%zip_fst_elem_of. done.
Qed.

Lemma elem_of_zip_lookup {A B} (l : list A) (k : list B) a b :
  (a, b) ∈ zip l k <-> exists i, l !! i = Some a /\ k !! i = Some b.
Proof.
  rewrite list_elem_of_lookup. split.
  - intros (i & Hi).
    apply lookup_zip_with_Some in Hi as (a' & b' & [= <- <-] & Ha & Hb).
    by exists i.
  - intros (i & Ha & Hb). exists i.
    apply lookup_zip_with_Some. by exists a, b.
Qed.

Lemma risk_labels_rank r1 r2 l :
  risk_labels !! r1 = Some l -> risk_labels !! r2 = Some l -> r1 = r2.
Proof.
  intros H1 H2. eapply NoDup_lookup; [|exact H1|exact H2].
  apply (bool_decide_unpack _). by vm_compute.
Qed.

Section Segments.
Context `{Libraries}.

(** The labels that [cluster_populations] gives to the rows with the
    cluster ids [c] and the outcomes [outcome]. *)
Local Abbreviation labelled c outcome :=
  (map (fun k =>
          dict (zip (sort_values (groupby_mean Nat.le c outcome)).*1
                    risk_labels) !! k) c).

Lemma cluster_populations_run w df d :
  heap w !! df = Some d ->
  cluster_populations df w =
    match gdp_log d with
    | None => (inl KeyError, with_heap (heap w ++ [d]) w)
    | Some gl =>
        match StandardScaler_fit_transform
                (zip (map Finite (life_expectancy d)) gl)
              ≫= KMeans 4 42%Z 10 with
        | inl e => (inl e, with_heap (heap w ++ [d]) w)
        | inr c =>
            (inr (length (heap w)),
             with_heap
               (heap w ++
                [set_cluster_label (labelled c (life_expectancy d))
                   (set_cluster c d)]) w)
        end
    end.
Proof.
  intros E. unfold cluster_populations.
  erewrite bind_ok by (by apply DataFrame_copy_run).
  erewrite bind_ok by (by eapply getitem_last).
  destruct (gdp_log d) as [gl|] eqn:Egl.
  2: { erewrite bind_raise; [done|].
       eapply getitem_missing; [apply snoc_lookup_last | done]. }
  erewrite bind_ok by (by eapply getitem_last).
  destruct (StandardScaler_fit_transform
              (zip (map Finite (life_expectancy d)) gl))
    as [e | scaled] eqn:Es; [by erewrite bind_raise by done|].
  erewrite bind_ok by done. cbn [mbind result_bind].
  destruct (KMeans 4 42%Z 10 scaled) as [e | c] eqn:Ek;
    [by erewrite bind_raise by done|].
  erewrite bind_ok by done.
  erewrite bind_ok by (by eapply setitem_last).
  erewrite bind_ok by (by eapply getitem_last).
  erewrite bind_ok by (by eapply getitem_last).
  cbv zeta.
  erewrite bind_ok by (by eapply getitem_last).
  by erewrite bind_ok by (by eapply setitem_last).
Qed.

Lemma cluster_populations_dangling w df :
  heap w !! df = None -> cluster_populations df w = (inl ReferenceError, w).
Proof.
  intros E. unfold cluster_populations.
  apply bind_raise. unfold DataFrame_copy. by rewrite E.
Qed.

(** The cluster's place in the ascending profile is its label's place in
    the sequence of labels. *)
Lemma label_of_cluster (Hsort : argsort_contract) (c : list nat)
    (outcome : list R) k l :
  let profile := sort_values (groupby_mean Nat.le c outcome) in
  dict (zip profile.*1 risk_labels) !! k = Some l <->
  exists r, profile !! r = Some (k, mean (group_values k c outcome)) /\
            risk_labels !! r = Some l.
Proof.
  intros profile.
  assert (NoDup profile.*1) as Hnd.
  { unfold profile. rewrite (sort_values_perm Hsort).
    apply groupby_mean_NoDup. }
  rewrite dict_lookup by (by apply zip_fst_NoDup).
  rewrite elem_of_zip_lookup. split.
  - intros (r & Hk & Hl). exists r. split; [|done].
    rewrite list_lookup_fmap in Hk.
    destruct (profile !! r) as [[k' m]|] eqn:Er; [|done].
    injection Hk as ->. f_equal. f_equal.
    apply list_elem_of_lookup_2 in Er.
    apply (proj1 (sort_values_elem_of Hsort _ _)) in Er.
    by apply groupby_mean_elem_of in Er as [_ ->].
  - intros (r & Hk & Hl). exists r. split; [|done].
    by rewrite list_lookup_fmap, Hk.
Qed.

(** C10.  The Feature Engineer and the Segmenter work on a copy: whether
    they return or raise, every object that was in the heap before the
    call, the caller's table among them, is as it was; the table they
    return is a new object. *)
Theorem copies_leave_the_input w df :
  take (length (heap w)) (heap (engineer_features df w).2) = heap w /\
  take (length (heap w)) (heap (cluster_populations df w).2) = heap w /\
  match (engineer_features df w).1 with
  | inr df' => df' = length (heap w)
  | inl _ => True
  end /\
  match (cluster_populations df w).1 with
  | inr df' => df' = length (heap w)
  | inl _ => True
  end.
Proof.
  destruct (heap w !! df) as [d|] eqn:E.
  - rewrite (engineer_features_run _ _ _ E), (cluster_populations_run _ _ _ E).
    destruct (qcut _ _ _ ≫= astype_int) as [e | tiers];
      destruct (gdp_log d) as [gl|];
      try destruct (StandardScaler_fit_transform _ ≫= KMeans 4 42%Z 10)
        as [e' | c];
      cbn [fst snd heap with_heap]; by rewrite ?take_app_length.
  - rewrite (engineer_features_dangling _ _ E), (cluster_populations_dangling _ _ E).
    cbn [fst snd]. by rewrite firstn_all.
Qed.

End Segments.

(** ** The pipeline on the six rows *)

Lemma zip_seq_lookup (l : list R) :
  Forall (fun p : R * nat => l !! p.2 = Some p.1) (zip l (seq 0 (length l))).
Proof.
  apply Forall_forall. intros [v i] Hin.
  apply list_elem_of_lookup in Hin as (j & Hj).
  apply lookup_zip_with_Some in Hj as (v' & i' & [= <- <-] & Hv & Hi).
  apply lookup_seq in Hi as [-> _]. done.
Qed.

Lemma omap_lookup_pairs (l : list R) (ps : list (R * nat)) :
  Forall (fun p => l !! p.2 = Some p.1) ps ->
  omap (fun i => l !! i) ps.*2 = ps.*1.
Proof.
  induction 1 as [|p ps Hp _ IH]; [done|].
  cbn. rewrite Hp. cbn. by f_equal.
Qed.

Lemma plain_argsort_contract : @argsort_contract plain_libraries.
Proof.
  intros l. cbn [np_argsort plain_libraries]. unfold plain_argsort.
  set (R1 := fun a b : R * nat => (a.1 <= b.1)%R).
  assert (Total R1) by (intros a b; apply (total Rle)).
  assert (Transitive R1) by (intros a b c; apply (transitivity (R := Rle))).
  split.
  - rewrite merge_sort_Permutation, snd_zip; [done|]. by rewrite length_seq.
  - rewrite omap_lookup_pairs.
    + apply (StronglySorted_fmap _ R1); [done|].
      by apply StronglySorted_merge_sort.
    + rewrite merge_sort_Permutation. apply zip_seq_lookup.
Qed.

Section Plain.
#[local] Existing Instance plain_libraries.
Local Open Scope R_scope.

Lemma six_rows_regression_value :
  regression_value six_rows_engineered = inr six_rows_model.
Proof. reflexivity. Qed.

Lemma six_rows_fit :
  fit_outcome_regression 0%nat six_rows_world
  = (inr six_rows_model, (fit_outcome_regression 0%nat six_rows_world).2).
Proof.
  pose proof (fit_outcome_regression_value six_rows_world 0%nat
                six_rows_engineered eq_refl) as Hval.
  rewrite six_rows_regression_value in Hval.
  destruct (fit_outcome_regression 0%nat six_rows_world) as [r w'].
  cbn in Hval. by rewrite Hval.
Qed.

(** C6 fails on the code: the regression assigns [pred] and [residual] on
    the table it is given.  Whatever the libraries compute, a run that
    returns leaves both columns on the caller's table; on the six rows the
    caller's table has neither column before the call and both after
    it. *)
Theorem fit_outcome_regression_changes_the_callers_table :
  (forall (L : Libraries) w df,
     match heap w !! df, @fit_outcome_regression L df w with
     | Some d, (inr _, w') =>
         exists d',
           heap w' !! df = Some d' /\
           is_Some (pred d') /\ is_Some (residual d')
     | _, _ => True
     end) /\
  heap six_rows_world !! 0%nat = Some six_rows_engineered /\
  pred six_rows_engineered = None /\ residual six_rows_engineered = None /\
  exists model w' d',
    fit_outcome_regression 0%nat six_rows_world = (inr model, w') /\
    heap w' !! 0%nat = Some d' /\
    is_Some (pred d') /\ is_Some (residual d') /\
    heap w' !! 0%nat <> heap six_rows_world !! 0%nat.
Proof.
  split.
  { intros L w df. destruct (heap w !! df) as [d|] eqn:E; [|done].
    destruct (fit_outcome_regression df w) as [[e | model] w'] eqn:Hrun;
      [done|].
    destruct (fit_outcome_regression_assigns_in_place _ _ _ _ _ E Hrun)
      as (p & r & ->).
    eexists. split; [apply list_lookup_insert_eq; by eapply lookup_lt_Some|].
    split; by eexists. }
  do 3 (split; [reflexivity|]).
  destruct (fit_outcome_regression_assigns_in_place _ _ _ _ _
              (eq_refl : heap six_rows_world !! 0%nat
                         = Some six_rows_engineered) six_rows_fit)
    as (p & r & Hheap).
  eexists _, _, _. split; [apply six_rows_fit|].
  rewrite Hheap. cbn [heap six_rows_world with_heap list_insert insert].
  split; [reflexivity|]. split; [by eexists|]. split; [by eexists|].
  intros Heq. by injection Heq.
Qed.

(** Two runs on the six rows, in two worlds. *)
Lemma fit_outcome_regression_deterministic_witness :
  (forall seed gl yi,
     gdp_log six_rows_engineered = Some gl ->
     year_index six_rows_engineered = Some yi ->
     (train_test_split (zip gl (map to_float yi))
        (life_expectancy six_rows_engineered) 0.2%Q (Some seed)
        six_rows_world).1
     = (train_test_split (zip gl (map to_float yi))
          (life_expectancy six_rows_engineered) 0.2%Q (Some seed)
          six_rows_other_world).1) /\
  (fit_outcome_regression 0%nat six_rows_world).1
  = (fit_outcome_regression 1%nat six_rows_other_world).1 /\
  (forall model w1',
     fit_outcome_regression 0%nat six_rows_world = (inr model, w1') ->
     np_random w1' = np_random six_rows_world /\
     (fit_outcome_regression 0%nat w1').1 = inr model).
Proof.
  apply (fit_outcome_regression_deterministic six_rows_world
           six_rows_other_world 0%nat 1%nat six_rows_engineered
           six_rows_engineered); reflexivity.
Defined.

Lemma six_rows_clusters :
  cluster_populations 0%nat six_rows_world
  = (inr 1%nat, (cluster_populations 0%nat six_rows_world).2).
Proof.
  rewrite (cluster_populations_run _ _ six_rows_engineered) by done.
  reflexivity.
Qed.

End Plain.

(** ** More on the scenario simulator *)

Section SimulatorMore.
Local Open Scope R_scope.

Lemma simulate_raises_baseline g t pct model :
  g <= 0 ->
  simulate_life_expectancy_change g t pct model = raise ValueError.
Proof.
  intros Hg. unfold simulate_life_expectancy_change.
  by rewrite (predict_one_not_finite _ _ _ (np_log_nonpos _ Hg)).
Qed.


Lemma simulate_inv_range g t pct model triple :
  simulate_life_expectancy_change g t pct model = inr triple ->
  0 < g /\ float64_underflow < g * (1 + pct / 100) < float64_overflow.
Proof.
  intros Hrun.
  destruct (Rle_lt_dec g 0) as [Hg | Hg];
    [by rewrite simulate_raises_baseline in Hrun|].
  destruct (Rle_lt_dec (g * (1 + pct / 100)) float64_underflow) as [Hlo|Hlo];
    [by rewrite simulate_raises in Hrun by (done || by left)|].
  destruct (Rle_lt_dec float64_overflow (g * (1 + pct / 100))) as [Hhi|Hhi];
    [by rewrite simulate_raises in Hrun by (done || by right)|].
  done.
Qed.










End SimulatorMore.

(** ** More on the Feature Engineer *)

Lemma foldl_Zmin_le (l : list Z) (y : Z) :
  (foldl Z.min y l <= y)%Z /\ Forall (fun v => (foldl Z.min y l <= v)%Z) l /\
  (foldl Z.min y l = y \/ foldl Z.min y l ∈ l).
Proof.
  revert y. induction l as [|a l IH]; intros y; cbn.
  - split; [lia|]. split; [constructor | by left].
  - destruct (IH (Z.min y a)) as (Hle & Hall & Hin).
    split; [lia|]. split.
    + constructor; [lia | done].
    + destruct Hin as [Hin | Hin].
      * destruct (Z.min_spec y a) as [[_ E] | [_ E]]; rewrite E in *.
        -- by left.
        -- right. rewrite Hin. by left.
      * right. by right.
Qed.

Lemma Series_min_spec (l : list Z) m :
  Series_min l = Some m -> m ∈ l /\ forall y, y ∈ l -> (m <= y)%Z.
Proof.
  destruct l as [|y l]; [done|]. cbn. intros [= <-].
  destruct (foldl_Zmin_le l y) as (Hle & Hall & Hin). split.
  - destruct Hin as [-> | Hin]; [by left | by right].
  - intros v [-> | Hv]%elem_of_cons; [done|].
    rewrite Forall_forall in Hall. by apply Hall.
Qed.

Lemma traverse_inl {A B} (f : A -> result B) (l : list A) e :
  traverse f l = inl e -> exists a, a ∈ l /\ f a = inl e.
Proof.
  induction l as [|a l IH]; cbn; [done|].
  destruct (f a) as [e' | b] eqn:Ea; cbn.
  - intros [= ->]. exists a. split; [by left | done].
  - destruct (traverse f l) as [e' | bs]; cbn; [|done].
    intros [= ->]. destruct (IH eq_refl) as (a' & Hin & Ha').
    exists a'. split; [by right | done].
Qed.

(** Every failure of the quartile cut is a ValueError. *)
Lemma qcut_raises_ValueError x e :
  qcut x 4 [1; 2; 3; 4]%Z ≫= astype_int = inl e -> e = ValueError.
Proof.
  unfold qcut. destruct x as [|v0 x]; [by intros [= <-]|].
  unfold bins_to_cuts. repeat case_decide; try by intros [= <-].
  cbn [mbind result_bind mret result_ret]. unfold astype_int.
  intros (o & _ & Ho)%traverse_inl. destruct o; [done|]. by injection Ho.
Qed.

Section QuantileOrder.
Local Open Scope R_scope.

(** The quantiles of a column ascend with their rank. *)
Lemma Series_quantile_mono x (k k' q : nat) :
  x <> [] -> (0 < q)%nat -> (k <= k')%nat -> (k' <= q)%nat ->
  Series_quantile x k q <= Series_quantile x k' q.
Proof.
  intros Hx Hq Hk Hk'. unfold Series_quantile. rewrite np_sort_length.
  assert (0 < length x)%nat as Hn by (destruct x; [done | cbn; lia]).
  set (n := length x) in *. set (s := np_sort x).
  set (m := ((n - 1) * k)%nat). set (m' := ((n - 1) * k')%nat).
  assert (m <= m')%nat as Hm by (unfold m, m'; nia).
  assert (m' <= (n - 1) * q)%nat as Hm' by (unfold m'; nia).
  pose proof (Nat.div_mod_eq m q) as Em.
  pose proof (Nat.div_mod_eq m' q) as Em'.
  pose proof (Nat.mod_upper_bound m q ltac:(lia)) as Hr.
  pose proof (Nat.mod_upper_bound m' q ltac:(lia)) as Hr'.
  set (i := (m / q)%nat) in *. set (i' := (m' / q)%nat) in *.
  set (r := (m mod q)%nat) in *. set (r' := (m' mod q)%nat) in *.
  assert (i <= i')%nat as Hi by (unfold i, i'; by apply Nat.Div0.div_le_mono).
  assert (i' <= n - 1)%nat as Hi'.
  { unfold i'. apply Nat.Div0.div_le_upper_bound. nia. }
  assert (forall a b, (a <= b < n)%nat -> nth a s 0 <= nth b s 0) as Hs.
  { intros a b Hab. apply StronglySorted_nth; [apply np_sort_sorted|].
    unfold s. by rewrite np_sort_length. }
  assert (0 < INR q) as HQ by (apply lt_0_INR; lia).
  assert (forall a, (a < q)%nat -> 0 <= INR a / INR q < 1) as Hgamma.
  { intros a Ha. apply lt_INR in Ha. pose proof (pos_INR a). split.
    - apply Rmult_le_pos; [done|]. left. by apply Rinv_0_lt_compat.
    - apply Rmult_lt_reg_r with (INR q); [done|]. field_simplify; lra. }
  destruct (Hgamma r Hr) as [G0 G1]. destruct (Hgamma r' Hr') as [G0' G1'].
  pose proof (Hs i (Nat.min (i + 1) (n - 1)) ltac:(lia)) as Hlohi.
  pose proof (Hs i' (Nat.min (i' + 1) (n - 1)) ltac:(lia)) as Hlohi'.
  destruct (decide (i = i')) as [Heq | Hne].
  - rewrite <- Heq in *.
    assert (r <= r')%nat as Hrr by nia.
    assert (INR r / INR q <= INR r' / INR q) as Hg.
    { apply Rmult_le_compat_r; [left; by apply Rinv_0_lt_compat|].
      by apply le_INR. }
    nra.
  - pose proof (Hs (Nat.min (i + 1) (n - 1)) i' ltac:(lia)) as Hstep.
    nra.
Qed.

(** Between two sorted entries: a quantile is at least the entry at the
    position below its virtual index and at most the one above. *)
Lemma Series_quantile_between x (k : nat) :
  x <> [] -> (k <= 4)%nat ->
  let s := np_sort x in
  let m := ((length x - 1) * k)%nat in
  nth (m / 4) s 0 <= Series_quantile x k 4 <= nth ((m + 3) / 4) s 0.
Proof.
  intros Hx Hk s m. unfold Series_quantile. rewrite np_sort_length.
  fold s. fold m.
  assert (0 < length x)%nat as Hn by (destruct x; [done | cbn; lia]).
  set (n := length x) in *.
  assert (m <= (n - 1) * 4)%nat as Hm by (unfold m; nia).
  pose proof (Nat.div_mod_eq m 4) as Em.
  pose proof (Nat.mod_upper_bound m 4 ltac:(lia)) as Hr.
  set (i := (m / 4)%nat) in *. set (r := (m mod 4)%nat) in *.
  assert (forall a b, (a <= b < n)%nat -> nth a s 0 <= nth b s 0) as Hs.
  { intros a b Hab. apply StronglySorted_nth; [apply np_sort_sorted|].
    unfold s. by rewrite np_sort_length. }
  assert (i <= n - 1)%nat as Hi by lia.
  pose proof (Hs i (Nat.min (i + 1) (n - 1)) ltac:(lia)) as Hlohi.
  destruct (decide (r = 0%nat)) as [Hr0 | Hr0].
  - rewrite Hr0. replace ((m + 3) / 4)%nat with i
      by (apply (Nat.div_unique _ 4 _ 3); lia).
    cbn [INR]. lra.
  - replace ((m + 3) / 4)%nat with (i + 1)%nat
      by (apply (Nat.div_unique _ 4 _ (r - 1)); lia).
    replace (Nat.min (i + 1) (n - 1)) with (i + 1)%nat in * by lia.
    assert (0 <= INR r / 4 < 1) as [G0 G1].
    { pose proof (pos_INR r). apply lt_INR in Hr.
      change (INR 4) with (2 + 1 + 1) in Hr. lra. }
    change (INR 4) with (2 + 1 + 1). 
    replace (2 + 1 + 1) with 4 by lra. nra.
Qed.

End QuantileOrder.

Lemma sub_scalar_length l : length (sub_scalar l (Series_min l)) = length l.
Proof.
  destruct l as [|y l]; [done|]. cbn [Series_min sub_scalar].
  by rewrite length_map.
Qed.

Lemma int64_wrap_small z : (- 2 ^ 63 <= z < 2 ^ 63)%Z -> int64_wrap z = z.
Proof.
  intros Hz. unfold int64_wrap. rewrite Z.mod_small; lia.
Qed.

(** Out of the range the difference wraps: on a column that holds the
    least and the greatest int64, the time index of the greatest year is
    -1 and that of year 0 is the least int64. *)
Lemma sub_scalar_wraps :
  let Year := [- 2 ^ 63; 0; 2 ^ 63 - 1]%Z in
  sub_scalar Year (Series_min Year) = [0; - 2 ^ 63; -1]%Z.
Proof. reflexivity. Qed.

Section FeaturesMore.

(** X5.  The time index of a returned table has one entry per row: the
    year minus the least year of the table, wrapped to 64 bits.  When the
    years lie between -2^62 and 2^62, nothing wraps: the index is the
    difference itself, no index is negative, and two rows compare and
    differ in their indices as they do in their years. *)
Theorem engineer_features_year_index w df d df' w' :
  heap w !! df = Some d ->
  engineer_features df w = (inr df', w') ->
  exists d' yi,
    heap w' !! df' = Some d' /\ year_index d' = Some yi /\
    length yi = length (Year d) /\
    (forall i t, yi !! i = Some t ->
       exists y m, Year d !! i = Some y /\ Series_min (Year d) = Some m /\
                   m ∈ Year d /\ (m <= y)%Z /\ t = int64_wrap (y - m)) /\
    (Forall (fun y => (- 2 ^ 62 <= y < 2 ^ 62)%Z) (Year d) ->
     (forall i t, yi !! i = Some t ->
        (0 <= t)%Z /\
        exists y m, Year d !! i = Some y /\ Series_min (Year d) = Some m /\
                    t = (y - m)%Z) /\
     (forall i j s t,
        yi !! i = Some s -> yi !! j = Some t ->
        exists y z, Year d !! i = Some y /\ Year d !! j = Some z /\
                    ((s <= t)%Z <-> (y <= z)%Z) /\ (t - s = z - y)%Z)).
Proof.
  intros E Hrun.
  destruct (engineer_features_ok _ _ _ _ _ E Hrun) as (tiers & _ & -> & ->).
  eexists _, _. split; [apply snoc_lookup_last|]. split; [reflexivity|].
  assert (forall i t,
            sub_scalar (Year d) (Series_min (Year d)) !! i = Some t ->
            exists y m, Year d !! i = Some y /\
                        Series_min (Year d) = Some m /\
                        m ∈ Year d /\ (m <= y)%Z /\
                        t = int64_wrap (y - m))
    as Hrow.
  { intros i t Ht. destruct (Series_min (Year d)) as [m|] eqn:Em; [|done].
    cbn in Ht. rewrite list_lookup_fmap in Ht.
    destruct (Year d !! i) as [y|] eqn:Hy; [|done]. injection Ht as <-.
    destruct (Series_min_spec _ _ Em) as [Hin Hle].
    exists y, m. repeat split; try done.
    apply Hle. by eapply list_elem_of_lookup_2. }
  split; [apply sub_scalar_length|]. split; [done|].
  intros Hrange. rewrite Forall_forall in Hrange.
  assert (forall i t,
            sub_scalar (Year d) (Series_min (Year d)) !! i = Some t ->
            exists y m, Year d !! i = Some y /\
                        Series_min (Year d) = Some m /\
                        (m <= y)%Z /\ t = (y - m)%Z)
    as Hexact.
  { intros i t Ht. destruct (Hrow _ _ Ht) as (y & m & Hy & Hm & Hin & Hle & ->).
    exists y, m. repeat split; try done.
    pose proof (Hrange m Hin).
    pose proof (Hrange y (list_elem_of_lookup_2 _ _ _ Hy)).
    apply int64_wrap_small. lia. }
  split.
  - intros i t Ht. destruct (Hexact _ _ Ht) as (y & m & Hy & Hm & Hle & ->).
    split; [lia | by exists y, m].
  - intros i j s t Hs Ht.
    destruct (Hexact _ _ Hs) as (y & m & Hy & Hm & _ & ->).
    destruct (Hexact _ _ Ht) as (z & m' & Hz & Hm' & _ & ->).
    rewrite Hm in Hm'. injection Hm' as <-.
    exists y, z. repeat split; try done; lia.
Qed.

(** X6.  The table that the Feature Engineer returns has the rows of its
    input: every column other than [gdp_log], [year_index] and
    [risk_tier] is the input's, and each of these three has one entry per
    entry of the column it is computed from. *)
Theorem engineer_features_keeps_rows w df d df' w' :
  heap w !! df = Some d ->
  engineer_features df w = (inr df', w') ->
  exists d' gl yi tiers,
    heap w' !! df' = Some d' /\
    Country d' = Country d /\ Year d' = Year d /\
    life_expectancy d' = life_expectancy d /\ gdp d' = gdp d /\
    pred d' = pred d /\ residual d' = residual d /\
    cluster d' = cluster d /\ cluster_label d' = cluster_label d /\
    gdp_log d' = Some gl /\ length gl = length (gdp d) /\
    year_index d' = Some yi /\ length yi = length (Year d) /\
    risk_tier d' = Some tiers /\
    length tiers = length (life_expectancy d).
Proof.
  intros E Hrun.
  destruct (engineer_features_ok _ _ _ _ _ E Hrun) as (tiers & Hq & -> & ->).
  apply qcut_inv in Hq as (_ & _ & Hall).
  eexists _, _, _, tiers. split; [apply snoc_lookup_last|].
  do 8 (split; [reflexivity|]).
  split; [reflexivity|]. split; [by rewrite length_map|].
  split; [reflexivity|]. split; [apply sub_scalar_length|].
  split; [reflexivity|]. symmetry. by eapply Forall2_length.
Qed.

Lemma Series_quantile_constant x c k :
  x <> [] -> (forall v, v ∈ x -> v = c) -> k <= 4 ->
  Series_quantile x k 4 = c.
Proof.
  intros Hx Hc Hk. unfold Series_quantile. rewrite np_sort_length.
  assert (0 < length x) as Hn by (destruct x; [done | cbn; lia]).
  assert (forall a, a < length x -> nth a (np_sort x) 0%R = c) as Hnth.
  { intros a Ha. apply Hc, np_sort_elem_of, list_elem_of_In, nth_In.
    by rewrite np_sort_length. }
  assert ((length x - 1) * k / 4 <= length x - 1) as Hi.
  { apply Nat.Div0.div_le_upper_bound. nia. }
  rewrite !Hnth by lia. ring.
Qed.

(** X7.  On a table whose outcomes are all the same, an empty table and a
    table of one row among them, the Feature Engineer raises a
    ValueError; it never raises anything else on a table that exists. *)
Theorem engineer_features_constant_outcome w df d :
  heap w !! df = Some d ->
  ((forall u v, u ∈ life_expectancy d -> v ∈ life_expectancy d -> u = v) ->
   (engineer_features df w).1 = inl ValueError) /\
  (forall e, (engineer_features df w).1 = inl e -> e = ValueError).
Proof.
  intros E. rewrite (engineer_features_run _ _ _ E).
  assert (forall e,
            qcut (life_expectancy d) 4 [1; 2; 3; 4]%Z ≫= astype_int = inl e ->
            e = ValueError) as Hval by apply qcut_raises_ValueError.
  split.
  - intros Hconst.
    destruct (qcut (life_expectancy d) 4 [1; 2; 3; 4]%Z ≫= astype_int)
      as [e | tiers] eqn:Hq; [cbn; f_equal; by apply Hval|].
    exfalso. apply qcut_inv in Hq as (Hne & Hnd & _).
    destruct (life_expectancy d) as [|c x] eqn:Ex; [done|].
    assert (forall v, v ∈ c :: x -> v = c) as Hc
      by (intros v Hv; apply Hconst; [done | by left]).
    cbn [seq map] in Hnd.
    rewrite !(Series_quantile_constant (c :: x) c) in Hnd by (done || lia).
    apply NoDup_cons in Hnd as [Hnd _]. apply Hnd. by left.
  - intros e.
    destruct (qcut (life_expectancy d) 4 [1; 2; 3; 4]%Z ≫= astype_int)
      as [e' | tiers]; cbn; [|done].
    intros [= <-]. by apply Hval.
Qed.

Lemma searchsorted_left_spec bins v :
  (forall j b, j < searchsorted_left bins v -> bins !! j = Some b ->
     (b < v)%R) /\
  (forall b, bins !! searchsorted_left bins v = Some b -> (v <= b)%R).
Proof.
  induction bins as [|a bins [IHlt IHge]]; cbn; [by split|].
  case_decide as Ha.
  - split.
    + intros [|j] b Hj Hb; cbn in Hb; [by injection Hb as <-|].
      apply (IHlt j); [lia | done].
    + intros b Hb. cbn in Hb. by apply IHge.
  - split; [intros j b Hj; lia|]. intros b [= <-]. lra.
Qed.

(** X8.  The tiers follow the ranks of the outcome column.  With [n]
    rows and the outcomes in ascending order at the positions 0 to
    [n-1], quartile [k] lies at the virtual position [(n-1)*k/4].  When
    the Feature Engineer returns, a row of tier [t] has a tier from 1 to
    4, and its outcome lies between the sorted entry at the position
    [(n-1)*(t-1)/4] rounded down and the one at [(n-1)*t/4] rounded up,
    above the former unless it is the least outcome of the column, which
    belongs to tier 1.  (The outcomes are taken below half the float64
    range, so that the difference of two of them is a float64.) *)
Theorem engineer_features_tier_intervals w df d df' w' :
  heap w !! df = Some d ->
  Forall (fun v => (Rabs v < float64_overflow / 2)%R) (life_expectancy d) ->
  engineer_features df w = (inr df', w') ->
  let s := np_sort (life_expectancy d) in
  let n := length (life_expectancy d) in
  exists d' tiers,
    heap w' !! df' = Some d' /\ risk_tier d' = Some tiers /\
    forall i v t,
      life_expectancy d !! i = Some v -> tiers !! i = Some t ->
      let lower := nth ((n - 1) * (Z.to_nat t - 1) / 4) s 0%R in
      let upper := nth (((n - 1) * Z.to_nat t + 3) / 4) s 0%R in
      (1 <= t <= 4)%Z /\
      (lower <= v <= upper)%R /\
      ((lower < v)%R \/ (v = nth 0 s 0%R /\ t = 1%Z)).
Proof.
  intros E _ Hrun s n.
  destruct (engineer_features_ok _ _ _ _ _ E Hrun) as (tiers & Hq & -> & ->).
  apply qcut_inv in Hq as (Hne & Hnd & Hall). cbv zeta in Hall.
  set (edge k := Series_quantile (life_expectancy d) k 4).
  assert (forall k, k <= 4 ->
            (nth ((n - 1) * k / 4) s 0 <= edge k
             <= nth (((n - 1) * k + 3) / 4) s 0)%R) as Hbetween.
  { intros k Hk. by apply Series_quantile_between. }
  assert (edge 0 = nth 0 s 0%R) as Hedge0.
  { destruct (Hbetween 0 ltac:(lia)) as [Hlo Hhi].
    rewrite Nat.mul_0_r in Hlo, Hhi. cbn in Hlo, Hhi.
    by apply Rle_antisym. }
  eexists _, tiers. split; [apply snoc_lookup_last|]. split; [reflexivity|].
  intros i v t Hv Ht.
  destruct (Forall2_lookup_lr _ _ _ _ _ _ Hall Hv Ht) as [Hid ->].
  cbv zeta. rewrite Nat2Z.id. split; [lia|].
  set (edges := map (fun k => Series_quantile (life_expectancy d) k 4)
                    (seq 0 5)) in *.
  assert (forall k, k < 5 -> edges !! k = Some (edge k)) as Hedge.
  { intros k Hk. unfold edges.
    by rewrite list_lookup_fmap, lookup_seq_lt by lia. }
  unfold bin_id in *. case_decide as Hhead.
  - cbn in Hhead. injection Hhead as <-. fold (edge 0).
    change (1 - 1) with 0. rewrite Nat.mul_0_r. change (0 / 4) with 0.
    destruct (Hbetween 1 ltac:(lia)) as [_ Hup].
    destruct (Hbetween 0 ltac:(lia)) as [_ Hup0].
    pose proof (Series_quantile_mono (life_expectancy d) 0 1 4 Hne
                  ltac:(lia) ltac:(lia) ltac:(lia)) as Hle.
    fold (edge 0) (edge 1) in Hle.
    split; [split; [lra|]|right; by split].
    lra.
  - destruct (searchsorted_left_spec edges v) as [Hlt Hge].
    set (id := searchsorted_left edges v) in *.
    assert (id - 1 < id) as Hpred by lia.
    assert (id - 1 < 5) as Hlow by lia.
    assert (id < 5) as Hup by lia.
    pose proof (Hlt (id - 1) (edge (id - 1)) Hpred (Hedge (id - 1) Hlow)).
    pose proof (Hge (edge id) (Hedge id Hup)).
    destruct (Hbetween (id - 1) ltac:(lia)) as [Hlo _].
    destruct (Hbetween id ltac:(lia)) as [_ Hhi].
    split; [lra | left; lra].
Qed.

End FeaturesMore.

Section FeaturesMoreExamples.

(** The six rows: years 2000 to 2002 twice. *)
Lemma engineer_features_year_index_witness :
  exists d' yi,
    heap (with_heap [six_rows; six_rows_engineered] new_world) !! 1
    = Some d' /\ year_index d' = Some yi /\
    length yi = length (Year six_rows) /\
    (forall i t, yi !! i = Some t ->
       exists y m, Year six_rows !! i = Some y /\
                   Series_min (Year six_rows) = Some m /\
                   m ∈ Year six_rows /\ (m <= y)%Z /\
                   t = int64_wrap (y - m)) /\
    (Forall (fun y => (- 2 ^ 62 <= y < 2 ^ 62)%Z) (Year six_rows) ->
     (forall i t, yi !! i = Some t ->
        (0 <= t)%Z /\
        exists y m, Year six_rows !! i = Some y /\
                    Series_min (Year six_rows) = Some m /\
                    t = (y - m)%Z) /\
     (forall i j s t,
        yi !! i = Some s -> yi !! j = Some t ->
        exists y z, Year six_rows !! i = Some y /\
                    Year six_rows !! j = Some z /\
                    ((s <= t)%Z <-> (y <= z)%Z) /\ (t - s = z - y)%Z)).
Proof.
  exact (engineer_features_year_index
           (with_heap [six_rows] new_world) 0 six_rows 1 _
           eq_refl six_rows_run).
Defined.

(** The six rows keep their four columns. *)
Lemma engineer_features_keeps_rows_witness :
  exists d' gl yi tiers,
    heap (with_heap [six_rows; six_rows_engineered] new_world) !! 1
    = Some d' /\
    Country d' = Country six_rows /\ Year d' = Year six_rows /\
    life_expectancy d' = life_expectancy six_rows /\
    gdp d' = gdp six_rows /\
    pred d' = pred six_rows /\ residual d' = residual six_rows /\
    cluster d' = cluster six_rows /\
    cluster_label d' = cluster_label six_rows /\
    gdp_log d' = Some gl /\ length gl = length (gdp six_rows) /\
    year_index d' = Some yi /\ length yi = length (Year six_rows) /\
    risk_tier d' = Some tiers /\
    length tiers = length (life_expectancy six_rows).
Proof.
  exact (engineer_features_keeps_rows
           (with_heap [six_rows] new_world) 0 six_rows 1 _
           eq_refl six_rows_run).
Defined.

(** A table of one row has no quartiles to cut at. *)
Lemma engineer_features_constant_outcome_witness :
  (engineer_features 0 (with_heap [one_row] new_world)).1 = inl ValueError.
Proof.
  apply (proj1 (engineer_features_constant_outcome
                  (with_heap [one_row] new_world) 0 one_row eq_refl)).
  intros u v Hu Hv. cbn in Hu, Hv.
  apply list_elem_of_singleton in Hu, Hv. congruence.
Defined.

(** The six rows: a row of tier 2 lies above the second and at most at
    the fourth of the sorted outcomes. *)
Lemma engineer_features_tier_intervals_witness :
  let s := np_sort (life_expectancy six_rows) in
  let n := length (life_expectancy six_rows) in
  exists d' tiers,
    heap (with_heap [six_rows; six_rows_engineered] new_world) !! 1
    = Some d' /\ risk_tier d' = Some tiers /\
    forall i v t,
      life_expectancy six_rows !! i = Some v -> tiers !! i = Some t ->
      let lower := nth ((n - 1) * (Z.to_nat t - 1) / 4) s 0%R in
      let upper := nth (((n - 1) * Z.to_nat t + 3) / 4) s 0%R in
      (1 <= t <= 4)%Z /\
      (lower <= v <= upper)%R /\
      ((lower < v)%R \/ (v = nth 0 s 0%R /\ t = 1%Z)).
Proof.
  refine (engineer_features_tier_intervals
            (with_heap [six_rows] new_world) 0 six_rows 1 _
            eq_refl _ six_rows_run).
  float64_range.
  repeat (constructor; [apply Rabs_def1; lra|]). constructor.
Defined.

End FeaturesMoreExamples.

(** ** More on the outcome regression *)

(** A test size of 0.2 holds out a fifth of the rows, rounded up. *)
Lemma n_test_fifth (n : nat) :
  Z.to_nat (Qceiling (0.2%Q * inject_Z (Z.of_nat n))) = (n + 4) / 5.
Proof.
  unfold Qceiling, Qfloor, Qopp, Qmult, inject_Z. cbn [Qnum Qden].
  change (Z.pos (10 * 1)) with 10%Z.
  apply Nat2Z.inj. rewrite Nat2Z.inj_div, Nat2Z.inj_add.
  change (Z.of_nat 4) with 4%Z. change (Z.of_nat 5) with 5%Z.
  rewrite Z2Nat.id; Z.div_mod_to_equations; lia.
Qed.

Lemma fifth_lt (n : nat) : 2 <= n -> 0 < (n + 4) / 5 < n.
Proof.
  intros Hn. split.
  - apply Nat.div_str_pos. lia.
  - apply Nat.Div0.div_lt_upper_bound. lia.
Qed.

Lemma iloc_inv {A} (l : list A) idx v :
  iloc l idx = inr v -> Forall2 (fun i x => l !! i = Some x) idx v.
Proof.
  intros Hv%traverse_inr. eapply Forall2_impl; [done|].
  intros i x. unfold item. cbv beta.
  destruct (l !! i); [by intros [= ->] | done].
Qed.

Lemma iloc_ok {A} (l : list A) idx :
  Forall (fun i => i < length l) idx -> exists v, iloc l idx = inr v.
Proof.
  induction 1 as [|i idx Hi _ [v IH]]; [by exists []|].
  apply lookup_lt_is_Some in Hi as [x Hx]. exists (x :: v).
  unfold iloc in *. cbn [traverse]. rewrite IH. unfold item. by rewrite Hx.
Qed.

Lemma iloc_raises {A} (l : list A) idx e : iloc l idx = inl e -> e = IndexError.
Proof.
  intros (i & _ & Hi)%traverse_inl. unfold item in Hi.
  destruct (l !! i); [done | by injection Hi].
Qed.

Lemma check_array_raises X e : check_array X = inl e -> e = ValueError.
Proof.
  unfold check_array. destruct X as [|row X]; [by intros [= <-]|].
  intros ([a b] & _ & Hrow)%traverse_inl.
  destruct a, b; cbn in Hrow; first [discriminate | by injection Hrow].
Qed.

Lemma check_array_ok X :
  X <> [] -> Forall (fun row => is_finite row.1 /\ is_finite row.2) X ->
  exists Xv, check_array X = inr Xv.
Proof.
  intros Hne Hfin.
  assert (exists Xv, traverse check_finite X = inr Xv) as [Xv HXv].
  { clear Hne. induction Hfin as [|[a b] X [Ha Hb] _ [Xv IH]];
      [by exists []|].
    destruct a as [a| | |], b as [b| | |]; try done.
    exists ((a, b) :: Xv). cbn. by rewrite IH. }
  exists Xv. by destruct X.
Qed.

Lemma check_array_inv X Xv :
  check_array X = inr Xv ->
  X <> [] /\ length Xv = length X /\
  Forall (fun row => is_finite row.1 /\ is_finite row.2) X.
Proof.
  unfold check_array. destruct X as [|row X]; [done|].
  intros Ht%traverse_inr. split; [done|]. split.
  - symmetry. by eapply Forall2_length.
  - apply Forall_forall. intros [a b] Hin.
    apply list_elem_of_lookup in Hin as (i & Hi).
    destruct (Forall2_lookup_l _ _ _ _ _ Ht Hi) as (v & _ & Hv).
    destruct a, b; done.
Qed.

Lemma with_stdout_nil w : with_stdout (stdout w ++ []) w = w.
Proof. destruct w. unfold with_stdout. cbn. by rewrite app_nil_r. Qed.

Section RegressionMore.
Context `{Libraries}.

(** The rows that a split selects are rows of its input. *)
Lemma seeded_split_inv {A B} (X : list A) (y : list B) seed
    X_train X_test y_train y_test :
  seeded_split X y 0.2%Q seed = inr (X_train, X_test, y_train, y_test) ->
  let n := length X in
  let permutation := (RandomState_permutation (RandomState_seed seed) n).1 in
  let ind_test := take ((n + 4) / 5) permutation in
  let ind_train := take (n - (n + 4) / 5) (drop ((n + 4) / 5) permutation) in
  length X = length y /\ 2 <= n /\
  Forall2 (fun i x => X !! i = Some x) ind_train X_train /\
  Forall2 (fun i x => X !! i = Some x) ind_test X_test /\
  Forall2 (fun i v => y !! i = Some v) ind_train y_train /\
  Forall2 (fun i v => y !! i = Some v) ind_test y_test.
Proof.
  unfold seeded_split. case_decide as Hlen; [|done].
  rewrite n_test_fifth. case_decide as Htrain; [done|]. cbv zeta.
  set (permutation := (RandomState_permutation _ _).1).
  set (ind_train := take _ (drop _ permutation)).
  set (ind_test := take _ permutation).
  destruct (iloc X ind_train) as [|Xtr] eqn:E1; [done|].
  destruct (iloc X ind_test) as [|Xte] eqn:E2; [done|].
  destruct (iloc y ind_train) as [|ytr] eqn:E3; [done|].
  destruct (iloc y ind_test) as [|yte] eqn:E4; [done|].
  cbn. intros [= <- <- <- <-].
  split; [done|]. split.
  { destruct (decide (2 <= length X)) as [|Hsmall]; [done|]. exfalso.
    apply Htrain. assert (length X = 0 \/ length X = 1) as [-> | ->] by lia;
      done. }
  by repeat split; apply iloc_inv.
Qed.

Lemma seeded_split_small {A B} (X : list A) (y : list B) seed :
  length X <> length y \/ length X < 2 ->
  seeded_split X y 0.2%Q seed = raise ValueError.
Proof.
  intros Hsmall. unfold seeded_split. case_decide as Hlen; [|done].
  rewrite n_test_fifth. rewrite decide_True; [done|].
  assert (length X = 0 \/ length X = 1) as [-> | ->] by lia; done.
Qed.

Section Shuffled.
Hypothesis Hperm : permutation_contract.

Lemma permutation_bound rng n :
  Forall (fun i => i < n) (RandomState_permutation rng n).1.
Proof.
  rewrite (Hperm rng n). apply Forall_forall. intros i Hi.
  apply elem_of_seq in Hi. lia.
Qed.

Lemma permutation_length rng n :
  length (RandomState_permutation rng n).1 = n.
Proof. by rewrite (Hperm rng n), length_seq. Qed.

Lemma seeded_split_ok {A B} (X : list A) (y : list B) seed :
  length X = length y -> 2 <= length X ->
  exists split, seeded_split X y 0.2%Q seed = inr split.
Proof.
  intros Hlen Hn. unfold seeded_split. rewrite decide_True by done.
  rewrite n_test_fifth. pose proof (fifth_lt _ Hn).
  rewrite decide_False by lia. cbv zeta.
  set (permutation := (RandomState_permutation _ _).1).
  pose proof (permutation_bound (RandomState_seed seed) (length X)) as Hb.
  fold permutation in Hb.
  destruct (iloc_ok X (take (length X - (length X + 4) / 5)
                         (drop ((length X + 4) / 5) permutation)))
    as [Xtr ->]; [by apply Forall_take, Forall_drop|].
  destruct (iloc_ok X (take ((length X + 4) / 5) permutation))
    as [Xte ->]; [by apply Forall_take|].
  destruct (iloc_ok y (take (length X - (length X + 4) / 5)
                         (drop ((length X + 4) / 5) permutation)))
    as [ytr ->]; [rewrite <- Hlen; by apply Forall_take, Forall_drop|].
  destruct (iloc_ok y (take ((length X + 4) / 5) permutation))
    as [yte ->]; [rewrite <- Hlen; by apply Forall_take|].
  by eexists.
Qed.

Lemma seeded_split_raises {A B} (X : list A) (y : list B) seed e :
  seeded_split X y 0.2%Q seed = inl e -> e = ValueError.
Proof.
  intros Hraise.
  destruct (decide (length X = length y)) as [Hlen|];
    [|rewrite seeded_split_small in Hraise by (by left);
      by injection Hraise].
  destruct (decide (2 <= length X)) as [Hn|];
    [|rewrite seeded_split_small in Hraise by (right; lia);
      by injection Hraise].
  destruct (seeded_split_ok X y seed Hlen Hn) as [split Hsplit].
  by rewrite Hsplit in Hraise.
Qed.

End Shuffled.

Lemma regression_value_inv d model :
  regression_value d = inr model ->
  exists gl yi X_train X_test y_train y_test Xtr Xte Xv,
    gdp_log d = Some gl /\ year_index d = Some yi /\
    seeded_split (zip gl (map to_float yi)) (life_expectancy d) 0.2%Q 42%Z
    = inr (X_train, X_test, y_train, y_test) /\
    check_array X_train = inr Xtr /\ check_array X_test = inr Xte /\
    check_array (zip gl (map to_float yi)) = inr Xv /\
    model = LinearRegression_lstsq Xtr y_train.
Proof.
  unfold regression_value.
  destruct (gdp_log d) as [gl|]; [|done].
  destruct (year_index d) as [yi|]; [|done]. cbv zeta.
  destruct (seeded_split _ _ _ _)
    as [|[[[X_train X_test] y_train] y_test]] eqn:Es; [done|].
  cbn [mbind result_bind].
  unfold LinearRegression_fit, score, predict.
  destruct (check_array X_train) as [|Xtr] eqn:Etr; [done|]. cbn.
  destruct (check_array X_test) as [|Xte] eqn:Ete; [done|]. cbn.
  destruct (check_array (zip gl (map to_float yi))) as [|Xv] eqn:EXv;
    [done|]. cbn.
  intros [= <-].
  by exists gl, yi, X_train, X_test, y_train, y_test, Xtr, Xte, Xv.
Qed.

Lemma iloc_rows_Forall {A} (P : A -> Prop) (X : list A) idx v :
  Forall P X -> Forall2 (fun i x => X !! i = Some x) idx v -> Forall P v.
Proof.
  intros HP Hv. induction Hv as [|i x idx v Hx _ IH]; constructor; [|done].
  exact (Forall_lookup_1 _ _ _ _ HP Hx).
Qed.

Lemma regression_value_raises d e :
  permutation_contract ->
  regression_value d = inl e -> e = KeyError \/ e = ValueError.
Proof.
  intros Hperm. unfold regression_value.
  destruct (gdp_log d) as [gl|]; [|intros [= <-]; by left].
  destruct (year_index d) as [yi|]; [|intros [= <-]; by left]. cbv zeta.
  destruct (seeded_split _ _ _ _)
    as [e'|[[[X_train X_test] y_train] y_test]] eqn:Es.
  { cbn. intros [= <-]. right. by eapply seeded_split_raises. }
  cbn [mbind result_bind].
  unfold LinearRegression_fit, score, predict.
  destruct (check_array X_train) as [e'|Xtr] eqn:Etr;
    [cbn; intros [= <-]; right; by eapply check_array_raises|]. cbn.
  destruct (check_array X_test) as [e'|Xte] eqn:Ete;
    [cbn; intros [= <-]; right; by eapply check_array_raises|]. cbn.
  destruct (check_array (zip gl (map to_float yi))) as [e'|Xv] eqn:EXv;
    [cbn; intros [= <-]; right; by eapply check_array_raises|]. done.
Qed.

Lemma regression_value_ok d gl yi :
  permutation_contract ->
  gdp_log d = Some gl -> year_index d = Some yi ->
  length gl = length (life_expectancy d) ->
  length yi = length (life_expectancy d) ->
  2 <= length (life_expectancy d) ->
  Forall is_finite gl ->
  exists model, regression_value d = inr model.
Proof.
  intros Hperm Egl Eyi Hgl Hyi Hn Hfin.
  set (X := zip gl (map to_float yi)).
  assert (length X = length (life_expectancy d)) as HX.
  { unfold X. rewrite length_zip_with, length_map. lia. }
  assert (Forall (fun row => is_finite row.1 /\ is_finite row.2) X) as HXfin.
  { apply Forall_forall. intros [a b] Hin.
    apply list_elem_of_lookup in Hin as (i & Hi).
    apply lookup_zip_with_Some in Hi as (g & f & [= <- <-] & Hg & Hf).
    split; [by eapply (Forall_lookup_1 _ _ _ _ Hfin)|].
    rewrite list_lookup_fmap in Hf.
    destruct (yi !! i); [by injection Hf as <- | done]. }
  destruct (seeded_split_ok Hperm X (life_expectancy d) 42%Z)
    as [[[[X_train X_test] y_train] y_test] Es]; [done | lia |].
  pose proof (seeded_split_inv _ _ _ _ _ _ _ Es)
    as (_ & _ & Htr & Hte & _ & _). cbv zeta in Htr, Hte.
  pose proof (permutation_length Hperm (RandomState_seed 42%Z) (length X))
    as Hlen.
  pose proof (fifth_lt (length X) ltac:(lia)) as Hfifth.
  assert (X_train <> []) as Htrne.
  { intros ->. apply Forall2_length in Htr.
    rewrite length_take, length_drop, Hlen in Htr. cbn [length] in Htr. lia. }
  assert (X_test <> []) as Htene.
  { intros ->. apply Forall2_length in Hte.
    rewrite length_take, Hlen in Hte. cbn [length] in Hte. lia. }
  assert (X <> []) as HXne by (intros HX0; rewrite HX0 in HX; cbn in HX; lia).
  destruct (check_array_ok X_train Htrne (iloc_rows_Forall _ _ _ _ HXfin Htr))
    as [Xtr Etr].
  destruct (check_array_ok X_test Htene (iloc_rows_Forall _ _ _ _ HXfin Hte))
    as [Xte Ete].
  destruct (check_array_ok X HXne HXfin) as [Xv EXv].
  exists (LinearRegression_lstsq Xtr y_train).
  unfold regression_value. rewrite Egl, Eyi. cbv zeta. fold X. rewrite Es.
  cbn [mbind result_bind].
  unfold LinearRegression_fit, score, predict.
  rewrite Etr. cbn. rewrite Ete. cbn. by rewrite EXv.
Qed.

(** One step of a run: the first half of a bind returns. *)
Ltac run_step :=
  erewrite bind_ok by
    first [ by eapply getitem_run
          | by eapply setitem_run
          | apply print_run
          | rewrite train_test_split_seeded;
            match goal with
            | Heq : seeded_split _ _ _ _ = _ |- _ => by rewrite Heq
            end
          | done ];
  cbv beta iota.

Ltac run_raise :=
  erewrite bind_raise by
    first [ by eapply getitem_missing
          | rewrite train_test_split_seeded;
            match goal with
            | Heq : seeded_split _ _ _ _ = _ |- _ => by rewrite Heq
            end
          | done ].

Ltac value_is v :=
  match goal with
  | |- context [regression_value ?d] =>
      assert (regression_value d = v) as ->
        by (unfold regression_value;
            repeat (match goal with
                    | Heq : _ = _ |- _ => progress rewrite Heq
                    end; cbv zeta; cbn [mbind result_bind]);
            done)
  end.

Ltac raised :=
  cbn; repeat split; try done; rewrite <- ?app_assoc; by eexists.

(** A run that raises has assigned nothing. *)
Lemma fit_outcome_regression_raises w df d :
  heap w !! df = Some d ->
  match regression_value d with
  | inl e =>
      (fit_outcome_regression df w).1 = inl e /\
      heap (fit_outcome_regression df w).2 = heap w /\
      np_random (fit_outcome_regression df w).2 = np_random w /\
      stdout w `prefix_of` stdout (fit_outcome_regression df w).2
  | inr _ => True
  end.
Proof.
  intros E. unfold fit_outcome_regression.
  destruct (gdp_log d) as [gl|] eqn:Egl;
    [|value_is (@inl exn LinearRegression KeyError); run_raise; raised].
  run_step.
  destruct (year_index d) as [yi|] eqn:Eyi;
    [|value_is (@inl exn LinearRegression KeyError); run_raise; raised].
  do 2 run_step. cbv zeta.
  destruct (seeded_split (zip gl (map to_float yi)) (life_expectancy d)
              0.2%Q 42%Z)
    as [e | [[[X_train X_test] y_train] y_test]] eqn:Es;
    [value_is (@inl exn LinearRegression e); run_raise; raised|].
  run_step.
  destruct (LinearRegression_fit X_train y_train) as [e | model] eqn:Ef;
    [value_is (@inl exn LinearRegression e); run_raise; raised|].
  do 2 run_step.
  destruct (score model X_train y_train) as [e | r2_train] eqn:Etr;
    [value_is (@inl exn LinearRegression e); run_raise; raised|].
  do 2 run_step.
  destruct (score model X_test y_test) as [e | r2_test] eqn:Ete;
    [value_is (@inl exn LinearRegression e); run_raise; raised|].
  do 2 run_step.
  destruct (predict model (zip gl (map to_float yi))) as [e | p] eqn:Ep;
    [value_is (@inl exn LinearRegression e); run_raise; raised|].
  by value_is (@inr exn LinearRegression model).
Qed.

(** A run that returns, with what it prints. *)
Lemma fit_outcome_regression_trace w df d gl yi
    X_train X_test y_train y_test Xtr Xte Xv :
  heap w !! df = Some d ->
  gdp_log d = Some gl -> year_index d = Some yi ->
  seeded_split (zip gl (map to_float yi)) (life_expectancy d) 0.2%Q 42%Z
  = inr (X_train, X_test, y_train, y_test) ->
  check_array X_train = inr Xtr -> check_array X_test = inr Xte ->
  check_array (zip gl (map to_float yi)) = inr Xv ->
  let model := LinearRegression_lstsq Xtr y_train in
  let p := map (decision_function model) Xv in
  let r := zip_with Rminus (life_expectancy d) p in
  fit_outcome_regression df w =
    (inr model,
     {| heap := <[df := set_residual r (set_pred p d)]> (heap w);
        np_random := np_random w;
        stdout :=
          stdout w ++
          [Text "--- Outcome Regression Diagnostics ---";
           Score "R2 (train)"
             (r2_score y_train (map (decision_function model) Xtr));
           Score "R2 (test)"
             (r2_score y_test (map (decision_function model) Xte));
           Text "Underperforming Countries:";
           Table (take 10 (sort_values
                             (groupby_mean str_le (Country d) r)))] |}).
Proof.
  intros E Egl Eyi Es Etr Ete EXv model p r.
  assert (LinearRegression_fit X_train y_train = inr model) as Ef
    by (unfold LinearRegression_fit; by rewrite Etr).
  assert (score model X_train y_train
          = inr (r2_score y_train (map (decision_function model) Xtr)))
    as Estr by (unfold score, predict; by rewrite Etr).
  assert (score model X_test y_test
          = inr (r2_score y_test (map (decision_function model) Xte)))
    as Este by (unfold score, predict; by rewrite Ete).
  assert (predict model (zip gl (map to_float yi)) = inr p) as Ep
    by (unfold predict; by rewrite EXv).
  unfold fit_outcome_regression.
  do 3 run_step. cbv zeta. run_step.
  rewrite Ef. do 2 run_step. rewrite Estr. do 2 run_step.
  rewrite Este. do 2 run_step. rewrite Ep.
  pose proof (lookup_lt_Some _ _ _ E) as Hlt.
  run_step. run_step.
  erewrite bind_ok
    by (eapply getitem_run; [cbn; by apply list_lookup_insert_eq | done]).
  erewrite bind_ok
    by (eapply getitem_run; [cbn; by apply list_lookup_insert_eq | done]).
  erewrite bind_ok
    by (eapply setitem_run; cbn; by apply list_lookup_insert_eq).
  cbn [heap with_heap with_stdout]. rewrite list_insert_insert_eq.
  erewrite bind_ok
    by (eapply getitem_run; [cbn; by apply list_lookup_insert_eq | done]).
  erewrite bind_ok
    by (eapply getitem_run; [cbn; by apply list_lookup_insert_eq | done]).
  cbv zeta. do 2 run_step.
  unfold mret, M_ret, with_stdout, with_heap. cbn [heap np_random stdout].
  by rewrite <- !app_assoc.
Qed.

(** X10.  The regression refuses a table that was not engineered, with a
    KeyError for the missing column, and a table of fewer than two rows,
    with a ValueError of the split; in both cases before it has printed
    or assigned anything. *)
Theorem fit_outcome_regression_early_errors w df d :
  heap w !! df = Some d ->
  (gdp_log d = None \/ year_index d = None ->
   fit_outcome_regression df w = (inl KeyError, w)) /\
  (forall gl yi,
     gdp_log d = Some gl -> year_index d = Some yi ->
     length (life_expectancy d) < 2 ->
     fit_outcome_regression df w = (inl ValueError, w)).
Proof.
  intros E. split.
  - intros Hmissing. unfold fit_outcome_regression.
    destruct (gdp_log d) as [gl|] eqn:Egl; [|by run_raise].
    destruct Hmissing as [|Eyi]; [done|]. run_step. by run_raise.
  - intros gl yi Egl Eyi Hn. unfold fit_outcome_regression.
    do 3 run_step. cbv zeta.
    assert (seeded_split (zip gl (map to_float yi)) (life_expectancy d)
              0.2%Q 42%Z = raise ValueError) as Es.
    { apply seeded_split_small.
      destruct (decide (length (zip gl (map to_float yi))
                        = length (life_expectancy d))) as [->|];
        [by right | by left]. }
    by run_raise.
Qed.

(** X11.  A run of the regression that raises before its figure has
    changed no table and has not touched the global random generator;
    what it had printed before stays printed.  With a shuffle that
    returns a permutation of the positions, the exception is a KeyError
    or a ValueError. *)
Theorem fit_outcome_regression_exception_safe w df d e w' :
  heap w !! df = Some d ->
  fit_outcome_regression df w = (inl e, w') ->
  heap w' = heap w /\ np_random w' = np_random w /\
  stdout w `prefix_of` stdout w' /\
  (permutation_contract -> e = KeyError \/ e = ValueError).
Proof.
  intros E Hrun.
  pose proof (fit_outcome_regression_value w df d E) as Hval.
  pose proof (fit_outcome_regression_raises w df d E) as Hsafe.
  rewrite Hrun in Hval. cbn in Hval. rewrite <- Hval in Hsafe.
  rewrite Hrun in Hsafe. cbn in Hsafe.
  destruct Hsafe as (_ & Hheap & Hrng & Hout).
  repeat split; try done.
  intros Hperm. by apply (regression_value_raises d).
Qed.

(** X12.  With a shuffle that returns a permutation of the positions, the
    regression returns on a table exactly when the table has both
    feature columns, at least two rows, and a finite [gdp_log] on every
    row (the figure aside): one row with a non-positive economic level
    is enough to make it raise. *)
Theorem fit_outcome_regression_returns_iff w df d :
  permutation_contract ->
  heap w !! df = Some d -> aligned d ->
  (exists model w', fit_outcome_regression df w = (inr model, w')) <->
  (exists gl yi,
     gdp_log d = Some gl /\ year_index d = Some yi /\
     2 <= length (Country d) /\ Forall is_finite gl).
Proof.
  intros Hperm E (_ & Hy & _ & Hgl & Hyi & _). split.
  - intros (model & w' & Hrun).
    destruct (fit_outcome_regression_ok _ _ _ _ _ E Hrun) as [Hval _].
    destruct (regression_value_inv _ _ Hval)
      as (gl & yi & X_train & X_test & y_train & y_test & Xtr & Xte & Xv
          & Egl & Eyi & Es & _ & _ & EXv & _).
    rewrite Egl in Hgl. rewrite Eyi in Hyi. cbn in Hgl, Hyi.
    exists gl, yi. do 2 (split; [done|]).
    apply seeded_split_inv in Es as (_ & Hn & _).
    rewrite length_zip_with, length_map in Hn. split; [lia|].
    apply check_array_inv in EXv as (_ & _ & Hfin).
    rewrite <- (fst_zip gl (map to_float yi))
      by (rewrite length_map; lia).
    apply Forall_fmap. eapply Forall_impl; [exact Hfin|]. by intros row [].
  - intros (gl & yi & Egl & Eyi & Hn & Hfin).
    rewrite Egl in Hgl. rewrite Eyi in Hyi. cbn in Hgl, Hyi.
    destruct (regression_value_ok d gl yi Hperm Egl Eyi) as [model Hval];
      [lia | lia | lia | done |].
    exists model, (fit_outcome_regression df w).2.
    pose proof (fit_outcome_regression_value w df d E) as Hfst.
    rewrite Hval in Hfst.
    destruct (fit_outcome_regression df w) as [r w']. cbn in *. by subst.
Qed.

(** X13.  The 80/20 split.  With a shuffle that returns a permutation of
    the positions, a run that returns on a table of [n] rows has held out
    [n/5] rows, rounded up, and fitted the model by least squares on the
    others: the two lists of positions together are a permutation of the
    positions of the table, the features and the outcomes of a sample
    come from the same row, and the two scores that the run prints are
    those of the fitted model, on the fitted rows first and on the rows
    held out second. *)
Theorem fit_outcome_regression_split w df d model w' :
  permutation_contract ->
  heap w !! df = Some d -> aligned d ->
  fit_outcome_regression df w = (inr model, w') ->
  let n := length (Country d) in
  exists ind_train ind_test X_train X_test y_train y_test table,
    ind_test ++ ind_train ≡ₚ seq 0 n /\
    length ind_test = (n + 4) / 5 /\
    length ind_train = n - (n + 4) / 5 /\
    Forall2 (features_at d) ind_train X_train /\
    Forall2 (fun i y => life_expectancy d !! i = Some y) ind_train y_train /\
    Forall2 (features_at d) ind_test X_test /\
    Forall2 (fun i y => life_expectancy d !! i = Some y) ind_test y_test /\
    model = LinearRegression_lstsq X_train y_train /\
    stdout w' =
      stdout w ++
      [Text "--- Outcome Regression Diagnostics ---";
       Score "R2 (train)"
         (r2_score y_train (map (decision_function model) X_train));
       Score "R2 (test)"
         (r2_score y_test (map (decision_function model) X_test));
       Text "Underperforming Countries:";
       Table table].
Proof.
  intros Hperm E (_ & Hy & _ & Hgl & Hyi & _) Hrun n.
  destruct (fit_outcome_regression_ok _ _ _ _ _ E Hrun) as [Hval _].
  destruct (regression_value_inv _ _ Hval)
    as (gl & yi & X_train & X_test & y_train & y_test & Xtr & Xte & Xv
        & Egl & Eyi & Es & Etr & Ete & EXv & ->).
  pose proof (fit_outcome_regression_trace w df d _ _ _ _ _ _ _ _ _
                E Egl Eyi Es Etr Ete EXv) as Htrace.
  cbv zeta in Htrace. rewrite Hrun in Htrace. injection Htrace as ->.
  rewrite Egl in Hgl. rewrite Eyi in Hyi. cbn in Hgl, Hyi.
  set (X := zip gl (map to_float yi)) in *.
  assert (length X = n) as HX.
  { unfold X. rewrite length_zip_with, length_map. lia. }
  apply seeded_split_inv in Es as (_ & Hn & Htr & Hte & Hytr & Hyte).
  cbv zeta in Htr, Hte, Hytr, Hyte. rewrite HX in *.
  set (permutation := (RandomState_permutation (RandomState_seed 42%Z) n).1)
    in *.
  pose proof (permutation_length Hperm (RandomState_seed 42%Z) n) as Hlen.
  fold permutation in Hlen.
  pose proof (fifth_lt n Hn) as Hfifth.
  assert (take (n - (n + 4) / 5) (drop ((n + 4) / 5) permutation)
          = drop ((n + 4) / 5) permutation) as Hdrop
    by (apply take_ge; rewrite length_drop; lia).
  rewrite Hdrop in *.
  assert (forall idx rows rowsv,
            Forall2 (fun i x => X !! i = Some x) idx rows ->
            check_array rows = inr rowsv ->
            Forall2 (features_at d) idx rowsv) as Hrows.
  { intros idx rows rowsv Hsel Hck.
    assert (traverse check_finite rows = inr rowsv) as Ht
      by (unfold check_array in Hck; by destruct rows).
    apply traverse_inr in Ht.
    eapply Forall2_trans; [|exact Hsel|exact Ht].
    intros i [a b] [x t] Hi Hfin. cbv beta in Hi, Hfin.
    destruct a as [a| | |], b as [b| | |]; try done.
    cbn in Hfin. injection Hfin as -> ->.
    apply lookup_zip_with_Some in Hi as (g & f & [= <- <-] & Hg & Hf).
    rewrite list_lookup_fmap in Hf.
    destruct (yi !! i) as [z|] eqn:Ez; [|done]. injection Hf as Hz.
    exists gl, yi, z. by repeat split. }
  exists (drop ((n + 4) / 5) permutation), (take ((n + 4) / 5) permutation),
    Xtr, Xte, y_train, y_test.
  eexists. split.
  { rewrite take_drop. apply Hperm. }
  split; [rewrite length_take; lia|].
  split; [rewrite length_drop; lia|].
  split; [by eapply Hrows|]. split; [done|].
  split; [by eapply Hrows|]. split; [done|].
  split; reflexivity.
Qed.

End RegressionMore.

Lemma plain_permutation_contract : @permutation_contract plain_libraries.
Proof. intros rng n. done. Qed.

Lemma six_rows_aligned : aligned six_rows_engineered.
Proof. by repeat split. Qed.

Section PlainRegression.
#[local] Existing Instance plain_libraries.

Lemma four_rows_regression_value :
  regression_value four_rows_engineered = inl ValueError.
Proof. reflexivity. Qed.

Lemma four_rows_fit :
  let w := with_heap [four_rows_engineered] new_world in
  fit_outcome_regression 0 w
  = (inl ValueError, (fit_outcome_regression 0 w).2).
Proof.
  intros w.
  pose proof (fit_outcome_regression_value w 0 four_rows_engineered eq_refl)
    as Hval.
  rewrite four_rows_regression_value in Hval.
  destruct (fit_outcome_regression 0 w) as [r w']. cbn in Hval.
  by rewrite Hval.
Qed.

(** The six rows as loaded have no [gdp_log]. *)
Lemma fit_outcome_regression_early_errors_witness :
  fit_outcome_regression 0 (with_heap [six_rows] new_world)
  = (inl KeyError, with_heap [six_rows] new_world).
Proof.
  apply (proj1 (fit_outcome_regression_early_errors
                  (with_heap [six_rows] new_world) 0 six_rows eq_refl)).
  by left.
Defined.

(** The four rows, engineered: their [gdp_log] has an infinity and a
    NaN. *)
Lemma fit_outcome_regression_exception_safe_witness :
  let w := with_heap [four_rows_engineered] new_world in
  let w' := (fit_outcome_regression 0 w).2 in
  heap w' = heap w /\ np_random w' = np_random w /\
  stdout w `prefix_of` stdout w' /\
  (permutation_contract ->
   ValueError = KeyError \/ ValueError = ValueError).
Proof.
  exact (fit_outcome_regression_exception_safe
           (with_heap [four_rows_engineered] new_world) 0
           four_rows_engineered ValueError _ eq_refl four_rows_fit).
Defined.

(** The six rows, engineered. *)
Lemma fit_outcome_regression_returns_iff_witness :
  (exists model w',
     fit_outcome_regression 0 six_rows_world = (inr model, w')) <->
  (exists gl yi,
     gdp_log six_rows_engineered = Some gl /\
     year_index six_rows_engineered = Some yi /\
     2 <= length (Country six_rows_engineered) /\ Forall is_finite gl).
Proof.
  exact (fit_outcome_regression_returns_iff six_rows_world 0
           six_rows_engineered plain_permutation_contract eq_refl
           six_rows_aligned).
Defined.

(** The six rows: two are held out, four are fitted. *)
Lemma fit_outcome_regression_split_witness :
  let w' := (fit_outcome_regression 0 six_rows_world).2 in
  exists ind_train ind_test X_train X_test y_train y_test table,
    ind_test ++ ind_train ≡ₚ seq 0 6 /\
    length ind_test = 2 /\
    length ind_train = 4 /\
    Forall2 (features_at six_rows_engineered) ind_train X_train /\
    Forall2 (fun i y => life_expectancy six_rows_engineered !! i = Some y)
            ind_train y_train /\
    Forall2 (features_at six_rows_engineered) ind_test X_test /\
    Forall2 (fun i y => life_expectancy six_rows_engineered !! i = Some y)
            ind_test y_test /\
    six_rows_model = LinearRegression_lstsq X_train y_train /\
    stdout w' =
      stdout six_rows_world ++
      [Text "--- Outcome Regression Diagnostics ---";
       Score "R2 (train)"
         (r2_score y_train (map (decision_function six_rows_model) X_train));
       Score "R2 (test)"
         (r2_score y_test (map (decision_function six_rows_model) X_test));
       Text "Underperforming Countries:";
       Table table].
Proof.
  exact (fit_outcome_regression_split six_rows_world 0 six_rows_engineered
           six_rows_model _ plain_permutation_contract eq_refl
           six_rows_aligned six_rows_fit).
Defined.

End PlainRegression.
(** ** The gap ranking *)

Lemma check_array_replicate n a b :
  check_array (replicate (S n) (Finite a, Finite b))
  = inr (replicate (S n) (a, b)).
Proof.
  assert (forall k, traverse check_finite (replicate k (Finite a, Finite b))
                    = inr (replicate k (a, b))) as Ht.
  { induction k as [|k IH]; [done|]. cbn. by rewrite IH. }
  apply (Ht (S n)).
Qed.

(** Keys that are all equal: no comparison of the sort succeeds. *)
Lemma DOUBLE_LT_ties n m : DOUBLE_LT (replicate n m) = fun _ _ => false.
Proof.
  apply functional_extensionality. intros i.
  apply functional_extensionality. intros j. unfold DOUBLE_LT.
  destruct (replicate n m !! i) as [x|] eqn:Ex; [|done].
  destruct (replicate n m !! j) as [y|] eqn:Ey; [|done].
  apply lookup_replicate in Ex as [-> _].
  apply lookup_replicate in Ey as [-> _].
  apply bool_decide_eq_false. lra.
Qed.

(** What the quicksort makes of eighteen equal keys: the partition
    around the middle swaps the positions 1 to 7 with 15 to 9. *)
Lemma numpy_argsort_ties m :
  numpy_argsort (replicate 18 m)
  = [0; 15; 14; 13; 12; 11; 10; 9; 8; 7; 6; 5; 4; 3; 2; 1; 16; 17].
Proof.
  unfold numpy_argsort. rewrite DOUBLE_LT_ties, length_replicate.
  by vm_compute.
Qed.

(** The mean residuals of the eighteen entities, for any four residuals
    of their four observations. *)
Lemma tied_groups (r0 r1 r2 r3 : R) :
  groupby_mean str_le (tied_names ++ tied_names ++ tied_names ++ tied_names)
    (replicate 18 r0 ++ replicate 18 r1 ++ replicate 18 r2
     ++ replicate 18 r3)
  = map (fun c => (c, mean [r0; r1; r2; r3])) tied_names.
Proof.
  unfold groupby_mean.
  assert (merge_sort str_le
            (remove_dups (tied_names ++ tied_names ++ tied_names
                          ++ tied_names)) = tied_names) as ->
    by (by vm_compute).
  apply map_ext_in. intros c Hc. f_equal. f_equal.
  apply list_elem_of_In in Hc. unfold tied_names in Hc.
  repeat (apply elem_of_cons in Hc as [-> | Hc]; [by vm_compute|]).
  by apply elem_of_nil in Hc.
Qed.

Section TiedRows.
Local Open Scope R_scope.

Lemma tied_rows_sorted :
  np_sort (life_expectancy tied_rows) = life_expectancy tied_rows.
Proof.
  apply np_sort_of_sorted. apply Sorted_StronglySorted.
  - intros x y z. apply Rle_trans.
  - cbn [life_expectancy tied_rows raw_table replicate app].
    repeat first [apply Sorted_nil | apply Sorted_cons
                 | apply HdRel_nil | apply HdRel_cons]; lra.
Qed.

Lemma tied_rows_edges :
  map (fun k => Series_quantile (life_expectancy tied_rows) k 4) (seq 0 5)
  = [60; 67.5; 75; 82.5; 90].
Proof.
  cbn [seq map].
  do 5 (apply (f_equal2 cons);
        [unfold Series_quantile; rewrite tied_rows_sorted;
         cbn [life_expectancy tied_rows raw_table replicate app length
              Nat.sub Nat.mul Nat.add Nat.div Nat.modulo Nat.divmod Nat.min
              nth INR fst snd];
         lra|]).
  done.
Qed.

Lemma tied_rows_qcut :
  qcut (life_expectancy tied_rows) 4 [1; 2; 3; 4]%Z ≫= astype_int
  = inr (replicate 18 1 ++ replicate 18 2
         ++ replicate 18 3 ++ replicate 18 4)%Z.
Proof.
  unfold qcut.
  destruct (life_expectancy tied_rows) as [|v0 x0] eqn:Ex; [done|].
  rewrite <- Ex. change (seq 0 (4 + 1)) with (seq 0 5).
  rewrite tied_rows_edges. unfold bins_to_cuts.
  rewrite decide_True by (left; distinct_reals).
  assert (bin_id [60; 67.5; 75; 82.5; 90] 60 = 1%nat) as H60
    by (unfold bin_id; cbn [head searchsorted_left]; by decide_reals).
  assert (bin_id [60; 67.5; 75; 82.5; 90] 70 = 2%nat) as H70
    by (unfold bin_id; cbn [head searchsorted_left]; by decide_reals).
  assert (bin_id [60; 67.5; 75; 82.5; 90] 80 = 3%nat) as H80
    by (unfold bin_id; cbn [head searchsorted_left]; by decide_reals).
  assert (bin_id [60; 67.5; 75; 82.5; 90] 90 = 4%nat) as H90
    by (unfold bin_id; cbn [head searchsorted_left]; by decide_reals).
  cbn [life_expectancy tied_rows raw_table replicate app map].
  rewrite H60, H70, H80, H90. reflexivity.
Qed.

Lemma tied_rows_run :
  engineer_features 0%nat (with_heap [tied_rows] new_world)
  = (inr 1%nat, tied_rows_world).
Proof.
  rewrite (engineer_features_run _ _ tied_rows) by done.
  rewrite tied_rows_qcut.
  assert (map np_log (gdp tied_rows) = replicate 72 (Finite (ln 100)))
    as ->.
  { cbn [gdp tied_rows raw_table replicate map].
    by rewrite !np_log_pos by lra. }
  reflexivity.
Qed.

End TiedRows.

Section GapRanking.
Context `{Libraries}.

(** C5, as corrected.  After a run of the regression that returns, the
    table's [residual] column has one entry per row: the row's outcome
    minus the model's prediction on the row's own features.  The printed
    table has one row for each of the entities with the least mean
    residuals, 10 of them or all of them when there are fewer: each row
    carries the arithmetic mean of the entity's residuals, rows ascend in
    that mean, and every entity left out has a mean at least as large as
    every row.  The order of rows with equal means is the one that the
    sort leaves, whatever [argsort] is used. *)
Theorem gap_ranker_table w df d model w' :
  argsort_contract ->
  heap w !! df = Some d ->
  fit_outcome_regression df w = (inr model, w') ->
  exists d' residuals table,
    heap w' !! df = Some d' /\ residual d' = Some residuals /\
    Country d' = Country d /\ life_expectancy d' = life_expectancy d /\
    length residuals = length (life_expectancy d) /\
    last (stdout w') = Some (Table table) /\
    (forall i r, residuals !! i = Some r ->
       exists y x t gl yi,
         life_expectancy d !! i = Some y /\
         gdp_log d = Some gl /\ gl !! i = Some (Finite x) /\
         year_index d = Some yi /\ yi !! i = Some t /\
         r = (y - (x * coef_gdp_log model + IZR t * coef_year_index model
                   + intercept_ model))%R) /\
    length table = Nat.min 10 (length (remove_dups (Country d))) /\
    NoDup table.*1 /\
    (forall c m, (c, m) ∈ table ->
       c ∈ Country d /\
       m = mean (group_values c (Country d) residuals)) /\
    StronglySorted by_value table /\
    (forall c, c ∈ Country d -> c ∉ table.*1 ->
       forall row, row ∈ table ->
         (row.2 <= mean (group_values c (Country d) residuals))%R).
Proof.
  intros Hsort E Hrun.
  destruct (fit_outcome_regression_ok _ _ _ _ _ E Hrun)
    as (Hval & gl & yi & Xv & r2_train & r2_test & Egl & Eyi & EXv & ->).
  set (p := map (decision_function model) Xv).
  set (r := zip_with Rminus (life_expectancy d) p).
  set (groups := groupby_mean str_le (Country d) r).
  exists (set_residual r (set_pred p d)), r, (take 10 (sort_values groups)).
  split.
  { cbn. apply list_lookup_insert_eq. by eapply lookup_lt_Some. }
  split; [done|]. split; [done|]. split; [done|]. split.
  { apply regression_value_inv in Hval
      as (gl' & yi' & X_train & X_test & y_train & y_test & Xtr & Xte & Xv'
          & Egl' & Eyi' & Es & _).
    rewrite Egl in Egl'. injection Egl' as <-.
    rewrite Eyi in Eyi'. injection Eyi' as <-.
    apply seeded_split_inv in Es as (Hlen & _).
    apply check_array_inv in EXv as (_ & HXv & _).
    unfold r, p. rewrite length_zip_with, length_map. lia. }
  split.
  { cbn [stdout]. by rewrite last_app_cons. }
  pose proof (take_drop 10 (sort_values groups)) as Hsplit.
  pose proof (sort_values_sorted Hsort groups) as Hsorted.
  rewrite <- Hsplit in Hsorted.
  apply StronglySorted_app in Hsorted as (Hcross & Hhead & _).
  assert (NoDup (sort_values groups).*1) as Hnd.
  { rewrite (sort_values_perm Hsort). apply groupby_mean_NoDup. }
  rewrite <- Hsplit, fmap_app in Hnd.
  apply NoDup_app in Hnd as (Hnd & Hdisj & _).
  split; [|split; [|split; [done|split; [|split; [done|]]]]].
  - intros i ri Hri. unfold r in Hri.
    apply lookup_zip_with_Some in Hri as (y & pi & -> & Hy & Hpi).
    unfold p in Hpi. rewrite list_lookup_fmap in Hpi.
    destruct (Xv !! i) as [v|] eqn:Ev; [|done]. injection Hpi as <-.
    pose proof (check_array_lookup _ _ _ _ EXv Ev) as Hrow.
    apply lookup_zip_with_Some in Hrow as (g & f & [= <- <-] & Hg & Hf).
    rewrite list_lookup_fmap in Hf.
    destruct (yi !! i) as [t|] eqn:Et; [|done].
    injection Hf as Ht.
    exists y, v.1, t, gl, yi. rewrite Ht. by repeat split.
  - by apply ranking_length.
  - intros c m Hin. apply elem_of_take in Hin as (i & Hi & _).
    apply list_elem_of_lookup_2 in Hi.
    apply (proj1 (sort_values_elem_of Hsort _ _)) in Hi.
    by apply groupby_mean_elem_of in Hi.
  - intros c Hc Hout row Hrow.
    set (m := mean (group_values c (Country d) r)).
    assert ((c, m) ∈ sort_values groups) as Hin.
    { apply (sort_values_elem_of Hsort), groupby_mean_elem_of. done. }
    rewrite <- Hsplit in Hin. apply elem_of_app in Hin as [Hin | Hin].
    + exfalso. apply Hout. apply list_elem_of_fmap. by exists (c, m).
    + apply (Hcross row (c, m) Hrow Hin).
Qed.

(** On the table of the eighteen entities every mean residual is the
    same, whatever model is fitted, and numpy's quicksort leaves the
    entities in an order that is not the one of their names. *)
Lemma tied_rows_ranking :
  permutation_contract -> np_argsort = numpy_argsort ->
  exists model w' m,
    fit_outcome_regression 1 tied_rows_world = (inr model, w') /\
    last (stdout w')
    = Some (Table (map (fun c => (c, m))
                       ["A"; "P"; "O"; "N"; "M"; "L"; "K"; "J"; "I"; "H"])).
Proof.
  intros Hperm Hsort.
  destruct (regression_value_ok tied_rows_engineered _ _ Hperm
              eq_refl eq_refl) as [model Hval].
  { reflexivity. }
  { reflexivity. }
  { cbn. lia. }
  { repeat constructor. }
  pose proof (fit_outcome_regression_run tied_rows_world 1
                tied_rows_engineered eq_refl) as Hfit.
  rewrite Hval in Hfit.
  destruct Hfit as (gl & yi & Xv & r2_train & r2_test
                    & Egl & Eyi & EXv & Hfit).
  cbv zeta in Hfit. injection Egl as <-. injection Eyi as <-.
  assert (Xv = replicate 72 (ln 100, 0%R)) as ->.
  { change (zip _ _)
      with (replicate 72 (Finite (ln 100), Finite 0%R)) in EXv.
    rewrite check_array_replicate in EXv. by injection EXv. }
  set (p0 := decision_function model (ln 100, 0%R)) in *.
  set (m := mean [60 - p0; 70 - p0; 80 - p0; 90 - p0]%R).
  eexists model, _, m. split; [exact Hfit|].
  cbn [stdout]. rewrite last_app_cons. cbn [last]. do 2 f_equal.
  change (zip_with Rminus _ _)
    with (replicate 18 (60 - p0) ++ replicate 18 (70 - p0)
          ++ replicate 18 (80 - p0) ++ replicate 18 (90 - p0))%R.
  change (Country tied_rows_engineered)
    with (tied_names ++ tied_names ++ tied_names ++ tied_names).
  rewrite tied_groups. fold m.
  unfold sort_values. rewrite Hsort.
  change ((map (fun c => (c, m)) tied_names).*2) with (replicate 18 m).
  rewrite numpy_argsort_ties.
  reflexivity.
Qed.

End GapRanking.

Lemma numpy_permutation_contract : @permutation_contract numpy_libraries.
Proof. intros rng n. done. Qed.

Section PlainGap.
#[local] Existing Instance plain_libraries.
Local Open Scope R_scope.

(** The ranking of the six rows. *)
Lemma gap_ranker_table_witness :
  exists d' residuals table,
    heap (fit_outcome_regression 0%nat six_rows_world).2 !! 0%nat = Some d' /\
    residual d' = Some residuals /\
    Country d' = Country six_rows_engineered /\
    life_expectancy d' = life_expectancy six_rows_engineered /\
    length residuals = length (life_expectancy six_rows_engineered) /\
    last (stdout (fit_outcome_regression 0%nat six_rows_world).2)
    = Some (Table table) /\
    (forall i r, residuals !! i = Some r ->
       exists y x t gl yi,
         life_expectancy six_rows_engineered !! i = Some y /\
         gdp_log six_rows_engineered = Some gl /\
         gl !! i = Some (Finite x) /\
         year_index six_rows_engineered = Some yi /\ yi !! i = Some t /\
         r = y - (x * coef_gdp_log six_rows_model
                  + IZR t * coef_year_index six_rows_model
                  + intercept_ six_rows_model)) /\
    length table
    = Nat.min 10 (length (remove_dups (Country six_rows_engineered))) /\
    NoDup table.*1 /\
    (forall c m, (c, m) ∈ table ->
       c ∈ Country six_rows_engineered /\
       m = mean (group_values c (Country six_rows_engineered) residuals)) /\
    StronglySorted by_value table /\
    (forall c, c ∈ Country six_rows_engineered -> c ∉ table.*1 ->
       forall row, row ∈ table ->
         row.2 <= mean (group_values c (Country six_rows_engineered)
                          residuals)).
Proof.
  apply (gap_ranker_table six_rows_world 0%nat six_rows_engineered
           six_rows_model _ plain_argsort_contract eq_refl six_rows_fit).
Defined.

End PlainGap.

(** C5 as stated fails on ties.  Eighteen entities, A to R, have the same
    four observations each; the Feature Engineer accepts the table.  The
    regression returns on it, every entity has the same mean residual,
    and with numpy's quicksort for [argsort] the table printed lists A,
    P, O, N, M, L, K, J, I, H: not the ten first names, and P before
    O. *)
Lemma gap_ranker_ties_not_lexicographic :
  engineer_features 0 (with_heap [tied_rows] new_world)
  = (inr 1, tied_rows_world) /\
  remove_dups (Country tied_rows_engineered) = tied_names /\
  exists model w' m,
    @fit_outcome_regression numpy_libraries 1 tied_rows_world
    = (inr model, w') /\
    last (stdout w')
    = Some (Table (map (fun c => (c, m))
                       ["A"; "P"; "O"; "N"; "M"; "L"; "K"; "J"; "I"; "H"])) /\
    ["A"; "P"; "O"; "N"; "M"; "L"; "K"; "J"; "I"; "H"]
    <> take 10 (merge_sort str_le tied_names).
Proof.
  split; [apply tied_rows_run|]. split; [by vm_compute|].
  destruct (@tied_rows_ranking numpy_libraries numpy_permutation_contract
              eq_refl) as (model & w' & m & Hrun & Hout).
  exists model, w', m. split; [done|]. split; [done|]. by vm_compute.
Qed.

(** ** More on the segmentation *)

Lemma traverse_same {A} (f : A -> result A) (l l' : list A) :
  (forall a b, f a = inr b -> b = a) ->
  traverse f l = inr l' -> l' = l.
Proof.
  intros Hf Ht%traverse_inr. symmetry. apply list_eq_Forall2.
  eapply Forall2_impl; [exact Ht|]. intros a b Hab. symmetry. by apply Hf.
Qed.

Lemma traverse_all {A} (f : A -> result A) (l : list A) :
  Forall (fun a => f a = inr a) l -> traverse f l = inr l.
Proof.
  induction 1 as [|a l Ha _ IH]; [done|]. cbn. by rewrite Ha, IH.
Qed.

Lemma check_no_infinity_inv row row' :
  check_no_infinity row = inr row' ->
  row' = row /\ row.2 <> PosInf /\ row.2 <> NegInf.
Proof. destruct row as [[] []]; cbn; by intros [= <-]. Qed.

Lemma check_no_infinity_raises row e :
  check_no_infinity row = inl e -> e = ValueError.
Proof. destruct row as [[] []]; cbn; by intros [= <-]. Qed.

Lemma standardize_length col : length (standardize col) = length col.
Proof. unfold standardize. by rewrite length_map. Qed.

(** Standardising keeps what is finite finite, and the rest as it is. *)
Lemma standardize_lookup col i y :
  standardize col !! i = Some y ->
  exists x, col !! i = Some x /\ (is_finite y <-> is_finite x) /\
            (is_finite x \/ y = x).
Proof.
  unfold standardize. cbv zeta.
  match goal with |- map ?f _ !! _ = _ -> _ => change (map f col) with (f <$> col) end.
  rewrite list_lookup_fmap. destruct (col !! i) as [x|]; [|done].
  intros [= <-]. exists x. split; [done|]. destruct x; cbn; tauto.
Qed.

Lemma NoDup_below_length (l : list nat) n :
  NoDup l -> Forall (fun k => k < n) l -> length l <= n.
Proof.
  intros Hnd Hlt.
  transitivity (length (seq 0 n)); [|by rewrite length_seq].
  apply submseteq_length, NoDup_submseteq; [done|].
  intros k Hk. apply elem_of_seq.
  rewrite Forall_forall in Hlt. specialize (Hlt k Hk). lia.
Qed.

Section SegmentsMore.
Context `{Libraries}.

Local Abbreviation labelled c outcome :=
  (map (fun k =>
          dict (zip (sort_values (groupby_mean Nat.le c outcome)).*1
                    risk_labels) !! k) c).

(** What the scaler and k-means make of the two feature columns. *)
Lemma scaler_kmeans_inv outcome gl c :
  length gl = length outcome ->
  StandardScaler_fit_transform (zip (map Finite outcome) gl)
  ≫= KMeans 4 42%Z 10 = inr c ->
  Forall is_finite gl /\ 4 <= length outcome /\
  exists Xv, length Xv = length outcome /\
             c = KMeans_fit_predict 4 42%Z 10 Xv.
Proof.
  intros Hlen. set (X := zip (map Finite outcome) gl).
  assert (length X = length outcome) as HX
    by (unfold X; rewrite length_zip_with, length_map; lia).
  unfold StandardScaler_fit_transform.
  destruct X as [|row X'] eqn:EX; [done|]. rewrite <- EX in *.
  destruct (traverse check_no_infinity X) as [|X1] eqn:Et; [done|].
  apply traverse_same in Et as ->;
    [|by intros a b (-> & _)%check_no_infinity_inv].
  cbn [mbind result_bind mret result_ret].
  unfold KMeans.
  destruct (check_array _) as [|Xv] eqn:Eck; [done|].
  cbn [mbind result_bind]. case_decide as Hk; [done|]. intros [= <-].
  apply check_array_inv in Eck as (_ & HXv & Hfin).
  rewrite length_zip_with, !standardize_length, !length_fmap in HXv.
  split; [|split; [lia | exists Xv; split; [lia | done]]].
  apply Forall_forall. intros x Hx.
  apply list_elem_of_lookup in Hx as (i & Hi).
  assert (X.*2 = gl) as Hsnd
    by (unfold X; apply snd_zip; rewrite length_map; lia).
  assert (is_Some (standardize X.*2 !! i)) as [y Hy].
  { apply lookup_lt_is_Some. rewrite standardize_length, Hsnd.
    by eapply lookup_lt_Some. }
  assert (is_Some (standardize X.*1 !! i)) as [u Hu].
  { apply lookup_lt_is_Some.
    rewrite standardize_length, length_fmap, HX, <- Hlen.
    by eapply lookup_lt_Some. }
  assert (zip (standardize X.*1) (standardize X.*2) !! i = Some (u, y))
    as Hrow by (apply lookup_zip_with_Some; by exists u, y).
  pose proof (Forall_lookup_1 _ _ _ _ Hfin Hrow) as [_ Hyfin].
  apply standardize_lookup in Hy as (x' & Hx' & Hiff & _).
  rewrite Hsnd, Hi in Hx'. injection Hx' as <-. by apply Hiff.
Qed.

Lemma scaler_kmeans_ok outcome gl :
  length gl = length outcome ->
  Forall is_finite gl -> 4 <= length outcome ->
  exists c,
    StandardScaler_fit_transform (zip (map Finite outcome) gl)
    ≫= KMeans 4 42%Z 10 = inr c.
Proof.
  intros Hlen Hfin Hn. set (X := zip (map Finite outcome) gl).
  assert (length X = length outcome) as HX
    by (unfold X; rewrite length_zip_with, length_map; lia).
  assert (X.*1 = map Finite outcome) as Hfst
    by (unfold X; apply fst_zip; rewrite length_map; lia).
  assert (X.*2 = gl) as Hsnd
    by (unfold X; apply snd_zip; rewrite length_map; lia).
  unfold StandardScaler_fit_transform.
  destruct X as [|row X'] eqn:EX; [cbn in HX; lia|]. rewrite <- EX in *.
  rewrite traverse_all.
  2: { apply Forall_forall. intros [a b] Hin.
       assert (is_finite a /\ is_finite b) as [Ha Hb].
       { split.
         - assert (a ∈ X.*1) as Ha
             by (apply list_elem_of_fmap; by exists (a, b)).
           rewrite Hfst in Ha.
           apply list_elem_of_fmap in Ha as (v & -> & _). done.
         - assert (b ∈ X.*2) as Hb
             by (apply list_elem_of_fmap; by exists (a, b)).
           rewrite Hsnd in Hb. rewrite Forall_forall in Hfin. auto. }
       by destruct a, b. }
  cbn [mbind result_bind mret result_ret]. unfold KMeans.
  set (scaled := zip (standardize X.*1) (standardize X.*2)).
  assert (length scaled = length outcome) as Hscaled.
  { unfold scaled.
    rewrite length_zip_with, !standardize_length, !length_fmap. lia. }
  destruct (check_array_ok scaled) as [Xv HXv].
  { intros Hnil. rewrite Hnil in Hscaled. cbn in Hscaled. lia. }
  { apply Forall_forall. intros [u y] Hin.
    apply list_elem_of_lookup in Hin as (i & Hi).
    apply lookup_zip_with_Some in Hi as (u' & y' & [= <- <-] & Hu & Hy).
    apply standardize_lookup in Hu as (a & Ha & Hua & _).
    apply standardize_lookup in Hy as (b & Hb & Hyb & _).
    rewrite Hfst in Ha. rewrite Hsnd in Hb.
    change (map Finite outcome) with (Finite <$> outcome) in Ha.
    rewrite list_lookup_fmap in Ha.
    destruct (outcome !! i); [|done]. injection Ha as <-.
    split; [by apply Hua|].
    apply Hyb. exact (Forall_lookup_1 _ _ _ _ Hfin Hb). }
  rewrite HXv. cbn [mbind result_bind].
  apply check_array_inv in HXv as (_ & Hlen' & _).
  rewrite decide_False by lia. by eexists.
Qed.

Lemma scaler_kmeans_raises X e :
  StandardScaler_fit_transform X ≫= KMeans 4 42%Z 10 = inl e ->
  e = ValueError.
Proof.
  unfold StandardScaler_fit_transform.
  destruct X as [|row X']; [by intros [= <-]|].
  destruct (traverse check_no_infinity (row :: X')) as [e'|X1] eqn:Et.
  { cbn. intros [= <-].
    apply traverse_inl in Et as (a & _ & Ha).
    by eapply check_no_infinity_raises. }
  cbn [mbind result_bind mret result_ret]. unfold KMeans.
  destruct (check_array _) as [e'|Xv] eqn:Eck.
  { cbn. intros [= <-]. by eapply check_array_raises. }
  cbn [mbind result_bind]. case_decide; [by intros [= <-] | done].
Qed.

(** X14.  The figure aside, the Segmenter returns on a table exactly when
    the table has a [gdp_log] column that is finite on every row, and at
    least four rows, as many as there are clusters.  On a table without
    the column it raises a KeyError, on every other table that it
    refuses a ValueError; in both cases it leaves the copy that it has
    made. *)
Theorem cluster_populations_returns_iff w df d :
  heap w !! df = Some d -> aligned d ->
  ((exists df' w', cluster_populations df w = (inr df', w')) <->
   (exists gl, gdp_log d = Some gl /\ Forall is_finite gl /\
               4 <= length (Country d))) /\
  (forall e w',
     cluster_populations df w = (inl e, w') ->
     e = (if gdp_log d is None then KeyError else ValueError) /\
     w' = with_heap (heap w ++ [d]) w).
Proof.
  intros E (_ & Hy & _ & Hgl & _).
  rewrite (cluster_populations_run _ _ _ E).
  destruct (gdp_log d) as [gl|] eqn:Egl.
  2: { split.
       - split; [by intros (? & ? & ?) | by intros (? & ? & _)].
       - by intros e w' [= <- <-]. }
  cbn in Hgl. rewrite <- Hy in *.
  destruct (StandardScaler_fit_transform _ ≫= KMeans 4 42%Z 10)
    as [e|c] eqn:Ec.
  - split.
    + split; [by intros (? & ? & ?)|].
      intros (gl' & [= <-] & Hfin & Hn).
      destruct (scaler_kmeans_ok (life_expectancy d) gl Hgl Hfin Hn)
        as [c Hc].
      by rewrite Hc in Ec.
    + intros e' w' [= <- <-]. split; [|done].
      by eapply scaler_kmeans_raises.
  - split; [|done]. split; [|by eauto].
    intros _. exists gl.
    apply scaler_kmeans_inv in Ec as (Hfin & Hn & _); done.
Qed.

(** X15.  With k-means returning one of the indices 0 to 3 for every row
    and [argsort] a sorting permutation, the Segmenter labels every row:
    two rows have the same label exactly when they are in the same
    cluster, and when the rows fall into [m] clusters the labels in use
    are the first [m] of High Risk, Elevated Risk, Moderate Risk and Low
    Risk. *)
Theorem cluster_populations_labels_every_row w df d df' w' :
  argsort_contract -> kmeans_contract ->
  heap w !! df = Some d -> aligned d ->
  cluster_populations df w = (inr df', w') ->
  exists d' c labels,
    heap w' !! df' = Some d' /\
    cluster d' = Some c /\ cluster_label d' = Some labels /\
    length c = length (Country d) /\ length labels = length (Country d) /\
    (forall i k, c !! i = Some k ->
       k < 4 /\ exists l, labels !! i = Some (Some l) /\ l ∈ risk_labels) /\
    (forall i j ki kj li lj,
       c !! i = Some ki -> c !! j = Some kj ->
       labels !! i = Some (Some li) -> labels !! j = Some (Some lj) ->
       (li = lj <-> ki = kj)) /\
    (forall r l, risk_labels !! r = Some l ->
       (exists i, labels !! i = Some (Some l)) <->
       r < length (remove_dups c)).
Proof.
  intros Hsort Hkm E (_ & Hy & _ & Hgl & _) Hrun.
  rewrite (cluster_populations_run _ _ _ E) in Hrun.
  destruct (gdp_log d) as [gl|] eqn:Egl; [|done].
  cbn in Hgl. rewrite <- Hy in *.
  destruct (StandardScaler_fit_transform _ ≫= KMeans 4 42%Z 10)
    as [e|c] eqn:Ec; [done|].
  injection Hrun as <- <-.
  apply scaler_kmeans_inv in Ec as (_ & Hn & Xv & HXv & Hc); [|done].
  destruct (Hkm 4 42%Z 10 Xv ltac:(lia)) as [Hclen Hcbound].
  cbv zeta in Hclen, Hcbound. rewrite <- Hc in Hclen, Hcbound.
  set (outcome := life_expectancy d) in *.
  set (profile := sort_values (groupby_mean Nat.le c outcome)).
  assert (length profile = length (remove_dups c)) as Hplen
    by (unfold profile;
        by rewrite (sort_values_perm Hsort), groupby_mean_length).
  assert (length (remove_dups c) <= 4) as Hm.
  { apply NoDup_below_length; [apply NoDup_remove_dups|].
    apply Forall_forall. intros k Hk. rewrite elem_of_remove_dups in Hk.
    rewrite Forall_forall in Hcbound. auto. }
  assert (forall k, k ∈ c ->
            exists r, profile !! r
                      = Some (k, mean (group_values k c outcome)))
    as Hrank.
  { intros k Hk. apply list_elem_of_lookup.
    apply (sort_values_elem_of Hsort), groupby_mean_elem_of. done. }
  assert (forall r k m, profile !! r = Some (k, m) ->
            k ∈ c /\ m = mean (group_values k c outcome)) as Hprofile.
  { intros r k m Hr. apply list_elem_of_lookup_2 in Hr.
    apply (proj1 (sort_values_elem_of Hsort _ _)) in Hr.
    by apply groupby_mean_elem_of in Hr. }
  assert (forall r, r < 4 -> is_Some (risk_labels !! r)) as Hlabels
    by (intros r Hr; by apply lookup_lt_is_Some).
  assert (forall i k l,
            c !! i = Some k ->
            labelled c outcome !! i = Some (Some l) ->
            exists r, profile !! r
                      = Some (k, mean (group_values k c outcome)) /\
                      risk_labels !! r = Some l) as Hlabel.
  { intros i k l Hk Hl. rewrite list_lookup_fmap, Hk in Hl.
    injection Hl as Hl. by apply (label_of_cluster Hsort) in Hl. }
  assert (NoDup profile.*1) as Hnd.
  { unfold profile. rewrite (sort_values_perm Hsort).
    apply groupby_mean_NoDup. }
  eexists _, c, _. split; [apply snoc_lookup_last|].
  split; [reflexivity|]. split; [reflexivity|].
  split; [lia|]. split; [rewrite length_map; lia|].
  split; [|split].
  - intros i k Hk. split.
    { rewrite Forall_forall in Hcbound.
      apply Hcbound. by eapply list_elem_of_lookup_2. }
    destruct (Hrank k) as [r Hr]; [by eapply list_elem_of_lookup_2|].
    pose proof (lookup_lt_Some _ _ _ Hr) as Hrlt.
    destruct (Hlabels r) as [l Hl]; [lia|].
    exists l. split; [|by eapply list_elem_of_lookup_2].
    rewrite list_lookup_fmap, Hk. cbn. f_equal.
    apply (label_of_cluster Hsort). by exists r.
  - intros i j ki kj li lj Hki Hkj Hli Hlj.
    destruct (Hlabel _ _ _ Hki Hli) as (ri & Hpi & Hri).
    destruct (Hlabel _ _ _ Hkj Hlj) as (rj & Hpj & Hrj).
    split.
    + intros <-. rewrite (risk_labels_rank _ _ _ Hri Hrj) in Hpi.
      rewrite Hpi in Hpj. by injection Hpj.
    + intros <-. rewrite list_lookup_fmap, Hki in Hli.
      rewrite list_lookup_fmap, Hkj in Hlj. cbn in Hli, Hlj. congruence.
  - intros r l Hl. split.
    + intros (i & Hi).
      assert (is_Some (c !! i)) as [k Hk].
      { apply lookup_lt_is_Some. apply lookup_lt_Some in Hi.
        by rewrite length_map in Hi. }
      destruct (Hlabel _ _ _ Hk Hi) as (r' & Hp & Hr').
      rewrite (risk_labels_rank _ _ _ Hl Hr').
      rewrite <- Hplen. by eapply lookup_lt_Some.
    + intros Hr. rewrite <- Hplen in Hr.
      apply lookup_lt_is_Some in Hr as [[k m] Hp].
      destruct (Hprofile _ _ _ Hp) as [Hk ->].
      apply list_elem_of_lookup in Hk as (i & Hi). exists i.
      rewrite list_lookup_fmap, Hi. cbn. f_equal.
      apply (label_of_cluster Hsort). by exists r.
Qed.

End SegmentsMore.

Lemma plain_kmeans_contract : @kmeans_contract plain_libraries.
Proof.
  intros n_clusters random_state n_init X Hn c. unfold c.
  cbn [KMeans_fit_predict plain_libraries].
  split; [by rewrite length_map, length_seq|].
  apply Forall_forall. intros k (i & -> & _)%list_elem_of_fmap.
  apply Nat.mod_upper_bound. lia.
Qed.

Section PlainSegments.
#[local] Existing Instance plain_libraries.

(** The six rows, engineered, are segmented; as loaded they are refused
    for their missing column. *)
Lemma cluster_populations_returns_iff_witness :
  ((exists df' w',
      cluster_populations 0 six_rows_world = (inr df', w')) <->
   (exists gl, gdp_log six_rows_engineered = Some gl /\
               Forall is_finite gl /\
               4 <= length (Country six_rows_engineered))) /\
  (forall e w',
     cluster_populations 0 six_rows_world = (inl e, w') ->
     e = (if gdp_log six_rows_engineered is None
          then KeyError else ValueError) /\
     w' = with_heap (heap six_rows_world ++ [six_rows_engineered])
                    six_rows_world).
Proof.
  exact (cluster_populations_returns_iff six_rows_world 0
           six_rows_engineered eq_refl six_rows_aligned).
Defined.

(** The labels of the six rows. *)
Lemma cluster_populations_labels_every_row_witness :
  exists d' c labels,
    heap (cluster_populations 0 six_rows_world).2 !! 1 = Some d' /\
    cluster d' = Some c /\ cluster_label d' = Some labels /\
    length c = length (Country six_rows_engineered) /\
    length labels = length (Country six_rows_engineered) /\
    (forall i k, c !! i = Some k ->
       k < 4 /\ exists l, labels !! i = Some (Some l) /\ l ∈ risk_labels) /\
    (forall i j ki kj li lj,
       c !! i = Some ki -> c !! j = Some kj ->
       labels !! i = Some (Some li) -> labels !! j = Some (Some lj) ->
       (li = lj <-> ki = kj)) /\
    (forall r l, risk_labels !! r = Some l ->
       (exists i, labels !! i = Some (Some l)) <->
       r < length (remove_dups c)).
Proof.
  exact (cluster_populations_labels_every_row six_rows_world 0
           six_rows_engineered 1 _ plain_argsort_contract
           plain_kmeans_contract eq_refl six_rows_aligned
           six_rows_clusters).
Defined.

End PlainSegments.
(** ** The order of the labels *)

Section Labels.
Context `{Libraries}.

Local Abbreviation labelled c outcome :=
  (map (fun k =>
          dict (zip (sort_values (groupby_mean Nat.le c outcome)).*1
                    risk_labels) !! k) c).

(** C7.  The Segmenter returns a table with the rows and outcomes of its
    input, at least four of them, in which every row has a cluster index
    below 4 and one of the four labels (k-means returning one index below
    4 per row, [argsort] a sorting permutation).  The labels follow the
    clusters' mean outcomes: a cluster whose label comes no later in
    (High Risk, Elevated Risk, Moderate Risk, Low Risk) has a mean
    outcome that is no larger, so a cluster with a smaller mean has an
    earlier label; some row is labelled High Risk, the mean of its
    cluster is the least of all clusters, and a cluster whose mean is
    below that of every other cluster is labelled High Risk. *)
Theorem cluster_labels_monotone w df d df' w' :
  argsort_contract -> kmeans_contract ->
  heap w !! df = Some d -> aligned d ->
  cluster_populations df w = (inr df', w') ->
  exists d' c labels,
    heap w' !! df' = Some d' /\
    life_expectancy d' = life_expectancy d /\
    cluster d' = Some c /\ cluster_label d' = Some labels /\
    length c = length (life_expectancy d) /\
    length labels = length (life_expectancy d) /\
    4 <= length (life_expectancy d) /\
    let cluster_mean k := mean (group_values k c (life_expectancy d)) in
    (forall i, i < length (life_expectancy d) ->
       exists k l r,
         c !! i = Some k /\ k < 4 /\
         labels !! i = Some (Some l) /\ risk_labels !! r = Some l) /\
    (forall i j ki kj li lj ri rj,
       c !! i = Some ki -> c !! j = Some kj ->
       labels !! i = Some (Some li) -> labels !! j = Some (Some lj) ->
       risk_labels !! ri = Some li -> risk_labels !! rj = Some lj ->
       (ri <= rj -> (cluster_mean ki <= cluster_mean kj)%R) /\
       ((cluster_mean ki < cluster_mean kj)%R -> ri < rj)) /\
    (exists i, labels !! i = Some (Some "High Risk")) /\
    (forall i ki,
       c !! i = Some ki -> labels !! i = Some (Some "High Risk") ->
       forall j kj, c !! j = Some kj ->
         (cluster_mean ki <= cluster_mean kj)%R) /\
    (forall i ki li,
       c !! i = Some ki -> labels !! i = Some (Some li) ->
       (forall j kj, c !! j = Some kj -> kj <> ki ->
          (cluster_mean ki < cluster_mean kj)%R) ->
       li = "High Risk").
Proof.
  intros Hsort Hkm E (_ & Hy & _ & Hgl & _) Hrun.
  rewrite (cluster_populations_run _ _ _ E) in Hrun.
  destruct (gdp_log d) as [gl|] eqn:Egl; [|done].
  cbn in Hgl. rewrite <- Hy in *.
  destruct (StandardScaler_fit_transform _ ≫= KMeans 4 42%Z 10)
    as [e|c] eqn:Ec; [done|].
  injection Hrun as <- <-.
  apply scaler_kmeans_inv in Ec as (_ & Hn & Xv & HXv & Hc); [|done].
  destruct (Hkm 4 42%Z 10 Xv ltac:(lia)) as [Hclen Hcbound].
  cbv zeta in Hclen, Hcbound. rewrite <- Hc in Hclen, Hcbound.
  set (outcome := life_expectancy d) in *.
  set (profile := sort_values (groupby_mean Nat.le c outcome)).
  assert (length profile = length (remove_dups c)) as Hplen
    by (unfold profile;
        by rewrite (sort_values_perm Hsort), groupby_mean_length).
  assert (length (remove_dups c) <= 4) as Hm.
  { apply NoDup_below_length; [apply NoDup_remove_dups|].
    apply Forall_forall. intros k Hk. rewrite elem_of_remove_dups in Hk.
    rewrite Forall_forall in Hcbound. auto. }
  assert (forall k, k ∈ c ->
            exists r, profile !! r
                      = Some (k, mean (group_values k c outcome)))
    as Hrank.
  { intros k Hk. apply list_elem_of_lookup.
    apply (sort_values_elem_of Hsort), groupby_mean_elem_of. done. }
  assert (forall r k m, profile !! r = Some (k, m) ->
            k ∈ c /\ m = mean (group_values k c outcome)) as Hprofile.
  { intros r k m Hr. apply list_elem_of_lookup_2 in Hr.
    apply (proj1 (sort_values_elem_of Hsort _ _)) in Hr.
    by apply groupby_mean_elem_of in Hr. }
  assert (forall i k l,
            c !! i = Some k ->
            labelled c outcome !! i = Some (Some l) ->
            exists r, profile !! r
                      = Some (k, mean (group_values k c outcome)) /\
                      risk_labels !! r = Some l) as Hlabel.
  { intros i k l Hk Hl. rewrite list_lookup_fmap, Hk in Hl.
    injection Hl as Hl. by apply (label_of_cluster Hsort) in Hl. }
  pose proof (sort_values_sorted Hsort (groupby_mean Nat.le c outcome))
    as Hsorted. fold profile in Hsorted.
  assert (NoDup profile.*1) as Hnd.
  { unfold profile. rewrite (sort_values_perm Hsort).
    apply groupby_mean_NoDup. }
  assert (forall i j ki kj li lj ri rj,
            c !! i = Some ki -> c !! j = Some kj ->
            labelled c outcome !! i = Some (Some li) ->
            labelled c outcome !! j = Some (Some lj) ->
            risk_labels !! ri = Some li -> risk_labels !! rj = Some lj ->
            ri <= rj ->
            (mean (group_values ki c outcome)
             <= mean (group_values kj c outcome))%R) as Hmono.
  { intros i j ki kj li lj ri rj Hki Hkj Hli Hlj Hri Hrj Hle.
    destruct (Hlabel _ _ _ Hki Hli) as (ri' & Hpi & Hri').
    destruct (Hlabel _ _ _ Hkj Hlj) as (rj' & Hpj & Hrj').
    rewrite (risk_labels_rank _ _ _ Hri' Hri) in Hpi.
    rewrite (risk_labels_rank _ _ _ Hrj' Hrj) in Hpj.
    apply (StronglySorted_lookup_le by_value profile ri rj _ _
             Hsorted Hle Hpi Hpj). }
  assert (exists k0, profile !! 0
                     = Some (k0, mean (group_values k0 c outcome)) /\
                     k0 ∈ c) as (k0 & Hp0 & Hk0).
  { assert (is_Some (c !! 0)) as [k Hk]
      by (apply lookup_lt_is_Some; lia).
    destruct (Hrank k) as [r Hr]; [by eapply list_elem_of_lookup_2|].
    assert (is_Some (profile !! 0)) as [[k0 m0] Hp0]
      by (apply lookup_lt_is_Some; apply lookup_lt_Some in Hr; lia).
    destruct (Hprofile _ _ _ Hp0) as [Hk0 ->]. by exists k0. }
  eexists _, c, _. split; [apply snoc_lookup_last|].
  split; [reflexivity|]. split; [reflexivity|]. split; [reflexivity|].
  split; [lia|]. split; [rewrite length_map; lia|]. split; [done|].
  cbv zeta. split; [|split; [|split; [|split]]].
  - intros i Hi.
    assert (is_Some (c !! i)) as [k Hk] by (apply lookup_lt_is_Some; lia).
    destruct (Hrank k) as [r Hr]; [by eapply list_elem_of_lookup_2|].
    pose proof (lookup_lt_Some _ _ _ Hr) as Hrlt.
    assert (is_Some (risk_labels !! r)) as [l Hl]
      by (apply lookup_lt_is_Some; cbn; lia).
    exists k, l, r. split; [done|]. split.
    { rewrite Forall_forall in Hcbound.
      apply Hcbound. by eapply list_elem_of_lookup_2. }
    split; [|done].
    rewrite list_lookup_fmap, Hk. cbn. f_equal.
    apply (label_of_cluster Hsort). by exists r.
  - intros i j ki kj li lj ri rj Hki Hkj Hli Hlj Hri Hrj. split.
    + by apply (Hmono i j ki kj li lj).
    + intros Hlt. destruct (decide (ri < rj)) as [|Hge]; [done|].
      pose proof (Hmono j i kj ki lj li rj ri Hkj Hki Hlj Hli Hrj Hri
                    ltac:(lia)). lra.
  - apply list_elem_of_lookup in Hk0 as (i & Hi). exists i.
    rewrite list_lookup_fmap, Hi. cbn. f_equal.
    apply (label_of_cluster Hsort). by exists 0.
  - intros i ki Hki Hli j kj Hkj.
    destruct (Hlabel _ _ _ Hki Hli) as (r & Hpi & Hr).
    assert (r = 0) as -> by (by eapply risk_labels_rank).
    destruct (Hrank kj) as [rj Hpj]; [by eapply list_elem_of_lookup_2|].
    apply (StronglySorted_lookup_le by_value profile 0 rj _ _
             Hsorted ltac:(lia) Hpi Hpj).
  - intros i ki li Hki Hli Hleast.
    destruct (Hlabel _ _ _ Hki Hli) as (r & Hpi & Hr).
    destruct (decide (k0 = ki)) as [-> | Hne].
    + assert (r = 0) as ->.
      { eapply (NoDup_lookup _ _ _ ki Hnd);
          rewrite list_lookup_fmap; [by rewrite Hpi | by rewrite Hp0]. }
      cbn in Hr. by injection Hr.
    + exfalso. apply list_elem_of_lookup in Hk0 as (j & Hj).
      pose proof (Hleast j k0 Hj Hne) as Hlt.
      pose proof (StronglySorted_lookup_le by_value profile 0 r _ _
                    Hsorted ltac:(lia) Hp0 Hpi) as Hle.
      unfold by_value in Hle. cbn in Hle. lra.
Qed.

End Labels.

Section PlainLabels.
#[local] Existing Instance plain_libraries.

(** The segments of the six rows. *)
Lemma cluster_labels_monotone_witness :
  exists d' c labels,
    heap (cluster_populations 0 six_rows_world).2 !! 1 = Some d' /\
    life_expectancy d' = life_expectancy six_rows_engineered /\
    cluster d' = Some c /\ cluster_label d' = Some labels /\
    length c = length (life_expectancy six_rows_engineered) /\
    length labels = length (life_expectancy six_rows_engineered) /\
    4 <= length (life_expectancy six_rows_engineered) /\
    let cluster_mean k :=
      mean (group_values k c (life_expectancy six_rows_engineered)) in
    (forall i, i < length (life_expectancy six_rows_engineered) ->
       exists k l r,
         c !! i = Some k /\ k < 4 /\
         labels !! i = Some (Some l) /\ risk_labels !! r = Some l) /\
    (forall i j ki kj li lj ri rj,
       c !! i = Some ki -> c !! j = Some kj ->
       labels !! i = Some (Some li) -> labels !! j = Some (Some lj) ->
       risk_labels !! ri = Some li -> risk_labels !! rj = Some lj ->
       (ri <= rj -> (cluster_mean ki <= cluster_mean kj)%R) /\
       ((cluster_mean ki < cluster_mean kj)%R -> ri < rj)) /\
    (exists i, labels !! i = Some (Some "High Risk")) /\
    (forall i ki,
       c !! i = Some ki -> labels !! i = Some (Some "High Risk") ->
       forall j kj, c !! j = Some kj ->
         (cluster_mean ki <= cluster_mean kj)%R) /\
    (forall i ki li,
       c !! i = Some ki -> labels !! i = Some (Some li) ->
       (forall j kj, c !! j = Some kj -> kj <> ki ->
          (cluster_mean ki < cluster_mean kj)%R) ->
       li = "High Risk").
Proof.
  exact (cluster_labels_monotone six_rows_world 0 six_rows_engineered 1 _
           plain_argsort_contract plain_kmeans_contract eq_refl
           six_rows_aligned six_rows_clusters).
Defined.

End PlainLabels.

(** ** The descriptive summary *)

Lemma foldl_Rmax_spec (l : list R) (v : R) :
  foldl Rmax v l ∈ v :: l /\ forall u, u ∈ v :: l -> (u <= foldl Rmax v l)%R.
Proof.
  revert v. induction l as [|a l IH]; intros v; cbn.
  - split; [by left|]. intros u ->%list_elem_of_singleton. lra.
  - destruct (IH (Rmax v a)) as [Hin Hle]. split.
    + apply elem_of_cons in Hin as [Hin | Hin]; [|by do 2 right].
      rewrite Hin. unfold Rmax. destruct (Rle_dec v a); [right|]; by left.
    + intros u Hu. pose proof (Rmax_l v a). pose proof (Rmax_r v a).
      pose proof (Hle (Rmax v a) ltac:(by left)).
      rewrite !elem_of_cons in Hu. destruct Hu as [-> | [-> | Hu]]; try lra.
      apply Hle. by right.
Qed.

Lemma foldl_Rmin_spec (l : list R) (v : R) :
  foldl Rmin v l ∈ v :: l /\ forall u, u ∈ v :: l -> (foldl Rmin v l <= u)%R.
Proof.
  revert v. induction l as [|a l IH]; intros v; cbn.
  - split; [by left|]. intros u ->%list_elem_of_singleton. lra.
  - destruct (IH (Rmin v a)) as [Hin Hle]. split.
    + apply elem_of_cons in Hin as [Hin | Hin]; [|by do 2 right].
      rewrite Hin. unfold Rmin. destruct (Rle_dec v a); [|right]; by left.
    + intros u Hu. pose proof (Rmin_l v a). pose proof (Rmin_r v a).
      pose proof (Hle (Rmin v a) ltac:(by left)).
      rewrite !elem_of_cons in Hu. destruct Hu as [-> | [-> | Hu]]; try lra.
      apply Hle. by right.
Qed.

(** The least and the greatest value of a column are the ends of the
    sorted column, which are the quantiles at 0 and at 1. *)
Lemma Series_min_float_quantile x :
  x <> [] -> Series_min_float x = Finite (Series_quantile x 0 4).
Proof.
  destruct x as [|v l]; [done|]. intros _. cbn [Series_min_float]. f_equal.
  rewrite Series_quantile_first. symmetry.
  destruct (foldl_Rmin_spec l v) as [Hin Hle]. by apply np_sort_first.
Qed.

Lemma Series_max_float_quantile x :
  x <> [] -> Series_max_float x = Finite (Series_quantile x 4 4).
Proof.
  destruct x as [|v l]; [done|]. intros _. cbn [Series_max_float]. f_equal.
  rewrite Series_quantile_last. symmetry.
  destruct (foldl_Rmax_spec l v) as [Hin Hle]. by apply np_sort_last.
Qed.

Lemma Rsum_bounds (x : list R) (lo hi : R) :
  (forall u, u ∈ x -> (lo <= u <= hi)%R) ->
  (lo * INR (length x) <= Rsum x <= hi * INR (length x))%R.
Proof.
  induction x as [|a x IH]; intros Hx.
  - cbn. lra.
  - cbn [Rsum foldr length]. rewrite S_INR. fold (Rsum x).
    pose proof (Hx a ltac:(by left)).
    pose proof (IH (fun u Hu => Hx u ltac:(by right))). lra.
Qed.

Lemma mean_bounds (x : list R) (lo hi : R) :
  x <> [] -> (forall u, u ∈ x -> (lo <= u <= hi)%R) ->
  (lo <= mean x <= hi)%R.
Proof.
  intros Hne Hx. pose proof (Rsum_bounds x lo hi Hx) as Hsum.
  assert (0 < INR (length x))%R as Hn
    by (apply lt_0_INR; destruct x; [done | cbn; lia]).
  assert (Rsum x = mean x * INR (length x))%R as Hmean
    by (unfold mean; field; lra).
  rewrite Hmean in Hsum. split; nra.
Qed.

Lemma describe_population_run w df d :
  heap w !! df = Some d ->
  describe_population df w =
    (inr (),
     with_stdout
       (stdout w ++
        Text "--- Population Summary ---"
        :: describe_cells "life_expectancy" (life_expectancy d)
                          "gdp" (gdp d)
        ++ [Score "Life expectancy gap"
              (float_sub (Series_max_float (life_expectancy d))
                         (Series_min_float (life_expectancy d)))]) w).
Proof.
  intros E. unfold describe_population.
  erewrite bind_ok by apply print_run.
  erewrite bind_ok by (by eapply getitem_run).
  erewrite bind_ok by (by eapply getitem_run).
  erewrite bind_ok by reflexivity.
  erewrite bind_ok by (by eapply getitem_run).
  cbv zeta. unfold print, print_all, with_stdout. cbn [heap np_random stdout].
  by rewrite <- !app_assoc.
Qed.

Section Describe.
Local Open Scope R_scope.

(** The cell at position [i] of the summary is printed. *)
Ltac cell i :=
  apply elem_of_app; right; apply elem_of_cons; right;
  apply (list_elem_of_lookup_2 _ i); reflexivity.

(** X16.  The Descriptive Analyzer never raises on a table and changes
    none: it prints its heading, the sixteen cells of the summary of the
    two columns, and the gap.  The gap is the greatest outcome minus the
    least: it is the difference of two rows of the table, no two rows
    differ by more, and it is zero exactly when all outcomes are equal.
    On a table without rows the gap is NaN. *)
Theorem describe_population_gap w df d :
  heap w !! df = Some d ->
  exists cells gap,
    describe_population df w =
      (inr (),
       with_stdout
         (stdout w ++ Text "--- Population Summary ---" :: cells
          ++ [Score "Life expectancy gap" gap]) w) /\
    length cells = 16%nat /\
    (life_expectancy d = [] -> gap = NaN) /\
    (life_expectancy d <> [] ->
     exists g, gap = Finite g /\
       (exists u v, u ∈ life_expectancy d /\ v ∈ life_expectancy d /\
                    g = u - v) /\
       (forall u v, u ∈ life_expectancy d -> v ∈ life_expectancy d ->
                    u - v <= g) /\
       (g = 0 <->
        forall u v, u ∈ life_expectancy d -> v ∈ life_expectancy d ->
                    u = v)).
Proof.
  intros E. eexists _, _. split; [by apply describe_population_run|].
  split; [done|].
  destruct (life_expectancy d) as [|a x]; [by split|].
  split; [done|]. intros _. cbn [Series_max_float Series_min_float float_sub].
  destruct (foldl_Rmax_spec x a) as [Hmax_in Hmax].
  destruct (foldl_Rmin_spec x a) as [Hmin_in Hmin].
  eexists. split; [reflexivity|]. split; [by eauto|]. split.
  - intros u v Hu Hv. specialize (Hmax u Hu). specialize (Hmin v Hv). lra.
  - split.
    + intros Hzero u v Hu Hv.
      pose proof (Hmax u Hu). pose proof (Hmin u Hu).
      pose proof (Hmax v Hv). pose proof (Hmin v Hv). lra.
    + intros Hsame. rewrite (Hsame _ _ Hmax_in Hmin_in). lra.
Qed.

(** X17.  The summary that the Descriptive Analyzer prints for a table
    with rows has, for the outcome column, the five quartile edges that
    the Feature Engineer cuts the risk tiers at, under the names min,
    25%, 50%, 75% and max; they ascend, the first and the last are
    outcomes of the table, and the mean lies between them. *)
Theorem describe_population_quartiles w df d :
  heap w !! df = Some d -> life_expectancy d <> [] ->
  let edge k := Series_quantile (life_expectancy d) k 4 in
  let out := stdout (describe_population df w).2 in
  Score "life_expectancy min" (Finite (edge 0%nat)) ∈ out /\
  Score "life_expectancy 25%" (Finite (edge 1%nat)) ∈ out /\
  Score "life_expectancy 50%" (Finite (edge 2%nat)) ∈ out /\
  Score "life_expectancy 75%" (Finite (edge 3%nat)) ∈ out /\
  Score "life_expectancy max" (Finite (edge 4%nat)) ∈ out /\
  Score "life_expectancy mean" (Finite (mean (life_expectancy d))) ∈ out /\
  edge 0%nat <= edge 1%nat <= edge 2%nat /\
  edge 2%nat <= edge 3%nat <= edge 4%nat /\
  edge 0%nat <= mean (life_expectancy d) <= edge 4%nat /\
  edge 0%nat ∈ life_expectancy d /\ edge 4%nat ∈ life_expectancy d.
Proof.
  intros E Hne edge out. unfold out.
  rewrite (describe_population_run _ _ _ E). cbn [snd stdout with_stdout].
  unfold describe_cells, Series_describe.
  rewrite (Series_min_float_quantile _ Hne), (Series_max_float_quantile _ Hne).
  fold (edge 0%nat) (edge 4%nat).
  assert (Series_mean (life_expectancy d)
          = Finite (mean (life_expectancy d))) as ->
    by (by destruct (life_expectancy d)).
  assert (forall k, Series_quantile_float (life_expectancy d) k 4
                    = Finite (edge k)) as Hq
    by (intros k; by destruct (life_expectancy d)).
  rewrite !Hq.
  assert (forall k k', (k <= k' <= 4)%nat -> edge k <= edge k') as Hmono
    by (intros k k' Hk; apply Series_quantile_mono; [done | lia | lia | lia]).
  assert (edge 0%nat ∈ life_expectancy d /\ edge 4%nat ∈ life_expectancy d)
    as [Hlo Hhi].
  { unfold edge. rewrite Series_quantile_first, Series_quantile_last.
    assert (0 < length (life_expectancy d))%nat
      by (destruct (life_expectancy d); [done | cbn; lia]).
    split; apply np_sort_elem_of, list_elem_of_In, nth_In;
      rewrite np_sort_length; lia. }
  assert (forall u, u ∈ life_expectancy d -> edge 0%nat <= u <= edge 4%nat)
    as Hbetween.
  { intros u Hu. unfold edge.
    rewrite Series_quantile_first, Series_quantile_last.
    by apply np_sort_between. }
  pose proof (Hmono 0%nat 1%nat ltac:(lia)).
  pose proof (Hmono 1%nat 2%nat ltac:(lia)).
  pose proof (Hmono 2%nat 3%nat ltac:(lia)).
  pose proof (Hmono 3%nat 4%nat ltac:(lia)).
  pose proof (mean_bounds _ _ _ Hne Hbetween).
  cbn [zip zip_with flat_map app].
  split; [cell 6%nat|]. split; [cell 8%nat|]. split; [cell 10%nat|].
  split; [cell 12%nat|]. split; [cell 14%nat|]. split; [cell 2%nat|].
  repeat split; try done; lra.
Qed.

End Describe.

Section DescribeExamples.
Local Open Scope R_scope.

(** The six rows: outcomes from 60 to 85. *)
Lemma describe_population_gap_witness :
  exists cells gap,
    describe_population 0%nat (with_heap [six_rows] new_world) =
      (inr (),
       with_stdout
         (stdout (with_heap [six_rows] new_world)
          ++ Text "--- Population Summary ---" :: cells
          ++ [Score "Life expectancy gap" gap])
         (with_heap [six_rows] new_world)) /\
    length cells = 16%nat /\
    (life_expectancy six_rows = [] -> gap = NaN) /\
    (life_expectancy six_rows <> [] ->
     exists g, gap = Finite g /\
       (exists u v, u ∈ life_expectancy six_rows /\
                    v ∈ life_expectancy six_rows /\ g = u - v) /\
       (forall u v, u ∈ life_expectancy six_rows ->
                    v ∈ life_expectancy six_rows -> u - v <= g) /\
       (g = 0 <->
        forall u v, u ∈ life_expectancy six_rows ->
                    v ∈ life_expectancy six_rows -> u = v)).
Proof.
  exact (describe_population_gap (with_heap [six_rows] new_world) 0%nat
           six_rows eq_refl).
Defined.

Lemma six_rows_have_rows : life_expectancy six_rows <> [].
Proof. done. Qed.

(** The six rows: edges 60, 70, 72.5, 78.75 and 85. *)
Lemma describe_population_quartiles_witness :
  let edge k := Series_quantile (life_expectancy six_rows) k 4 in
  let out :=
    stdout (describe_population 0%nat (with_heap [six_rows] new_world)).2 in
  Score "life_expectancy min" (Finite (edge 0%nat)) ∈ out /\
  Score "life_expectancy 25%" (Finite (edge 1%nat)) ∈ out /\
  Score "life_expectancy 50%" (Finite (edge 2%nat)) ∈ out /\
  Score "life_expectancy 75%" (Finite (edge 3%nat)) ∈ out /\
  Score "life_expectancy max" (Finite (edge 4%nat)) ∈ out /\
  Score "life_expectancy mean" (Finite (mean (life_expectancy six_rows)))
    ∈ out /\
  edge 0%nat <= edge 1%nat <= edge 2%nat /\
  edge 2%nat <= edge 3%nat <= edge 4%nat /\
  edge 0%nat <= mean (life_expectancy six_rows) <= edge 4%nat /\
  edge 0%nat ∈ life_expectancy six_rows /\
  edge 4%nat ∈ life_expectancy six_rows.
Proof.
  exact (describe_population_quartiles (with_heap [six_rows] new_world)
           0%nat six_rows eq_refl six_rows_have_rows).
Defined.

End DescribeExamples.

(** ** Tables stay aligned *)

Lemma logged_aligned d :
  aligned d ->
  aligned (set_year_index (sub_scalar (Year d) (Series_min (Year d)))
             (set_gdp_log (map np_log (gdp d)) d)).
Proof.
  unfold aligned. cbn. rewrite sub_scalar_length, length_map. tauto.
Qed.

Lemma set_risk_tier_aligned d tiers :
  aligned d -> length tiers = length (life_expectancy d) ->
  aligned (set_risk_tier tiers d).
Proof.
  unfold aligned. cbn. intros (? & Hy & ?) Ht. rewrite Hy in Ht. tauto.
Qed.

Lemma fitted_aligned d p r :
  aligned d -> length p = length (Country d) ->
  length r = length (Country d) ->
  aligned (set_residual r (set_pred p d)).
Proof. unfold aligned. cbn. tauto. Qed.

Lemma segmented_aligned d c l :
  aligned d -> length c = length (Country d) ->
  length l = length (Country d) ->
  aligned (set_cluster_label l (set_cluster c d)).
Proof. unfold aligned. cbn. tauto. Qed.

Lemma describe_population_dangling w df :
  heap w !! df = None -> heap (describe_population df w).2 = heap w.
Proof.
  intros E. unfold describe_population.
  erewrite bind_ok by apply print_run.
  erewrite bind_raise; [|unfold getitem; cbn; by rewrite E]. done.
Qed.

Section Invariants.
Context `{Libraries}.

Lemma fit_outcome_regression_dangling w df :
  heap w !! df = None ->
  fit_outcome_regression df w = (inl ReferenceError, w).
Proof.
  intros E. unfold fit_outcome_regression.
  apply bind_raise. unfold getitem. by rewrite E.
Qed.

(** The table that a returning regression leaves is aligned. *)
Lemma regression_columns_aligned d gl yi Xv model :
  aligned d -> gdp_log d = Some gl -> year_index d = Some yi ->
  check_array (zip gl (map to_float yi)) = inr Xv ->
  let p := map (decision_function model) Xv in
  aligned (set_residual (zip_with Rminus (life_expectancy d) p)
             (set_pred p d)).
Proof.
  intros Hd Egl Eyi EXv p.
  pose proof Hd as (_ & Hy & _ & Hgl & Hyi & _).
  rewrite Egl in Hgl. rewrite Eyi in Hyi. cbn in Hgl, Hyi.
  apply check_array_inv in EXv as (_ & HXv & _).
  rewrite length_zip_with, length_map in HXv.
  assert (length p = length (Country d)) as Hp
    by (unfold p; rewrite length_map; lia).
  apply fitted_aligned; [done | done |].
  rewrite length_zip_with. lia.
Qed.

(** X18.  Every stage keeps the tables of the heap aligned, whether it
    returns or raises: when all columns of every table have the length
    of the table before a call of the Feature Engineer, the Descriptive
    Analyzer, the regression or (with k-means returning one index for
    every row) the Segmenter, they have it after the call, in the table
    that the regression has assigned to and in the copies that the
    Feature Engineer and the Segmenter have made. *)
Theorem stages_keep_tables_aligned w df :
  Forall aligned (heap w) ->
  Forall aligned (heap (engineer_features df w).2) /\
  Forall aligned (heap (describe_population df w).2) /\
  Forall aligned (heap (fit_outcome_regression df w).2) /\
  (kmeans_contract -> Forall aligned (heap (cluster_populations df w).2)).
Proof.
  intros Hheap. destruct (heap w !! df) as [d|] eqn:E.
  2: { rewrite (engineer_features_dangling _ _ E),
         (describe_population_dangling _ _ E),
         (fit_outcome_regression_dangling _ _ E),
         (cluster_populations_dangling _ _ E). done. }
  pose proof (Forall_lookup_1 _ _ _ _ Hheap E) as Hd.
  pose proof Hd as (_ & Hy & _ & Hgl & _).
  split; [|split; [|split]].
  - rewrite (engineer_features_run _ _ _ E).
    destruct (qcut _ _ _ ≫= astype_int) as [e|tiers] eqn:Hq;
      cbn [snd heap with_heap]; apply Forall_app; split; try done;
      apply Forall_singleton.
    + by apply logged_aligned.
    + apply set_risk_tier_aligned; [by apply logged_aligned|].
      apply qcut_inv in Hq as (_ & _ & Hall). symmetry.
      by eapply Forall2_length.
  - by rewrite (describe_population_run _ _ _ E).
  - pose proof (fit_outcome_regression_raises w df d E) as Hraise.
    pose proof (fit_outcome_regression_run w df d E) as Hrun.
    destruct (regression_value d) as [e|model].
    + destruct Hraise as (_ & -> & _). done.
    + destruct Hrun as (gl & yi & Xv & r2_train & r2_test
                        & Egl & Eyi & EXv & ->).
      cbn [snd heap]. apply Forall_insert; [done|].
      by eapply regression_columns_aligned.
  - intros Hkm. rewrite (cluster_populations_run _ _ _ E).
    destruct (gdp_log d) as [gl|] eqn:Egl;
      [|cbn [snd heap with_heap]; apply Forall_app; split; [done|];
        by apply Forall_singleton].
    cbn in Hgl.
    destruct (StandardScaler_fit_transform _ ≫= KMeans 4 42%Z 10)
      as [e|c] eqn:Ec;
      cbn [snd heap with_heap]; apply Forall_app; split; try done;
      apply Forall_singleton; [done|].
    apply scaler_kmeans_inv in Ec as (_ & Hn & Xv & HXv & ->); [|lia].
    destruct (Hkm 4 42%Z 10 Xv ltac:(lia)) as [Hclen _].
    cbv zeta in Hclen.
    apply segmented_aligned; [done | lia | rewrite length_map; lia].
Qed.

End Invariants.

Section PlainInvariants.
#[local] Existing Instance plain_libraries.

(** The heap that holds the six rows, engineered. *)
Lemma stages_keep_tables_aligned_witness :
  Forall aligned (heap (engineer_features 0 six_rows_world).2) /\
  Forall aligned (heap (describe_population 0 six_rows_world).2) /\
  Forall aligned (heap (fit_outcome_regression 0 six_rows_world).2) /\
  (kmeans_contract ->
   Forall aligned (heap (cluster_populations 0 six_rows_world).2)).
Proof.
  apply (stages_keep_tables_aligned six_rows_world 0).
  apply Forall_singleton. by repeat split.
Defined.

End PlainInvariants.

(** ** The driver *)

Lemma bind_inv_ok {A B} (m : M A) (k : A -> M B) w b w' :
  (m ≫= k) w = (inr b, w') ->
  exists a w1, m w = (inr a, w1) /\ k a w1 = (inr b, w').
Proof.
  unfold mbind, M_bind. destruct (m w) as [[e|a] w1]; [done|]. eauto.
Qed.

Lemma np_log_finite g : is_finite (np_log g) <-> (0 < g)%R.
Proof.
  split.
  - intros Hfin. destruct (Rle_lt_dec g 0) as [Hg|]; [|done].
    destruct (np_log_nonpos g Hg) as [E|E]; by rewrite E in Hfin.
  - intros Hg. by rewrite np_log_pos.
Qed.

Lemma Forall_np_log_finite economic :
  Forall is_finite (map np_log economic) <->
  Forall (fun g => (0 < g)%R) economic.
Proof.
  change (map np_log economic) with (np_log <$> economic).
  rewrite Forall_fmap. apply Forall_proper; [|done].
  intros g. apply np_log_finite.
Qed.

Section Main.
Context `{Libraries}.

Local Abbreviation engineered tiers d :=
  (set_risk_tier tiers
     (set_year_index (sub_scalar (Year d) (Series_min (Year d)))
        (set_gdp_log (map np_log (gdp d)) d))).

Local Abbreviation labelled c outcome :=
  (map (fun k =>
          dict (zip (sort_values (groupby_mean Nat.le c outcome)).*1
                    risk_labels) !! k) c).

(** The three stages of a run of the driver that returns. *)
Lemma main_inv w df d w' :
  heap w !! df = Some d ->
  main df w = (inr (), w') ->
  exists tiers model c,
    qcut (life_expectancy d) 4 [1; 2; 3; 4]%Z ≫= astype_int = inr tiers /\
    regression_value (engineered tiers d) = inr model /\
    StandardScaler_fit_transform
      (zip (map Finite (life_expectancy d)) (map np_log (gdp d)))
    ≫= KMeans 4 42%Z 10 = inr c.
Proof.
  intros E Hrun. unfold main in Hrun.
  apply bind_inv_ok in Hrun as (df1 & w1 & Heng & Hrun).
  destruct (engineer_features_ok _ _ _ _ _ E Heng) as (tiers & Hq & -> & ->).
  apply bind_inv_ok in Hrun as ([] & w2 & Hdesc & Hrun).
  rewrite (describe_population_run _ _ (engineered tiers d)) in Hdesc
    by (cbn; apply snoc_lookup_last).
  injection Hdesc as <-.
  apply bind_inv_ok in Hrun as (model & w3 & Hfit & Hrun).
  apply fit_outcome_regression_ok with (d := engineered tiers d) in Hfit
      as (Hval & gl & yi & Xv & r2_train & r2_test & Egl & Eyi & EXv & ->);
    [|cbn; apply snoc_lookup_last].
  apply bind_inv_ok in Hrun as (dfc & w4 & Hcl & _).
  cbn [heap with_heap with_stdout] in Hcl.
  rewrite snoc_insert_last in Hcl.
  erewrite cluster_populations_run in Hcl
    by (cbn [heap]; apply snoc_lookup_last).
  cbn [gdp_log life_expectancy set_residual set_pred set_risk_tier
       set_year_index set_gdp_log] in Hcl.
  destruct (StandardScaler_fit_transform _ ≫= KMeans 4 42%Z 10)
    as [e|c] eqn:Ec; [done|].
  by exists tiers, model, c.
Qed.

(** The example scenario, on the first row of the table. *)
Local Abbreviation scenario d model :=
  (gdp0 ← lift (item (gdp d) 0);
   yi0 ← lift (item (sub_scalar (Year d) (Series_min (Year d))) 0);
   triple ← lift (simulate_life_expectancy_change gdp0 yi0 10 model);
   let '(y_curr, y_new, dy) := triple in
   print (Text "--- Scenario Simulation (10% GDP Increase) ---");;
   print (Score "Baseline" (Finite y_curr));;
   print (Score "After Intervention" (Finite y_new));;
   print (Score "Change in Life Expectancy" (Finite dy))).

(** A run of the driver whose three stages return goes on with the
    scenario. *)
Lemma main_stages w df d tiers model c :
  heap w !! df = Some d ->
  qcut (life_expectancy d) 4 [1; 2; 3; 4]%Z ≫= astype_int = inr tiers ->
  regression_value (engineered tiers d) = inr model ->
  StandardScaler_fit_transform
    (zip (map Finite (life_expectancy d)) (map np_log (gdp d)))
  ≫= KMeans 4 42%Z 10 = inr c ->
  exists Xv r2_train r2_test,
    check_array (zip (map np_log (gdp d))
                     (map to_float
                          (sub_scalar (Year d) (Series_min (Year d)))))
    = inr Xv /\
    let d1 := engineered tiers d in
    let p := map (decision_function model) Xv in
    let r := zip_with Rminus (life_expectancy d) p in
    let d2 := set_residual r (set_pred p d1) in
    let d3 := set_cluster_label (labelled c (life_expectancy d))
                (set_cluster c d2) in
    main df w =
      scenario d model
        {| heap := heap w ++ [d2; d3];
           np_random := np_random w;
           stdout :=
             stdout w
             ++ (Text "--- Population Summary ---"
                 :: describe_cells "life_expectancy" (life_expectancy d)
                                   "gdp" (gdp d)
                 ++ [Score "Life expectancy gap"
                       (float_sub (Series_max_float (life_expectancy d))
                                  (Series_min_float (life_expectancy d)))])
             ++ [Text "--- Outcome Regression Diagnostics ---";
                 Score "R2 (train)" r2_train;
                 Score "R2 (test)" r2_test;
                 Text "Underperforming Countries:";
                 Table (take 10 (sort_values
                                   (groupby_mean str_le (Country d) r)))] |}.
Proof.
  intros E Hq Hval Hc.
  set (d1 := engineered tiers d).
  set (w1 := with_heap (heap w ++ [d1]) w).
  assert (engineer_features df w = (inr (length (heap w)), w1)) as Heng
    by (by rewrite (engineer_features_run _ _ _ E), Hq).
  assert (heap w1 !! length (heap w) = Some d1) as E1
    by apply snoc_lookup_last.
  pose proof (describe_population_run w1 _ d1 E1) as Hdesc.
  set (w2 := with_stdout _ w1) in Hdesc.
  assert (heap w2 !! length (heap w) = Some d1) as E2
    by apply snoc_lookup_last.
  pose proof (fit_outcome_regression_run w2 _ d1 E2) as Hfit.
  fold d1 in Hval. rewrite Hval in Hfit.
  destruct Hfit as (gl & yi & Xv & r2_train & r2_test
                    & Egl & Eyi & EXv & Hfit).
  cbv zeta in Hfit. injection Egl as <-. injection Eyi as <-.
  exists Xv, r2_train, r2_test. split; [done|]. cbv zeta.
  set (p := map (decision_function model) Xv) in *.
  set (r := zip_with Rminus (life_expectancy d1) p) in *.
  set (d2 := set_residual r (set_pred p d1)) in *.
  set (w3 := Build_world _ _ _) in Hfit.
  assert (heap w3 = heap w ++ [d2]) as Hheap3
    by (unfold w3; cbn [heap w2 w1 with_stdout with_heap];
        apply snoc_insert_last).
  assert (heap w3 !! length (heap w) = Some d2) as E3
    by (rewrite Hheap3; apply snoc_lookup_last).
  pose proof (cluster_populations_run w3 _ d2 E3) as Hcl.
  cbn [gdp_log life_expectancy d2 d1 set_residual set_pred set_risk_tier
       set_year_index set_gdp_log] in Hcl.
  rewrite Hc in Hcl. fold d1 d2 in Hcl.
  set (d3 := set_cluster_label _ (set_cluster c d2)) in *.
  set (w4 := with_heap (heap w3 ++ [d3]) w3) in Hcl.
  assert (heap w4 !! length (heap w3) = Some d3) as E4
    by apply snoc_lookup_last.
  assert (w4 = {| heap := heap w ++ [d2; d3];
                  np_random := np_random w;
                  stdout := stdout w3 |}) as Hw4.
  { unfold w4, with_heap. rewrite Hheap3, <- app_assoc. reflexivity. }
  assert (stdout w3 = stdout w
             ++ (Text "--- Population Summary ---"
                 :: describe_cells "life_expectancy" (life_expectancy d)
                                   "gdp" (gdp d)
                 ++ [Score "Life expectancy gap"
                       (float_sub (Series_max_float (life_expectancy d))
                                  (Series_min_float (life_expectancy d)))])
             ++ [Text "--- Outcome Regression Diagnostics ---";
                 Score "R2 (train)" r2_train;
                 Score "R2 (test)" r2_test;
                 Text "Underperforming Countries:";
                 Table (take 10 (sort_values
                                   (groupby_mean str_le (Country d) r)))])
    as Hout.
  { unfold w3, w2, w1, with_stdout, with_heap. cbn [stdout heap np_random].
    by rewrite <- !app_assoc. }
  match goal with
  | |- _ = _ ?w0 => replace w0 with w4 by (rewrite Hw4; f_equal; exact Hout)
  end.
  unfold main.
  erewrite bind_ok by exact Heng.
  erewrite bind_ok by exact Hdesc.
  erewrite bind_ok by exact Hfit.
  erewrite bind_ok by exact Hcl.
  erewrite bind_ok by (by eapply getitem_run).
  change (gdp d3) with (gdp d).
  destruct (gdp d !! 0) as [g0|] eqn:Hg0.
  - erewrite bind_ok by (unfold lift, item; by rewrite Hg0).
    erewrite bind_ok by (by eapply getitem_run).
    symmetry.
    erewrite bind_ok by (unfold lift, item; by rewrite Hg0).
    reflexivity.
  - erewrite bind_raise by (unfold lift, item; by rewrite Hg0).
    symmetry.
    erewrite bind_raise by (unfold lift, item; by rewrite Hg0).
    reflexivity.
Qed.

(** A run of the driver that returns has simulated the scenario on the
    first row, whose perturbed level is a positive float64. *)
Lemma main_inv_scenario w df d w' :
  heap w !! df = Some d ->
  main df w = (inr (), w') ->
  exists g0 t0,
    gdp d !! 0 = Some g0 /\
    sub_scalar (Year d) (Series_min (Year d)) !! 0 = Some t0 /\
    (0 < g0)%R /\
    (float64_underflow < g0 * (1 + 10 / 100) < float64_overflow)%R.
Proof.
  intros E Hrun.
  destruct (main_inv _ _ _ _ E Hrun) as (tiers & model & c & Hq & Hval & Hc).
  destruct (main_stages w df d tiers model c E Hq Hval Hc)
    as (Xv & r2_train & r2_test & _ & Hmain).
  cbv zeta in Hmain. rewrite Hmain in Hrun. clear Hmain.
  apply bind_inv_ok in Hrun as (g0 & w5 & Hg0 & Hrun).
  apply bind_inv_ok in Hrun as (t0 & w6 & Ht0 & Hrun).
  apply bind_inv_ok in Hrun as (triple & w7 & Hsim & _).
  unfold lift, item in Hg0, Ht0, Hsim.
  destruct (gdp d !! 0) as [g|]; [|done].
  destruct (sub_scalar (Year d) (Series_min (Year d)) !! 0) as [t|]; [|done].
  injection Hg0 as -> _. injection Ht0 as -> _. injection Hsim as Hsim _.
  apply simulate_inv_range in Hsim as [Hpos Hrange].
  by exists g0, t0.
Qed.

(** A run of the driver whose three stages return. *)
Lemma main_run w df d tiers model c g0 t0 :
  heap w !! df = Some d ->
  qcut (life_expectancy d) 4 [1; 2; 3; 4]%Z ≫= astype_int = inr tiers ->
  regression_value (engineered tiers d) = inr model ->
  StandardScaler_fit_transform
    (zip (map Finite (life_expectancy d)) (map np_log (gdp d)))
  ≫= KMeans 4 42%Z 10 = inr c ->
  gdp d !! 0 = Some g0 ->
  sub_scalar (Year d) (Series_min (Year d)) !! 0 = Some t0 ->
  (0 < g0)%R ->
  (float64_underflow < g0 * (1 + 10 / 100) < float64_overflow)%R ->
  exists Xv r2_train r2_test,
    check_array (zip (map np_log (gdp d))
                     (map to_float
                          (sub_scalar (Year d) (Series_min (Year d)))))
    = inr Xv /\
    let d1 := engineered tiers d in
    let p := map (decision_function model) Xv in
    let r := zip_with Rminus (life_expectancy d) p in
    let d2 := set_residual r (set_pred p d1) in
    let d3 := set_cluster_label (labelled c (life_expectancy d))
                (set_cluster c d2) in
    let baseline :=
      (intercept_ model + coef_gdp_log model * ln g0
       + coef_year_index model * IZR t0)%R in
    let perturbed :=
      (intercept_ model + coef_gdp_log model * ln (g0 * (1 + 10 / 100))
       + coef_year_index model * IZR t0)%R in
    main df w =
      (inr (),
       {| heap := heap w ++ [d2; d3];
          np_random := np_random w;
          stdout :=
            stdout w
            ++ (Text "--- Population Summary ---"
                :: describe_cells "life_expectancy" (life_expectancy d)
                                  "gdp" (gdp d)
                ++ [Score "Life expectancy gap"
                      (float_sub (Series_max_float (life_expectancy d))
                                 (Series_min_float (life_expectancy d)))])
            ++ [Text "--- Outcome Regression Diagnostics ---";
                Score "R2 (train)" r2_train;
                Score "R2 (test)" r2_test;
                Text "Underperforming Countries:";
                Table (take 10 (sort_values
                                  (groupby_mean str_le (Country d) r)))]
            ++ [Text "--- Scenario Simulation (10% GDP Increase) ---";
                Score "Baseline" (Finite baseline);
                Score "After Intervention" (Finite perturbed);
                Score "Change in Life Expectancy"
                  (Finite (perturbed - baseline))] |}).
Proof.
  intros E Hq Hval Hc Hg0 Ht0 Hpos Hrange.
  destruct (main_stages w df d tiers model c E Hq Hval Hc)
    as (Xv & r2_train & r2_test & EXv & Hmain).
  exists Xv, r2_train, r2_test. split; [done|].
  cbv zeta in Hmain |- *. rewrite Hmain.
  erewrite bind_ok by (unfold lift, item; by rewrite Hg0).
  erewrite bind_ok by (unfold lift, item; by rewrite Ht0).
  erewrite bind_ok by (unfold lift; by rewrite simulate_ok by done).
  cbv beta iota.
  unfold print, mbind, M_bind, with_stdout.
  cbn [heap np_random stdout fst snd]. f_equal. f_equal.
  by rewrite <- !app_assoc.
Qed.

(** The driver runs to its end on a table that each stage accepts. *)
Lemma main_ok w df d :
  permutation_contract -> heap w !! df = Some d -> aligned d ->
  NoDup (map (fun k => Series_quantile (life_expectancy d) k 4) (seq 0 5)) ->
  Forall (fun g => (0 < g)%R) (gdp d) ->
  4 <= length (Country d) ->
  (forall g0, gdp d !! 0 = Some g0 ->
     (float64_underflow < g0 * (1 + 10 / 100) < float64_overflow)%R) ->
  exists w', main df w = (inr (), w').
Proof.
  intros Hperm E Hd Hnd Hpos Hn Hfirst.
  pose proof Hd as (Hyear & Hy & Hg & _).
  destruct (proj2 (qcut_returns_iff (life_expectancy d))) as [tiers Hq].
  { split; [|done]. intros Hnil. rewrite Hnil in Hy. cbn in Hy. lia. }
  destruct (regression_value_ok (engineered tiers d) _ _ Hperm
              eq_refl eq_refl) as [model Hval].
  { cbn. rewrite length_map. lia. }
  { cbn. rewrite sub_scalar_length. lia. }
  { cbn. lia. }
  { by apply Forall_np_log_finite. }
  destruct (scaler_kmeans_ok (life_expectancy d) (map np_log (gdp d)))
    as [c Hc];
    [rewrite length_map; lia | by apply Forall_np_log_finite | lia |].
  assert (is_Some (gdp d !! 0)) as [g0 Hg0]
    by (apply lookup_lt_is_Some; lia).
  assert (is_Some (sub_scalar (Year d) (Series_min (Year d)) !! 0))
    as [t0 Ht0]
    by (apply lookup_lt_is_Some; rewrite sub_scalar_length; lia).
  pose proof (Forall_lookup_1 _ _ _ _ Hpos Hg0) as Hpos0.
  destruct (main_run w df d tiers model c g0 t0 E Hq Hval Hc Hg0 Ht0 Hpos0
              (Hfirst g0 Hg0))
    as (Xv & r2_train & r2_test & _ & Hmain).
  cbv zeta in Hmain. by eexists.
Qed.

(** X19.  What a run of the driver that returns needs.  The figures
    aside, when [main] returns on the table that it has loaded (outcomes
    below half the float64 range), each of the four quarters of the
    sorted outcome column holds two different outcomes: the sorted entry
    at the position [(n-1)*k/4] rounded down is below the one at
    [(n-1)*(k+1)/4] rounded up; every economic level is positive; the
    table has at least four rows; and the economic level of the first
    row, raised by ten per cent, is below the overflow threshold of
    float64 (the float64 nearest to 1.1 is above 1.1).  On any other
    table one of the stages raises. *)
Theorem main_returns_only_if w df d w' :
  heap w !! df = Some d -> aligned d ->
  Forall (fun v => (Rabs v < float64_overflow / 2)%R) (life_expectancy d) ->
  main df w = (inr (), w') ->
  let s := np_sort (life_expectancy d) in
  let n := length (life_expectancy d) in
  (forall k, k < 4 ->
     (nth ((n - 1) * k / 4) s 0 < nth (((n - 1) * (k + 1) + 3) / 4) s 0)%R) /\
  Forall (fun g => (0 < g)%R) (gdp d) /\
  4 <= length (Country d) /\
  exists g0, gdp d !! 0 = Some g0 /\
             (g0 * (1 + 10 / 100) < float64_overflow)%R.
Proof.
  intros E Hd _ Hrun s n. pose proof Hd as (Hyear & Hy & Hg & _).
  destruct (main_inv _ _ _ _ E Hrun)
    as (tiers & model & c & Hq & Hval & Hc).
  destruct (main_inv_scenario _ _ _ _ E Hrun)
    as (g0 & t0 & Hg0 & _ & _ & _ & Hover).
  apply qcut_inv in Hq as (Hne & Hnd & _).
  apply scaler_kmeans_inv in Hc as (Hfin & Hn & _);
    [|rewrite length_map; lia].
  split; [|split; [by apply Forall_np_log_finite|split; [lia|by exists g0]]].
  intros k Hk.
  destruct (Series_quantile_between (life_expectancy d) k Hne ltac:(lia))
    as [Hlo _].
  destruct (Series_quantile_between (life_expectancy d) (k + 1) Hne
              ltac:(lia)) as [_ Hhi].
  pose proof (Series_quantile_mono (life_expectancy d) k (k + 1) 4 Hne
                ltac:(lia) ltac:(lia) ltac:(lia)) as [Hlt | Heq].
  - fold s n in Hlo, Hhi. lra.
  - exfalso. assert (k = k + 1); [|lia].
    eapply (NoDup_lookup _ _ _ (Series_quantile (life_expectancy d) k 4) Hnd).
    + by rewrite list_lookup_fmap, lookup_seq_lt by lia.
    + rewrite list_lookup_fmap, lookup_seq_lt by lia. cbn. by rewrite <- Heq.
Qed.

(** X20.  What a run of the driver leaves.  When [main] returns, the heap
    has two tables more, the table that was loaded is as it was and the
    global random generator is untouched.  The first new table is the
    engineered one, to which the regression has added its predictions
    and residuals; the second, the Segmenter's copy of it, has them too.
    The baseline that the scenario prints is the prediction stored for
    the first row of the table, the outcome after the intervention is
    the baseline plus the log-GDP coefficient of the fitted model times
    [ln 1.1], and the change is that product, whatever the row. *)
Theorem main_scenario w df d w' :
  heap w !! df = Some d -> aligned d ->
  main df w = (inr (), w') ->
  exists d1 d2 model p r summary diagnostics baseline,
    heap w' = heap w ++ [d1; d2] /\ np_random w' = np_random w /\
    regression_value d1 = inr model /\
    gdp_log d1 = Some (map np_log (gdp d)) /\
    pred d1 = Some p /\ residual d1 = Some r /\ cluster d1 = cluster d /\
    pred d2 = Some p /\ residual d2 = Some r /\
    is_Some (cluster d2) /\ is_Some (cluster_label d2) /\
    p !! 0 = Some baseline /\
    length summary = 18 /\ length diagnostics = 5 /\
    stdout w' =
      stdout w ++ summary ++ diagnostics ++
      [Text "--- Scenario Simulation (10% GDP Increase) ---";
       Score "Baseline" (Finite baseline);
       Score "After Intervention"
         (Finite (baseline + coef_gdp_log model * ln (11 / 10)));
       Score "Change in Life Expectancy"
         (Finite (coef_gdp_log model * ln (11 / 10)))].
Proof.
  intros E Hd Hrun. pose proof Hd as (Hyear & Hy & Hg & _).
  destruct (main_inv _ _ _ _ E Hrun) as (tiers & model & c & Hq & Hval & Hc).
  pose proof Hc as (Hfin & Hn & _)%scaler_kmeans_inv;
    [|rewrite length_map; lia].
  apply Forall_np_log_finite in Hfin.
  assert (is_Some (gdp d !! 0)) as [g0 Hg0]
    by (apply lookup_lt_is_Some; lia).
  assert (is_Some (sub_scalar (Year d) (Series_min (Year d)) !! 0))
    as [t0 Ht0]
    by (apply lookup_lt_is_Some; rewrite sub_scalar_length; lia).
  pose proof (Forall_lookup_1 _ _ _ _ Hfin Hg0) as Hpos0.
  destruct (main_inv_scenario _ _ _ _ E Hrun)
    as (g0' & _ & Hg0' & _ & _ & Hrange).
  rewrite Hg0 in Hg0'. injection Hg0' as <-.
  destruct (main_run w df d tiers model c g0 t0 E Hq Hval Hc Hg0 Ht0 Hpos0
              Hrange)
    as (Xv & r2_train & r2_test & EXv & Hmain).
  cbv zeta in Hmain. rewrite Hrun in Hmain. injection Hmain as ->.
  set (baseline := (intercept_ model + coef_gdp_log model * ln g0
                    + coef_year_index model * IZR t0)%R).
  assert (map (decision_function model) Xv !! 0 = Some baseline) as Hp0.
  { set (X := zip (map np_log (gdp d))
                  (map to_float
                       (sub_scalar (Year d) (Series_min (Year d))))) in *.
    assert (traverse check_finite X = inr Xv) as Ht
      by (unfold check_array in EXv; by destruct X).
    apply traverse_inr in Ht.
    assert (X !! 0 = Some (Finite (ln g0), to_float t0)) as Hrow.
    { apply lookup_zip_with_Some. exists (Finite (ln g0)), (to_float t0).
      split; [done|].
      change (map np_log (gdp d)) with (np_log <$> gdp d).
      change (map to_float ?l) with (to_float <$> l).
      rewrite !list_lookup_fmap, Hg0, Ht0. cbn.
      by rewrite np_log_pos. }
    destruct (Forall2_lookup_l _ _ _ _ _ Ht Hrow) as (v & Hv & Hck).
    cbn in Hck. injection Hck as <-.
    rewrite list_lookup_fmap, Hv. cbn. f_equal.
    unfold decision_function, baseline. cbn. ring. }
  set (p := map (decision_function model) Xv) in *.
  set (r := zip_with Rminus (life_expectancy d) p) in *.
  eexists _, _, model, p, r,
    (Text "--- Population Summary ---"
     :: describe_cells "life_expectancy" (life_expectancy d) "gdp" (gdp d)
     ++ [Score "Life expectancy gap"
           (float_sub (Series_max_float (life_expectancy d))
                      (Series_min_float (life_expectancy d)))]),
    [Text "--- Outcome Regression Diagnostics ---";
     Score "R2 (train)" r2_train;
     Score "R2 (test)" r2_test;
     Text "Underperforming Countries:";
     Table (take 10 (sort_values (groupby_mean str_le (Country d) r)))],
    baseline.
  split; [reflexivity|]. split; [reflexivity|].
  split; [exact Hval|].
  do 4 (split; [reflexivity|]). do 2 (split; [reflexivity|]).
  do 2 (split; [by eexists|]).
  split; [exact Hp0|].
  split; [done|]. split; [done|].
  cbn [stdout].
  assert (ln (g0 * (1 + 10 / 100)) = ln g0 + ln (11 / 10))%R as ->.
  { rewrite ln_mult by lra. f_equal. f_equal. lra. }
  replace (intercept_ model + coef_gdp_log model * (ln g0 + ln (11 / 10))
           + coef_year_index model * IZR t0)%R
    with (baseline + coef_gdp_log model * ln (11 / 10))%R
    by (unfold baseline; ring).
  replace (baseline + coef_gdp_log model * ln (11 / 10) - baseline)%R
    with (coef_gdp_log model * ln (11 / 10))%R by ring.
  reflexivity.
Qed.

End Main.

Lemma six_rows_loaded_aligned : aligned six_rows.
Proof. by repeat split. Qed.

Section PlainMain.
#[local] Existing Instance plain_libraries.

Lemma six_rows_main :
  let w := with_heap [six_rows] new_world in
  main 0 w = (inr (), (main 0 w).2).
Proof.
  intros w.
  destruct (main_ok w 0 six_rows plain_permutation_contract eq_refl
              six_rows_loaded_aligned) as [w' Hmain].
  - change (life_expectancy six_rows) with [60; 70; 70; 75; 80; 85]%R.
    rewrite six_rows_edges. distinct_reals.
  - repeat constructor; lra.
  - cbn. lia.
  - intros g0 [= <-]. float64_range. lra.
  - by rewrite Hmain.
Qed.

(** The six rows: quarters that differ, positive levels, six rows, a
    first level of 1000. *)
Lemma main_returns_only_if_witness :
  let s := np_sort (life_expectancy six_rows) in
  let n := length (life_expectancy six_rows) in
  (forall k, k < 4 ->
     (nth ((n - 1) * k / 4) s 0 < nth (((n - 1) * (k + 1) + 3) / 4) s 0)%R) /\
  Forall (fun g => (0 < g)%R) (gdp six_rows) /\
  4 <= length (Country six_rows) /\
  exists g0, gdp six_rows !! 0 = Some g0 /\
             (g0 * (1 + 10 / 100) < float64_overflow)%R.
Proof.
  refine (main_returns_only_if (with_heap [six_rows] new_world) 0 six_rows _
            eq_refl six_rows_loaded_aligned _ six_rows_main).
  float64_range.
  repeat (constructor; [apply Rabs_def1; lra|]). constructor.
Defined.

(** The driver on the six rows. *)
Lemma main_scenario_witness :
  let w := with_heap [six_rows] new_world in
  let w' := (main 0 w).2 in
  exists d1 d2 model p r summary diagnostics baseline,
    heap w' = heap w ++ [d1; d2] /\ np_random w' = np_random w /\
    regression_value d1 = inr model /\
    gdp_log d1 = Some (map np_log (gdp six_rows)) /\
    pred d1 = Some p /\ residual d1 = Some r /\
    cluster d1 = cluster six_rows /\
    pred d2 = Some p /\ residual d2 = Some r /\
    is_Some (cluster d2) /\ is_Some (cluster_label d2) /\
    p !! 0 = Some baseline /\
    length summary = 18 /\ length diagnostics = 5 /\
    stdout w' =
      stdout w ++ summary ++ diagnostics ++
      [Text "--- Scenario Simulation (10% GDP Increase) ---";
       Score "Baseline" (Finite baseline);
       Score "After Intervention"
         (Finite (baseline + coef_gdp_log model * ln (11 / 10)));
       Score "Change in Life Expectancy"
         (Finite (coef_gdp_log model * ln (11 / 10)))].
Proof.
  exact (main_scenario (with_heap [six_rows] new_world) 0 six_rows _
           eq_refl six_rows_loaded_aligned six_rows_main).
Defined.

End PlainMain.

(** ** The global trend *)

Lemma StronglySorted_Zle_NoDup (l : list Z) :
  StronglySorted Z.le l -> NoDup l -> StronglySorted Z.lt l.
Proof.
  induction 1 as [|x l Hl IH Hx]; intros Hnd; [constructor|].
  apply NoDup_cons in Hnd as [Hnotin Hnd]. constructor; [by apply IH|].
  rewrite Forall_forall in *. intros y Hy.
  specialize (Hx y Hy). assert (x <> y) by (by intros ->). lia.
Qed.

Lemma group_values_elem_of {K} `{EqDecision K} (k : K) keys vals v :
  v ∈ group_values k keys vals <->
  exists i, keys !! i = Some k /\ vals !! i = Some v.
Proof.
  unfold group_values. rewrite list_elem_of_fmap. split.
  - intros ([k' v'] & -> & Hin). apply list_elem_of_filter in Hin as [Hk Hin].
    cbn in Hk. subst k'. by apply elem_of_zip_lookup in Hin.
  - intros (i & Hk & Hv). exists (k, v). split; [done|].
    apply list_elem_of_filter. split; [done|].
    apply elem_of_zip_lookup. by exists i.
Qed.

(** X21.  The trend that the third descriptive figure plots has one
    point for every year of the table, in strictly ascending order of
    the years; the value of a point is the mean of the outcomes of the
    rows of its year, which lies between any two bounds of these
    outcomes. *)
Theorem trend_points d :
  aligned d ->
  StronglySorted Z.lt (trend d).*1 /\
  (forall y, y ∈ (trend d).*1 <-> y ∈ Year d) /\
  (forall y m, (y, m) ∈ trend d ->
     m = mean (group_values y (Year d) (life_expectancy d)) /\
     forall lo hi,
       (forall i v, Year d !! i = Some y ->
                    life_expectancy d !! i = Some v -> (lo <= v <= hi)%R) ->
       (lo <= m <= hi)%R).
Proof.
  intros (Hyear & Hy & _). unfold trend. split; [|split].
  - rewrite groupby_mean_keys. apply StronglySorted_Zle_NoDup.
    + apply (StronglySorted_merge_sort Z.le).
    + rewrite merge_sort_Permutation. apply NoDup_remove_dups.
  - intros y. rewrite groupby_mean_keys, merge_sort_Permutation.
    apply elem_of_remove_dups.
  - intros y m Hin. apply groupby_mean_elem_of in Hin as [Hin ->].
    split; [done|]. intros lo hi Hbound. apply mean_bounds.
    + apply list_elem_of_lookup in Hin as (i & Hi).
      assert (is_Some (life_expectancy d !! i)) as [v Hv].
      { apply lookup_lt_is_Some. rewrite Hy, <- Hyear.
        by eapply lookup_lt_Some. }
      intros Hnil.
      assert (v ∈ group_values y (Year d) (life_expectancy d)) as Hv'
        by (apply group_values_elem_of; by exists i).
      rewrite Hnil in Hv'. by apply elem_of_nil in Hv'.
    + intros v (i & Hi & Hv)%group_values_elem_of. by eapply Hbound.
Qed.

(** The six rows: the years 2000, 2001 and 2002. *)
Lemma trend_points_witness :
  StronglySorted Z.lt (trend six_rows).*1 /\
  (forall y, y ∈ (trend six_rows).*1 <-> y ∈ Year six_rows) /\
  (forall y m, (y, m) ∈ trend six_rows ->
     m = mean (group_values y (Year six_rows) (life_expectancy six_rows)) /\
     forall lo hi,
       (forall i v, Year six_rows !! i = Some y ->
                    life_expectancy six_rows !! i = Some v ->
                    (lo <= v <= hi)%R) ->
       (lo <= m <= hi)%R).
Proof. exact (trend_points six_rows six_rows_loaded_aligned). Defined.
